(** * The Toast notification component

    A shallow embedding of the [Toast] React component: its prop
    normalisation, its render output, and its lifecycle (expiry timer,
    progress loop, hover pause and resume, close path, teardown) run on an
    explicit model of the browser facilities the component calls
    ([setTimeout], [clearTimeout], [requestAnimationFrame],
    [cancelAnimationFrame], [Date.now]) and of React's commit cycle.

    Conventions of the embedding.
    - JS numbers are exact rationals ([Q]); [Date.now()] is an integer
      number of milliseconds ([Z]) and never goes back. The rounding of
      IEEE doubles is not modelled: where the browser computes
      [(progress / 100) * safeDuration] from a sampled progress value it
      may get a double just below the exact product (99.38 and 5000 give
      4968.999999999999, a timeout of 4968 ms), where the value here is
      the exact one. Statements on the time of an expiry are therefore
      made for the runs whose remaining time involves no sampled value.
    - A prop holds a primitive value ([jsval]); arrays, objects and
      functions are not modelled.
    - Timeout and animation-frame handles are the positive integers the
      browser hands out; a ref holds [None] for JS [null].
    - Pending callbacks are kept as data: one constructor per arrow function
      of the source, carrying the variables the closure captured.
    - The props of an instance do not change, and no extra props are
      spread onto the element.
    - Each event (a DOM event, a timer or a frame callback) runs to
      completion and React commits the re-render and flushes the effect
      before the next event is delivered.
    - Of the logger calls only [logger.error] in the close path is kept;
      the development-mode [logger.info] lines have no counterpart. *)

From Stdlib Require Import QArith Qminmax Qround Lqa.
From stdpp Require Import base option list strings gmap fin_maps.

Local Open Scope string_scope.

(** ** JavaScript values and completions *)

Inductive jsval : Type :=
| JUndefined
| JNull
| JBool (b : bool)
| JNum (q : Q)
| JNaN
| JStr (s : string).

(** The outcome of running a piece of JS: a normal return or a thrown
    exception. *)
Inductive completion (A : Type) : Type :=
| Normal (a : A)
| Throw (e : string).
Arguments Normal {A} a.
Arguments Throw {A} e.

(** ToBoolean. *)
Definition truthy (v : jsval) : bool :=
  match v with
  | JUndefined | JNull | JNaN => false
  | JBool b => b
  | JNum q => negb (Qeq_bool q 0)
  | JStr s => negb (String.eqb s "")
  end.

(** A destructuring default [x = d] applies exactly when the property is
    [undefined]. *)
Definition with_default (d v : jsval) : jsval :=
  match v with JUndefined => d | _ => v end.

(** [Array.prototype.includes] on an array of strings (SameValueZero: only
    a primitive string can be equal to a string). *)
Definition array_includes (xs : list string) (v : jsval) : bool :=
  match v with
  | JStr s => existsb (String.eqb s) xs
  | _ => false
  end.

(** [String.prototype.includes]: [needle] occurs somewhere in [hay]. *)
Fixpoint includes (hay needle : string) : bool :=
  if String.prefix needle hay then true
  else match hay with
       | EmptyString => false
       | String _ rest => includes rest needle
       end.

(** Property lookup in an object literal, [obj[key]]. *)
Fixpoint obj_get {A : Type} (obj : list (string * A)) (key : string) : option A :=
  match obj with
  | [] => None
  | (k, v) :: rest => if String.eqb k key then Some v else obj_get rest key
  end.

Definition Qltb (a b : Q) : bool := negb (Qle_bool b a).

(** ** Static tables of the module *)

Inductive icon : Type := CheckCircle | AlertCircle | AlertTriangle | Info | X.

Definition toastIcons : list (string * icon) :=
  [ ("success", CheckCircle); ("error", AlertCircle);
    ("warning", AlertTriangle); ("info", Info) ].

Record variant_style : Type := {
  container : string;
  icon_class : string;
  iconBg : string
}.

Definition style_success : variant_style :=
  {| container := "toast-success border-green-200 dark:border-green-800 bg-green-50 dark:bg-green-900/20";
     icon_class := "text-green-600 dark:text-green-400";
     iconBg := "bg-green-100 dark:bg-green-900/30" |}.
Definition style_error : variant_style :=
  {| container := "toast-error border-red-200 dark:border-red-800 bg-red-50 dark:bg-red-900/20";
     icon_class := "text-red-600 dark:text-red-400";
     iconBg := "bg-red-100 dark:bg-red-900/30" |}.
Definition style_warning : variant_style :=
  {| container := "toast-warning border-yellow-200 dark:border-yellow-800 bg-yellow-50 dark:bg-yellow-900/20";
     icon_class := "text-yellow-600 dark:text-yellow-400";
     iconBg := "bg-yellow-100 dark:bg-yellow-900/30" |}.
Definition style_info : variant_style :=
  {| container := "toast-info border-blue-200 dark:border-blue-800 bg-blue-50 dark:bg-blue-900/20";
     icon_class := "text-blue-600 dark:text-blue-400";
     iconBg := "bg-blue-100 dark:bg-blue-900/30" |}.

Definition toastVariants : list (string * variant_style) :=
  [ ("success", style_success); ("error", style_error);
    ("warning", style_warning); ("info", style_info) ].

Definition validVariants : list string := ["success"; "error"; "warning"; "info"].

(** ** Props and their normalisation *)

Record Props : Type := {
  id : string;
  title : jsval;
  message : jsval;
  variant : jsval;
  duration : jsval;
  onClose : option (string -> completion unit);
  showProgress : bool;
  position : jsval;
  stackIndex : Z
}.

(** [validVariants.includes(variant) ? variant : "info"], after the default
    [variant = "info"]. *)
Definition safeVariant (p : Props) : string :=
  match with_default (JStr "info") (variant p) with
  | JStr s => if array_includes validVariants (JStr s) then s else "info"
  | _ => "info"
  end.

(** [typeof duration === "number" && duration >= 0 ? duration : 5000],
    after the default [duration = 5000]. [NaN >= 0] is false. *)
Definition safeDuration (p : Props) : Q :=
  match with_default (JNum 5000) (duration p) with
  | JNum q => if Qle_bool 0 q then q else 5000
  | _ => 5000
  end.

(** [message || "Notification"]. *)
Definition safeMessage (p : Props) : jsval :=
  if truthy (message p) then message p else JStr "Notification".

(** [toastIcons[safeVariant] || toastIcons.info] *)
Definition Icon (p : Props) : icon :=
  default Info (obj_get toastIcons (safeVariant p)).

(** [toastVariants[safeVariant] || toastVariants.info] *)
Definition variantStyles (p : Props) : variant_style :=
  default style_info (obj_get toastVariants (safeVariant p)).

(** ** Animation class *)

(** [getAnimationClass], over the two state flags it reads and the
    [position] prop. Calling [.includes] on a primitive that is not a
    string throws: [null] has no properties, numbers and booleans have no
    [includes] method. An array has an [includes] of its own and would
    pass; it is not a value of [jsval]. *)
Definition getAnimationClass (isLeaving isVisible : bool) (pos : jsval)
  : completion string :=
  match with_default (JStr "top-right") pos with
  | JStr position =>
      let isRightPosition := includes position "right" in
      let isLeftPosition := includes position "left" in
      let isTopPosition := includes position "top" in
      let isBottomPosition := includes position "bottom" in
      if isLeaving then
        if isRightPosition then Normal "animate-slide-out-to-right"
        else if isLeftPosition then Normal "animate-slide-out-to-left"
        else if isTopPosition && negb isRightPosition && negb isLeftPosition
             then Normal "animate-slide-out-to-top"
        else if isBottomPosition && negb isRightPosition && negb isLeftPosition
             then Normal "animate-slide-out-to-bottom"
        else Normal "animate-slide-out-to-right"
      else if isVisible then
        if isRightPosition then Normal "animate-slide-in-from-right"
        else if isLeftPosition then Normal "animate-slide-in-from-left"
        else if isTopPosition && negb isRightPosition && negb isLeftPosition
             then Normal "animate-slide-in-from-top"
        else if isBottomPosition && negb isRightPosition && negb isLeftPosition
             then Normal "animate-slide-in-from-bottom"
        else Normal "animate-slide-in-from-right"
      else Normal "opacity-0 translate-x-full"
  | _ => Throw "TypeError: position.includes is not a function"
  end.

(** The lifecycle phase the two flags encode; [isLeaving] wins. *)
Inductive phase : Type := Entering | Visible | Leaving.

Definition phase_of (isLeaving isVisible : bool) : phase :=
  if isLeaving then Leaving else if isVisible then Visible else Entering.

(** ** The browser and React state one toast instance lives in *)

(** The arrow functions handed to [setTimeout], with what they close over. *)
Inductive timer_cb : Type :=
| ExpiryCb (isLeaving_captured : bool)
    (** [() => { handleClose(); }] where [handleClose] is the callback of a
        render in which [isLeaving] had the given value *)
| DismissCb.
    (** the arrow function scheduled by [handleClose] itself *)

Record timer_entry : Type := {
  t_cb : timer_cb;
  t_delay : Q;    (** the delay argument *)
  t_set_at : Z    (** the time of the [setTimeout] call *)
}.

(** The functions handed to [requestAnimationFrame]. *)
Inductive frame_cb : Type :=
| EntranceCb
    (** [() => { setIsVisible(true); }] *)
| MountProgressCb (startTime : Z)
    (** [updateProgress] of the effect *)
| ResumeProgressCb (startTime : Z) (initialProgress remainingTime : Q).
    (** [updateProgress] of [handleMouseLeave] *)

(** What the instance does to the outside world. *)
Inductive log_entry : Type :=
| OnCloseCalled (toast_id : string) (still_mounted : bool)
| ErrorLogged (e : string).

Record World : Type := {
  clock : Z;                          (** [Date.now()] *)
  mounted : bool;
  isVisible : bool;                   (** [useState(false)] *)
  isLeaving : bool;                   (** [useState(false)] *)
  progress : Q;                       (** [useState(100)] *)
  timerRef : option positive;         (** [useRef(null)] *)
  progressRef : option positive;      (** [useRef(null)] *)
  timers : gmap positive timer_entry; (** pending timeouts *)
  next_timer : positive;
  frames : gmap positive frame_cb;    (** pending animation frames *)
  next_frame : positive;
  log : list log_entry;               (** newest first *)
  uncaught : list string              (** exceptions that escaped a callback *)
}.

(** *** Browser primitives *)

Definition setTimeout (cb : timer_cb) (delay : Q) (w : World) : positive * World :=
  (next_timer w,
   {| clock := clock w; mounted := mounted w; isVisible := isVisible w;
      isLeaving := isLeaving w; progress := progress w;
      timerRef := timerRef w; progressRef := progressRef w;
      timers := <[next_timer w := {| t_cb := cb; t_delay := delay; t_set_at := clock w |}]> (timers w);
      next_timer := Pos.succ (next_timer w);
      frames := frames w; next_frame := next_frame w;
      log := log w; uncaught := uncaught w |}).

Definition clearTimeout (h : positive) (w : World) : World :=
  {| clock := clock w; mounted := mounted w; isVisible := isVisible w;
     isLeaving := isLeaving w; progress := progress w;
     timerRef := timerRef w; progressRef := progressRef w;
     timers := delete h (timers w); next_timer := next_timer w;
     frames := frames w; next_frame := next_frame w;
     log := log w; uncaught := uncaught w |}.

Definition requestAnimationFrame (cb : frame_cb) (w : World) : positive * World :=
  (next_frame w,
   {| clock := clock w; mounted := mounted w; isVisible := isVisible w;
      isLeaving := isLeaving w; progress := progress w;
      timerRef := timerRef w; progressRef := progressRef w;
      timers := timers w; next_timer := next_timer w;
      frames := <[next_frame w := cb]> (frames w);
      next_frame := Pos.succ (next_frame w);
      log := log w; uncaught := uncaught w |}).

Definition cancelAnimationFrame (h : positive) (w : World) : World :=
  {| clock := clock w; mounted := mounted w; isVisible := isVisible w;
     isLeaving := isLeaving w; progress := progress w;
     timerRef := timerRef w; progressRef := progressRef w;
     timers := timers w; next_timer := next_timer w;
     frames := delete h (frames w); next_frame := next_frame w;
     log := log w; uncaught := uncaught w |}.

(** A timeout never runs before its delay, taken in whole milliseconds,
    has passed. *)
Definition due (t : timer_entry) (now : Z) : bool :=
  (Qfloor (t_delay t) <=? now - t_set_at t)%Z.

Definition advance (dt : N) (w : World) : World :=
  {| clock := (clock w + Z.of_N dt)%Z; mounted := mounted w; isVisible := isVisible w;
     isLeaving := isLeaving w; progress := progress w;
     timerRef := timerRef w; progressRef := progressRef w;
     timers := timers w; next_timer := next_timer w;
     frames := frames w; next_frame := next_frame w;
     log := log w; uncaught := uncaught w |}.

Definition add_log (l : log_entry) (w : World) : World :=
  {| clock := clock w; mounted := mounted w; isVisible := isVisible w;
     isLeaving := isLeaving w; progress := progress w;
     timerRef := timerRef w; progressRef := progressRef w;
     timers := timers w; next_timer := next_timer w;
     frames := frames w; next_frame := next_frame w;
     log := l :: log w; uncaught := uncaught w |}.

(** An exception that leaves a callback is reported and the loop goes on. *)
Definition report (c : completion unit) (w : World) : World :=
  match c with
  | Normal _ => w
  | Throw e =>
      {| clock := clock w; mounted := mounted w; isVisible := isVisible w;
         isLeaving := isLeaving w; progress := progress w;
         timerRef := timerRef w; progressRef := progressRef w;
         timers := timers w; next_timer := next_timer w;
         frames := frames w; next_frame := next_frame w;
         log := log w; uncaught := e :: uncaught w |}
  end.

(** *** React primitives *)

(** State setters do nothing once the component is unmounted. *)
Definition setIsVisible (b : bool) (w : World) : World :=
  if mounted w then
    {| clock := clock w; mounted := mounted w; isVisible := b;
       isLeaving := isLeaving w; progress := progress w;
       timerRef := timerRef w; progressRef := progressRef w;
       timers := timers w; next_timer := next_timer w;
       frames := frames w; next_frame := next_frame w;
       log := log w; uncaught := uncaught w |}
  else w.

Definition setIsLeaving (b : bool) (w : World) : World :=
  if mounted w then
    {| clock := clock w; mounted := mounted w; isVisible := isVisible w;
       isLeaving := b; progress := progress w;
       timerRef := timerRef w; progressRef := progressRef w;
       timers := timers w; next_timer := next_timer w;
       frames := frames w; next_frame := next_frame w;
       log := log w; uncaught := uncaught w |}
  else w.

Definition setProgress (q : Q) (w : World) : World :=
  if mounted w then
    {| clock := clock w; mounted := mounted w; isVisible := isVisible w;
       isLeaving := isLeaving w; progress := q;
       timerRef := timerRef w; progressRef := progressRef w;
       timers := timers w; next_timer := next_timer w;
       frames := frames w; next_frame := next_frame w;
       log := log w; uncaught := uncaught w |}
  else w.

(** Refs are plain mutable cells: writes go through in any state. *)
Definition set_timerRef (h : option positive) (w : World) : World :=
  {| clock := clock w; mounted := mounted w; isVisible := isVisible w;
     isLeaving := isLeaving w; progress := progress w;
     timerRef := h; progressRef := progressRef w;
     timers := timers w; next_timer := next_timer w;
     frames := frames w; next_frame := next_frame w;
     log := log w; uncaught := uncaught w |}.

Definition set_progressRef (h : option positive) (w : World) : World :=
  {| clock := clock w; mounted := mounted w; isVisible := isVisible w;
     isLeaving := isLeaving w; progress := progress w;
     timerRef := timerRef w; progressRef := h;
     timers := timers w; next_timer := next_timer w;
     frames := frames w; next_frame := next_frame w;
     log := log w; uncaught := uncaught w |}.

Definition set_mounted (b : bool) (w : World) : World :=
  {| clock := clock w; mounted := b; isVisible := isVisible w;
     isLeaving := isLeaving w; progress := progress w;
     timerRef := timerRef w; progressRef := progressRef w;
     timers := timers w; next_timer := next_timer w;
     frames := frames w; next_frame := next_frame w;
     log := log w; uncaught := uncaught w |}.

(** What the environment can do to a toast. *)
Inductive event : Type :=
| Tick (dt : N)               (** time passes *)
| TimerFires (h : positive)   (** the browser runs a pending timeout *)
| FrameFires (h : positive)   (** the browser runs a pending animation frame *)
| MouseEnter
| MouseLeave
| CloseClick                  (** click on the close button *)
| KeyDown (key : string)
| Focus
| Blur
| Unmount.                    (** the parent removes the element *)

(** ** The component *)

Section Toast.

Local Open Scope Q_scope.

Variable P : Props.
(** [process.env.NODE_ENV === "development"] *)
Variable development : bool.

(** [handleClose] as created by a render in which [isLeaving] had the value
    [isLeaving_captured] (the [useCallback] dependencies are
    [id, onClose, isLeaving]). *)
Definition handleClose (isLeaving_captured : bool) (w : World) : World :=
  if isLeaving_captured then w
  else
    let w := setIsLeaving true w in
    let (_, w) := setTimeout DismissCb 300 w in
    w.

(** [onClose?.(id)] *)
Definition call_onClose (w : World) : completion unit * World :=
  match onClose P with
  | None => (Normal tt, w)
  | Some f => (f (id P), add_log (OnCloseCalled (id P) (mounted w)) w)
  end.

(** The arrow function [handleClose] hands to [setTimeout]: [onClose] inside
    [try]/[catch]. *)
Definition dismiss_callback (w : World) : completion unit * World :=
  match call_onClose w with
  | (Normal _, w) => (Normal tt, w)
  | (Throw e, w) =>
      if development then (Normal tt, add_log (ErrorLogged e) w)
      else (Normal tt, w)
  end.

(** The value the effect's [updateProgress] computes. *)
Definition mount_progress_at (elapsed : Z) : Q :=
  Qmax 0 (100 - (inject_Z elapsed / safeDuration P) * 100).

(** The value [updateProgress] of [handleMouseLeave] computes. *)
Definition resume_progress_at (initialProgress remainingTime : Q) (elapsed : Z) : Q :=
  Qmax 0 (initialProgress - (inject_Z elapsed / remainingTime) * initialProgress).

(** [updateProgress] of the effect. *)
Definition updateProgress_mount (startTime : Z) (w : World) : World :=
  let elapsed := (clock w - startTime)%Z in
  let newProgress := mount_progress_at elapsed in
  let w := setProgress newProgress w in
  if Qltb 0 newProgress && Qltb (inject_Z elapsed) (safeDuration P) then
    let (f, w) := requestAnimationFrame (MountProgressCb startTime) w in
    set_progressRef (Some f) w
  else w.

(** [updateProgress] of [handleMouseLeave]. *)
Definition updateProgress_resume (startTime : Z) (initialProgress remainingTime : Q)
    (w : World) : World :=
  let elapsed := (clock w - startTime)%Z in
  let newProgress := resume_progress_at initialProgress remainingTime elapsed in
  let w := setProgress newProgress w in
  if Qltb 0 newProgress && Qltb (inject_Z elapsed) remainingTime then
    let (f, w) :=
      requestAnimationFrame (ResumeProgressCb startTime initialProgress remainingTime) w in
    set_progressRef (Some f) w
  else w.

(** The body of the [useEffect], run for a render whose [isLeaving] is the
    current state. *)
Definition effect_body (w : World) : World :=
  let (_, w) := requestAnimationFrame EntranceCb w in
  if Qltb 0 (safeDuration P) then
    let (t, w) := setTimeout (ExpiryCb (isLeaving w)) (safeDuration P) w in
    let w := set_timerRef (Some t) w in
    if showProgress P then
      let startTime := clock w in
      let (f, w) := requestAnimationFrame (MountProgressCb startTime) w in
      set_progressRef (Some f) w
    else w
  else w.

(** The function the effect returns. *)
Definition effect_cleanup (w : World) : World :=
  let w := match timerRef w with Some h => clearTimeout h w | None => w end in
  match progressRef w with Some h => cancelAnimationFrame h w | None => w end.

Definition handleMouseEnter (w : World) : World :=
  let w := match timerRef w with Some h => clearTimeout h w | None => w end in
  match progressRef w with Some h => cancelAnimationFrame h w | None => w end.

(** [remainingTime] is the exact product here; the source computes it
    in doubles, which agrees whenever [progress] is still 100. *)
Definition handleMouseLeave (w : World) : World :=
  if Qltb 0 (safeDuration P) && Qltb 0 (progress w) then
    let remainingTime := (progress w / 100) * safeDuration P in
    let (t, w) := setTimeout (ExpiryCb (isLeaving w)) remainingTime w in
    let w := set_timerRef (Some t) w in
    if showProgress P then
      let startTime := clock w in
      let initialProgress := progress w in
      let (f, w) :=
        requestAnimationFrame (ResumeProgressCb startTime initialProgress remainingTime) w in
      set_progressRef (Some f) w
    else w
  else w.

Definition handleKeyDown (key : string) (w : World) : World :=
  if String.eqb key "Escape" then handleClose (isLeaving w) w else w.

Definition run_timer_cb (cb : timer_cb) (w : World) : completion unit * World :=
  match cb with
  | ExpiryCb c => (Normal tt, handleClose c w)
  | DismissCb => dismiss_callback w
  end.

Definition run_frame_cb (cb : frame_cb) (w : World) : World :=
  match cb with
  | EntranceCb => setIsVisible true w
  | MountProgressCb st => updateProgress_mount st w
  | ResumeProgressCb st p0 rem => updateProgress_resume st p0 rem w
  end.

(** React's commit after an event. With fixed props the only effect
    dependency that can change is [handleClose], and it changes exactly
    when [isLeaving] does; then the old effect is cleaned up and the effect
    runs again. *)
Definition commit (isLeaving_rendered : bool) (w : World) : World :=
  if mounted w && negb (Bool.eqb isLeaving_rendered (isLeaving w))
  then effect_body (effect_cleanup w)
  else w.

(** One turn of the event loop. DOM events reach the handlers only while
    the element is mounted; no handler is bound for focus events. *)
Definition step (w : World) (e : event) : World :=
  match e with
  | Tick dt => advance dt w
  | TimerFires h =>
      match timers w !! h with
      | Some t =>
          if due t (clock w) then
            let (c, w') := run_timer_cb (t_cb t) (clearTimeout h w) in
            commit (isLeaving w) (report c w')
          else w
      | None => w
      end
  | FrameFires h =>
      match frames w !! h with
      | Some cb => commit (isLeaving w) (run_frame_cb cb (cancelAnimationFrame h w))
      | None => w
      end
  | MouseEnter => if mounted w then handleMouseEnter w else w
  | MouseLeave => if mounted w then handleMouseLeave w else w
  | CloseClick =>
      if mounted w then commit (isLeaving w) (handleClose (isLeaving w) w) else w
  | KeyDown key =>
      if mounted w then commit (isLeaving w) (handleKeyDown key w) else w
  | Focus | Blur => w
  | Unmount => if mounted w then set_mounted false (effect_cleanup w) else w
  end.

Definition run (w : World) (es : list event) : World := fold_left step es w.

(** First render and first run of the effect, at time [now]. *)
Definition mount (now : Z) : World :=
  effect_body
    {| clock := now; mounted := true; isVisible := false; isLeaving := false;
       progress := 100; timerRef := None; progressRef := None;
       timers := ∅; next_timer := 1%positive;
       frames := ∅; next_frame := 1%positive;
       log := []; uncaught := [] |}.

(** *** Render output *)

Record Rendered : Type := {
  r_container : string;          (** [variantStyles.container] *)
  r_animation : string;          (** [getAnimationClass()] *)
  r_icon : icon;
  r_icon_class : string;
  r_icon_bg : string;
  r_aria_live : string;
  r_opacity : Z;
  r_transform : string;
  r_animationDelay_ms : Z;
  r_message : jsval;
  r_progress_bar : option (string * Q)  (** tint class and width in percent *)
}.

Definition progress_tint (v : string) : string :=
  if String.eqb v "success" then "bg-green-500"
  else if String.eqb v "error" then "bg-red-500"
  else if String.eqb v "warning" then "bg-yellow-500"
  else if String.eqb v "info" then "bg-blue-500"
  else "".

Definition render (w : World) : completion Rendered :=
  match getAnimationClass (isLeaving w) (isVisible w) (position P) with
  | Throw e => Throw e
  | Normal anim =>
      let shown := isVisible w && negb (isLeaving w) in
      Normal
        {| r_container := container (variantStyles P);
           r_animation := anim;
           r_icon := Icon P;
           r_icon_class := icon_class (variantStyles P);
           r_icon_bg := iconBg (variantStyles P);
           r_aria_live := if String.eqb (safeVariant P) "error" then "assertive" else "polite";
           r_opacity := if shown then 1%Z else 0%Z;
           r_transform := if shown then "translateX(0)" else "translateX(100%)";
           r_animationDelay_ms := (stackIndex P * 50)%Z;
           r_message := safeMessage P;
           r_progress_bar :=
             if showProgress P && Qltb 0 (safeDuration P)
             then Some (progress_tint (safeVariant P), progress w)
             else None |}
  end.

(** *** Environment assumptions on traces *)

(** The pointer is either over the element or not: a leave is delivered
    only after an enter with no leave in between. *)
Fixpoint pointer_ok (hovering : bool) (es : list event) : bool :=
  match es with
  | [] => true
  | MouseEnter :: es' => pointer_ok true es'
  | MouseLeave :: es' => hovering && pointer_ok false es'
  | _ :: es' => pointer_ok hovering es'
  end.

Definition hover_after (hovering : bool) (e : event) : bool :=
  match e with
  | MouseEnter => true
  | MouseLeave => false
  | _ => hovering
  end.

(** The user's close requests. *)
Definition is_manual_close (e : event) : bool :=
  match e with
  | CloseClick => true
  | KeyDown key => String.eqb key "Escape"
  | _ => false
  end.

(** Number of times [onClose] has been invoked. *)
Fixpoint close_count (l : list log_entry) : nat :=
  match l with
  | [] => 0%nat
  | OnCloseCalled _ _ :: l' => S (close_count l')
  | ErrorLogged _ :: l' => close_count l'
  end.

End Toast.

(** ** The title and its ARIA reference *)

(** [aria-describedby={title ? `toast-title-${id}` : undefined}] *)
Definition ariaDescribedby (p : Props) : option string :=
  if truthy (title p) then Some ("toast-title-" ++ id p) else None.

(** What a JSX child expression leaves in the tree. *)
Inductive child : Type :=
| Element (elem_id : string) (content : jsval)  (** a [div] with an [id] *)
| Text (s : string)                             (** a bare text node *)
| Nothing.

(** [{title && (<div id={`toast-title-${id}`} ...>{title}</div>)}]: when
    [title] is falsy the expression is [title] itself, and React renders
    [undefined], [null], [false] and the empty string as nothing but a
    number as text. *)
Definition title_child (p : Props) : child :=
  if truthy (title p)
  then Element ("toast-title-" ++ id p) (title p)
  else match title p with
       | JNum _ => Text "0"
       | JNaN => Text "NaN"
       | _ => Nothing
       end.

(** * Notions used in the statements *)

(** ** Animation tokens as the specification words them *)

(** Right, else left, else top, else bottom, else the fallback. *)
Definition slide_in_token (pos : string) : string :=
  if includes pos "right" then "animate-slide-in-from-right"
  else if includes pos "left" then "animate-slide-in-from-left"
  else if includes pos "top" then "animate-slide-in-from-top"
  else if includes pos "bottom" then "animate-slide-in-from-bottom"
  else "animate-slide-in-from-right".

Definition slide_out_token (pos : string) : string :=
  if includes pos "right" then "animate-slide-out-to-right"
  else if includes pos "left" then "animate-slide-out-to-left"
  else if includes pos "top" then "animate-slide-out-to-top"
  else if includes pos "bottom" then "animate-slide-out-to-bottom"
  else "animate-slide-out-to-right".

Definition spec_animation (ph : phase) (pos : string) : string :=
  match ph with
  | Leaving => slide_out_token pos
  | Visible => slide_in_token pos
  | Entering => "opacity-0 translate-x-full"
  end.

(** ** Variants *)

Definition with_variant (v : jsval) (p : Props) : Props :=
  {| id := id p; title := title p; message := message p; variant := v;
     duration := duration p; onClose := onClose p;
     showProgress := showProgress p; position := position p;
     stackIndex := stackIndex p |}.

Definition with_duration (d : jsval) (p : Props) : Props :=
  {| id := id p; title := title p; message := message p; variant := variant p;
     duration := d; onClose := onClose p;
     showProgress := showProgress p; position := position p;
     stackIndex := stackIndex p |}.

(** The values the closed set does not contain; [undefined] (a missing
    prop) is taken care of by the default. *)
Definition invalid_variant (v : jsval) : Prop :=
  forall s, v = JStr s -> ~ In s validVariants.

(** ** Traces *)

(** The pointer assumption, one event at a time. *)
Definition leave_allowed (hovering : bool) (e : event) : bool :=
  match e with
  | MouseLeave => hovering
  | _ => true
  end.

Fixpoint hover_after_all (hovering : bool) (es : list event) : bool :=
  match es with
  | [] => hovering
  | e :: es' => hover_after_all (hover_after hovering e) es'
  end.

(** Events that neither resume nor close: time passing, callbacks, focus
    changes, keys other than Escape, a repeated pointer-enter, teardown. *)
Definition is_quiet (e : event) : bool :=
  match e with
  | MouseLeave => false
  | _ => negb (is_manual_close e)
  end.

(** ** Pending callbacks *)

Definition is_progress_cb (cb : frame_cb) : bool :=
  match cb with
  | EntranceCb => false
  | _ => true
  end.

(** A dismissal is scheduled. *)
Definition dismiss_pending (tms : gmap positive timer_entry) : Prop :=
  exists k t, tms !! k = Some t /\ t_cb t = DismissCb.

(** The value a pending progress callback would store if it ran at time
    [now]. *)
Definition frame_value (P : Props) (cb : frame_cb) (now : Z) : Q :=
  match cb with
  | EntranceCb => 0
  | MountProgressCb st => mount_progress_at P (now - st)
  | ResumeProgressCb st p0 rem => resume_progress_at p0 rem (now - st)
  end.

Definition frame_decreasing (P : Props) (cb : frame_cb) : Prop :=
  forall n1 n2 : Z,
    (n1 <= n2)%Z -> (frame_value P cb n2 <= frame_value P cb n1)%Q.

(** ** Invariants of the lifecycle *)

(** The close-path invariant:
    - a pending expiry callback that closes over [isLeaving = false] exists
      only while the toast is mounted, not leaving and not hovered, and
      then it is the one [timerRef] holds;
    - a pending expiry callback that closes over [isLeaving = true] exists
      only while leaving;
    - a pending dismissal exists only while leaving, before any [onClose]
      call, and it is the only one;
    - [onClose] has been called at most once, and not at all before
      leaving. *)
Record close_inv (hovering : bool) (w : World) : Prop := {
  ci_stale : forall k t, timers w !! k = Some t -> t_cb t = ExpiryCb false ->
      mounted w = true /\ isLeaving w = false /\ hovering = false
      /\ timerRef w = Some k;
  ci_noop : forall k t, timers w !! k = Some t -> t_cb t = ExpiryCb true ->
      isLeaving w = true;
  ci_dismiss : forall k t, timers w !! k = Some t -> t_cb t = DismissCb ->
      close_count (log w) = 0%nat /\ isLeaving w = true
      /\ (forall k' t', timers w !! k' = Some t' -> t_cb t' = DismissCb -> k' = k);
  ci_count : (close_count (log w) <= 1)%nat;
  ci_visible : isLeaving w = false -> close_count (log w) = 0%nat
}.

(** The scheduling invariant: handles are fresh, [timerRef] never holds the
    handle of a dismissal, and once the toast is leaving its dismissal is
    either pending or done. *)
Record sched_inv (P : Props) (w : World) : Prop := {
  si_fresh : forall k t, timers w !! k = Some t -> (k < next_timer w)%positive;
  si_ref : match timerRef w with
           | Some k => (k < next_timer w)%positive
                       /\ (forall t, timers w !! k = Some t -> t_cb t <> DismissCb)
           | None => True
           end;
  si_once : isLeaving w = true -> onClose P <> None ->
            (1 <= close_count (log w))%nat \/ dismiss_pending (timers w)
}.

(** While the toast is not leaving, every pending timeout and every pending
    progress frame is the one its ref holds, and there is none while the
    pointer is over the toast or after teardown. *)
Record tracked_inv (hovering : bool) (w : World) : Prop := {
  ti_timers : isLeaving w = false ->
      forall k t, timers w !! k = Some t ->
        mounted w = true /\ hovering = false /\ timerRef w = Some k;
  ti_frames : isLeaving w = false ->
      forall k cb, frames w !! k = Some cb -> is_progress_cb cb = true ->
        mounted w = true /\ hovering = false /\ progressRef w = Some k
}.

(** While the toast is not leaving, whatever a pending progress callback
    will store is at most the current progress. *)
Record decay_inv (P : Props) (w : World) : Prop := {
  dc_nonneg : (0 <= progress w)%Q;
  dc_frames : isLeaving w = false ->
      forall k cb, frames w !! k = Some cb -> is_progress_cb cb = true ->
        frame_decreasing P cb
        /\ (forall now', (clock w <= now')%Z ->
              (frame_value P cb now' <= progress w)%Q)
}.

(** A paused toast: nothing that could move the bar or expire the toast is
    pending. *)
Record frozen (p : Q) (w : World) : Prop := {
  fz_timers : timers w = ∅;
  fz_frames : forall k cb, frames w !! k = Some cb -> cb = EntranceCb;
  fz_progress : progress w = p;
  fz_leaving : isLeaving w = false
}.

(** A torn-down instance with nothing of its own left to run, in the state
    [w0] left it in. *)
Record torn_down (w0 w : World) : Prop := {
  td_mounted : mounted w = false;
  td_timers : timers w = ∅;
  td_frames : forall k cb, frames w !! k = Some cb -> cb = EntranceCb;
  td_log : log w = log w0;
  td_uncaught : uncaught w = uncaught w0;
  td_isVisible : isVisible w = isVisible w0;
  td_isLeaving : isLeaving w = isLeaving w0;
  td_progress : progress w = progress w0
}.

(** A toast without duration: only dismissals and entrance frames are ever
    pending. *)
Record persistent (w : World) : Prop := {
  ps_timers : forall k t, timers w !! k = Some t -> t_cb t = DismissCb;
  ps_frames : forall k cb, frames w !! k = Some cb -> cb = EntranceCb;
  ps_timerRef : timerRef w = None;
  ps_progressRef : progressRef w = None;
  ps_progress : progress w = 100%Q
}.

(** A toast without progress bar. *)
Record bar_hidden (w : World) : Prop := {
  bh_frames : forall k cb, frames w !! k = Some cb -> cb = EntranceCb;
  bh_progress : progress w = 100%Q
}.

(** Animation-frame handles are fresh, and [progressRef] never holds the
    handle of an entrance frame. *)
Record frames_inv (w : World) : Prop := {
  fi_fresh : forall k cb, frames w !! k = Some cb -> (k < next_frame w)%positive;
  fi_ref : forall k, progressRef w = Some k ->
      (k < next_frame w)%positive
      /\ (forall cb, frames w !! k = Some cb -> cb <> EntranceCb)
}.

(** What keeps the value of a pending progress callback between 0 and its
    starting value: its loop started in the past and runs over a positive
    time. *)
Definition frame_bounded (P : Props) (now : Z) (cb : frame_cb) : Prop :=
  match cb with
  | EntranceCb => True
  | MountProgressCb st => (st <= now)%Z /\ (0 < safeDuration P)%Q
  | ResumeProgressCb st p0 rem =>
      (st <= now)%Z /\ (0 <= p0)%Q /\ (p0 <= 100)%Q /\ (0 < rem)%Q
  end.

Record bounded_inv (P : Props) (w : World) : Prop := {
  bd_low : (0 <= progress w)%Q;
  bd_high : (progress w <= 100)%Q;
  bd_frames : forall k cb, frames w !! k = Some cb ->
      frame_bounded P (clock w) cb
}.

(** What keeps a pending progress callback from under-reporting the time
    left, for a toast mounted at [t0]. *)
Definition frame_on_time (P : Props) (t0 : Z) (cb : frame_cb) : Prop :=
  match cb with
  | EntranceCb => True
  | MountProgressCb st => (t0 <= st)%Z /\ (0 < safeDuration P)%Q
  | ResumeProgressCb st p0 rem =>
      (0 < rem)%Q /\ (rem == p0 / 100 * safeDuration P)%Q
      /\ (inject_Z t0 + safeDuration P <= inject_Z st + rem)%Q
  end.

(** The deadline invariant of a toast mounted at [t0], as long as nobody
    asks for a close, in the exact arithmetic of the model: no expiry
    callback that can still close the toast is due before
    [t0 + safeDuration], the progress value never shows less than the time
    left until then, and a dismissal is scheduled or done only after that
    time. *)
Record deadline_inv (P : Props) (t0 : Z) (w : World) : Prop := {
  dl_clock : (t0 <= clock w)%Z;
  dl_expiry : forall k t, timers w !! k = Some t -> t_cb t = ExpiryCb false ->
      (inject_Z t0 + safeDuration P <= inject_Z (t_set_at t) + t_delay t)%Q;
  dl_dismiss : forall k t, timers w !! k = Some t -> t_cb t = DismissCb ->
      (t0 + Qfloor (safeDuration P) <= t_set_at t)%Z
      /\ (300 <= Qfloor (t_delay t))%Z;
  dl_frames : forall k cb, frames w !! k = Some cb -> frame_on_time P t0 cb;
  dl_progress :
      (inject_Z t0 + safeDuration P
       <= inject_Z (clock w) + progress w / 100 * safeDuration P)%Q;
  dl_leaving : isLeaving w = true ->
      (t0 + Qfloor (safeDuration P) <= clock w)%Z;
  dl_closed : (1 <= close_count (log w))%nat ->
      (t0 + Qfloor (safeDuration P) + 300 <= clock w)%Z
}.

Definition is_pointer_leave (e : event) : bool :=
  match e with MouseLeave => true | _ => false end.

(** Every expiry callback that can still close the toast runs over the
    full duration. *)
Definition full_delay (P : Props) (w : World) : Prop :=
  forall k t, timers w !! k = Some t -> t_cb t = ExpiryCb false ->
    (t_delay t == safeDuration P)%Q.

(** From the time [c0] on: every scheduled dismissal was scheduled at
    [c0] or later, and [onClose] has not run before [c0 + 300]. *)
Record window_inv (c0 : Z) (w : World) : Prop := {
  wi_clock : (c0 <= clock w)%Z;
  wi_dismiss : forall k t, timers w !! k = Some t -> t_cb t = DismissCb ->
      (c0 <= t_set_at t)%Z /\ (300 <= Qfloor (t_delay t))%Z;
  wi_closed : (1 <= close_count (log w))%nat -> (c0 + 300 <= clock w)%Z
}.

(** While a toast is mounted and not leaving, nothing of the close path
    has happened. *)
Record showing_inv (w : World) : Prop := {
  sh_dismiss : mounted w = true -> isLeaving w = false ->
      forall k t, timers w !! k = Some t -> t_cb t <> DismissCb;
  sh_closed : mounted w = true -> isLeaving w = false ->
      close_count (log w) = 0%nat
}.

(** The expiry timeout and the progress loop were started together. *)
Definition in_step (P : Props) (t : timer_entry) (cb : frame_cb) : Prop :=
  match cb with
  | EntranceCb => True
  | MountProgressCb st =>
      t_set_at t = st /\ t_delay t = safeDuration P /\ (0 < safeDuration P)%Q
  | ResumeProgressCb st p0 rem =>
      t_set_at t = st /\ t_delay t = rem /\ (0 < p0)%Q /\ (0 < rem)%Q
      /\ (rem == p0 / 100 * safeDuration P)%Q
  end.

Definition sync_inv (P : Props) (w : World) : Prop :=
  isLeaving w = false ->
  forall k t f cb, timers w !! k = Some t -> frames w !! f = Some cb ->
    in_step P t cb.

(** What the instance has told the outside world so far: every [onClose]
    call got the toast's [id], and every logged error is one [onClose]
    threw, in development mode. *)
Definition log_entry_ok (P : Props) (development : bool) (l : log_entry) : Prop :=
  match l with
  | OnCloseCalled i _ => i = id P /\ onClose P <> None
  | ErrorLogged e =>
      development = true
      /\ exists f, onClose P = Some f /\ f (id P) = Throw e
  end.

Record log_inv (P : Props) (development : bool) (w : World) : Prop := {
  lg_uncaught : uncaught w = [];
  lg_entries : Forall (log_entry_ok P development) (log w)
}.

(** ** Sample toasts and traces *)

Definition bogus_toast : Props :=
  {| id := "t"; title := JUndefined; message := JStr "Saved";
     variant := JStr "bogus"; duration := JNum 5000;
     onClose := None; showProgress := true;
     position := JStr "top-right"; stackIndex := 0 |}.

Definition saved_toast : Props :=
  {| id := "t1"; title := JUndefined; message := JStr "Saved";
     variant := JStr "success"; duration := JNum 5000;
     onClose := Some (fun _ => Normal tt); showProgress := true;
     position := JStr "top-right"; stackIndex := 0 |}.

Definition throwing_toast : Props :=
  {| id := "t2"; title := JUndefined; message := JStr "Saved";
     variant := JStr "info"; duration := JNum 5000;
     onClose := Some (fun _ => Throw "boom"); showProgress := true;
     position := JStr "top-right"; stackIndex := 0 |}.

Definition sticky_toast : Props :=
  {| id := "t3"; title := JUndefined; message := JStr "Pinned";
     variant := JStr "warning"; duration := JNum 0;
     onClose := Some (fun _ => Normal tt); showProgress := true;
     position := JStr "bottom-left"; stackIndex := 0 |}.

Definition plain_toast : Props :=
  {| id := "t4"; title := JStr "Copied"; message := JStr "Link copied";
     variant := JStr "info"; duration := JNum 3000;
     onClose := Some (fun _ => Normal tt); showProgress := false;
     position := JStr "bottom-center"; stackIndex := 2 |}.

(** Expiry, a click and an Escape press racing; hover in the leaving
    window; teardown; late callbacks. *)
Definition racing_closes : list event :=
  [FrameFires 1; Tick 5000; TimerFires 1; CloseClick; KeyDown "Escape";
   MouseEnter; MouseLeave; Tick 300; TimerFires 2; CloseClick; Unmount;
   Tick 5000; TimerFires 3; TimerFires 4].


(** * Proof tools *)

(** Marker for a fact already drawn from a hypothesis. *)
Inductive used {A B : Type} (a : A) (b : B) : Prop := mk_used.

(** Reduction of record projections and of the boolean connectives only. *)
Ltac proj_simpl :=
  cbn [clock mounted isVisible isLeaving progress timerRef progressRef
       timers next_timer frames next_frame log uncaught
       t_cb t_delay t_set_at fst snd andb orb negb Bool.eqb
       close_count hover_after leave_allowed] in *.

Ltac unfold_step := unfold step.

(** Evaluation of one step on a world given by its fields, in stages:
    the event dispatch, the handler or callback, the commit, the effect
    cleanup, the effect body. Between stages the tests met on the way are
    decided by case analysis, so that every stage starts from a world in
    constructor form. *)
Ltac ev_dispatch :=
  cbv [step
       clock mounted isVisible isLeaving progress timerRef progressRef
       timers next_timer frames next_frame log uncaught
       t_cb t_delay t_set_at fst snd andb orb negb].

Ltac ev_handler :=
  cbv [run_timer_cb run_frame_cb handleKeyDown handleClose dismiss_callback
       call_onClose handleMouseEnter handleMouseLeave updateProgress_mount
       updateProgress_resume report setTimeout clearTimeout
       requestAnimationFrame cancelAnimationFrame setIsVisible setIsLeaving
       setProgress set_timerRef set_progressRef advance add_log
       clock mounted isVisible isLeaving progress timerRef progressRef
       timers next_timer frames next_frame log uncaught
       t_cb t_delay t_set_at fst snd andb orb negb].

Ltac ev_commit :=
  cbv [commit Bool.eqb
       clock mounted isVisible isLeaving progress timerRef progressRef
       timers next_timer frames next_frame log uncaught
       t_cb t_delay t_set_at fst snd andb orb negb].

Ltac ev_cleanup :=
  cbv [effect_cleanup clearTimeout cancelAnimationFrame
       clock mounted isVisible isLeaving progress timerRef progressRef
       timers next_timer frames next_frame log uncaught
       t_cb t_delay t_set_at fst snd andb orb negb].

Ltac ev_effect :=
  cbv [effect_body setTimeout requestAnimationFrame set_timerRef
       set_progressRef set_mounted
       clock mounted isVisible isLeaving progress timerRef progressRef
       timers next_timer frames next_frame log uncaught
       t_cb t_delay t_set_at fst snd andb orb negb].

(** Case analysis on the tests in the goal whose outcome is not fixed by
    the world: variables, map lookups, comparisons, props. *)
Ltac split_tests :=
  repeat match goal with
    | |- context [match ?x with _ => _ end] =>
        first
          [ is_var x; destruct x
          | lazymatch x with
            | _ !! _ => idtac
            | due _ _ => idtac
            | Qltb _ _ => idtac
            | (Qltb _ _ && Qltb _ _)%bool => idtac
            | showProgress _ => idtac
            | onClose _ => idtac
            | String.eqb _ _ => idtac
            | _ (id _) => idtac
            end;
            destruct x eqn:? ]
    end.

Ltac step_cases :=
  ev_dispatch; split_tests;
  ev_handler; split_tests;
  ev_commit; split_tests;
  ev_cleanup; split_tests;
  ev_effect; split_tests.

(** Lookups in a map built by inserts and deletes, reduced to lookups in
    the map it was built from. *)
Ltac lookup_cases :=
  repeat match goal with
    | H : <[_ := _]> _ !! _ = Some _ |- _ =>
        apply lookup_insert_Some in H as [[? ?]|[? H]]; simplify_eq
    | H : delete _ _ !! _ = Some _ |- _ =>
        apply lookup_delete_Some in H as [? H]
    end.

(** Forward use of the universally quantified facts of an invariant on the
    lookups at hand. *)
Ltac use_lookup_facts :=
  repeat match goal with
    | I : (forall k t, ?m !! k = Some t -> _), H : ?m !! ?k = Some ?t |- _ =>
        lazymatch goal with
        | _ : used I H |- _ => fail
        | _ => idtac
        end;
        pose proof (mk_used I H);
        let X := fresh "F" in
        pose proof (I k t H) as X; proj_simpl;
        first [ specialize (X eq_refl); destruct_and? X
              | match goal with
                | Ht : _ = _ |- _ => specialize (X Ht); destruct_and? X
                end
              | lazymatch type of X with
                | _ -> _ => clear X
                | _ => destruct_and? X
                end ]
    end.

(** The routine part of an invariant proof. *)
Ltac inv_auto :=
  constructor; proj_simpl; split_tests; intros; lookup_cases; proj_simpl;
  use_lookup_facts; simplify_eq; try done; try lia;
  repeat split; try done; try lia; intros; lookup_cases; proj_simpl;
  use_lookup_facts; simplify_eq; try done; try lia; eauto.

(** Scheduled dismissals under inserts and deletes. *)
Lemma dismiss_pending_insert_new (tms : gmap positive timer_entry)
    (k : positive) (t : timer_entry) :
  t_cb t = DismissCb -> dismiss_pending (<[k := t]> tms).
Proof. intros Ht. exists k, t. split; [apply lookup_insert_eq | exact Ht]. Qed.

Lemma dismiss_pending_insert_other (tms : gmap positive timer_entry)
    (k : positive) (t : timer_entry) :
  tms !! k = None -> dismiss_pending tms -> dismiss_pending (<[k := t]> tms).
Proof.
  intros Hk (k' & t' & Hl & Ht). exists k', t'. split; [|exact Ht].
  rewrite lookup_insert_ne; [exact Hl | congruence].
Qed.

Lemma dismiss_pending_delete_other (tms : gmap positive timer_entry)
    (k : positive) :
  (forall t, tms !! k = Some t -> t_cb t <> DismissCb) ->
  dismiss_pending tms -> dismiss_pending (delete k tms).
Proof.
  intros Hk (k' & t' & Hl & Ht). exists k', t'. split; [|exact Ht].
  rewrite lookup_delete_ne; [exact Hl |].
  intros ->. exact (Hk t' Hl Ht).
Qed.

Lemma fresh_lookup_None (tms : gmap positive timer_entry) (nt k : positive) :
  (forall k t, tms !! k = Some t -> (k < nt)%positive) ->
  (nt <= k)%positive -> tms !! k = None.
Proof.
  intros Hf Hk. destruct (tms !! k) as [t|] eqn:Hl; [|reflexivity].
  specialize (Hf k t Hl). lia.
Qed.

Ltac solve_fresh Hfresh :=
  repeat first
    [ apply (fresh_lookup_None _ _ _ Hfresh); lia
    | rewrite lookup_insert_ne by lia
    | rewrite lookup_delete_ne by lia
    | apply lookup_delete_None; right ].

Ltac solve_pending Hfresh :=
  repeat first
    [ assumption
    | apply dismiss_pending_insert_new; reflexivity
    | apply dismiss_pending_insert_other; [solve_fresh Hfresh | ]
    | apply dismiss_pending_delete_other;
      [ intros ? ?; lookup_cases; simplify_eq; proj_simpl; try done; try lia; eauto | ] ].

(** * Properties *)

(** ** Basic facts about the primitives *)

Lemma Qltb_lt (a b : Q) : Qltb a b = true <-> (a < b)%Q.
Proof.
  unfold Qltb. rewrite negb_true_iff, <- not_true_iff_false, Qle_bool_iff.
  split; [apply Qnot_le_lt | apply Qlt_not_le].
Qed.

Lemma Qltb_ge (a b : Q) : Qltb a b = false <-> (b <= a)%Q.
Proof.
  unfold Qltb. rewrite negb_false_iff. apply Qle_bool_iff.
Qed.

Lemma string_cons_app (c : Ascii.ascii) (a b : string) :
  (String c a ++ b)%string = String c (a ++ b)%string.
Proof. reflexivity. Qed.

Lemma string_nil_app (b : string) : ("" ++ b)%string = b.
Proof. reflexivity. Qed.

Lemma prefix_app (n h : string) :
  String.prefix n h = true <-> exists b, h = (n ++ b)%string.
Proof.
  revert h. induction n as [|c n IH]; intros h.
  - split; [intros _; exists h; reflexivity | intros _; destruct h; reflexivity].
  - destruct h as [|d h]; simpl.
    + split; [discriminate | intros [b Hb]; rewrite string_cons_app in Hb; discriminate].
    + destruct (Ascii.ascii_dec c d) as [->|Hne].
      * rewrite IH. split; intros [b Hb]; exists b;
          rewrite string_cons_app in *; congruence.
      * split; [discriminate |].
        intros [b Hb]. rewrite string_cons_app in Hb. congruence.
Qed.

Lemma includes_unfold (hay needle : string) :
  includes hay needle =
  if String.prefix needle hay then true
  else match hay with
       | EmptyString => false
       | String _ rest => includes rest needle
       end.
Proof. destruct hay; reflexivity. Qed.

(** [includes] is substring containment. *)
Lemma includes_spec (hay needle : string) :
  includes hay needle = true <->
  exists a b, hay = (a ++ needle ++ b)%string.
Proof.
  induction hay as [|c hay IH]; rewrite includes_unfold.
  - destruct (String.prefix needle "") eqn:Hp.
    + apply prefix_app in Hp as [b Hb].
      split; [intros _; exists "", b; exact Hb | reflexivity].
    + split; [discriminate |].
      intros (a & b & Hab). destruct a.
      * rewrite string_nil_app in Hab.
        assert (String.prefix needle "" = true) by (apply prefix_app; eauto).
        congruence.
      * rewrite string_cons_app in Hab. discriminate.
  - destruct (String.prefix needle (String c hay)) eqn:Hp.
    + apply prefix_app in Hp as [b Hb].
      split; [intros _; exists "", b; exact Hb | reflexivity].
    + rewrite IH. split.
      * intros (a & b & ->). exists (String c a), b. reflexivity.
      * intros (a & b & Hab). destruct a as [|c' a].
        -- rewrite string_nil_app in Hab.
           assert (String.prefix needle (String c hay) = true)
             by (apply prefix_app; eauto).
           congruence.
        -- rewrite string_cons_app in Hab. exists a, b. congruence.
Qed.

(** ** Animation class (C7) *)

(** C7. The class [getAnimationClass] returns is a function of the phase
    and the position string alone, and it is the one the specification
    gives: in the Visible phase right, else left, else top, else bottom,
    else the right fallback, with slide-in tokens; in the Leaving phase the
    same choice with slide-out tokens. *)
Theorem C7_animation_class_by_phase_and_position :
  forall (l v : bool) (pos : string),
    getAnimationClass l v (JStr pos) = Normal (spec_animation (phase_of l v) pos)
    /\ getAnimationClass false true (JStr pos) = Normal (slide_in_token pos)
    /\ getAnimationClass true v (JStr pos) = Normal (slide_out_token pos).
Proof.
  assert (H : forall l v pos,
    getAnimationClass l v (JStr pos) = Normal (spec_animation (phase_of l v) pos)).
  { intros l v pos. unfold getAnimationClass, spec_animation, phase_of,
      slide_in_token, slide_out_token. cbn [with_default].
    destruct l, v, (includes pos "right"), (includes pos "left"),
      (includes pos "top"), (includes pos "bottom"); reflexivity. }
  intros l v pos. split; [apply H|]. split.
  - apply (H false true pos).
  - apply (H true v pos).
Qed.

Example animation_top_right_visible :
  getAnimationClass false true (JStr "top-right") = Normal "animate-slide-in-from-right".
Proof. reflexivity. Qed.

Example animation_bottom_left_leaving :
  getAnimationClass true true (JStr "bottom-left") = Normal "animate-slide-out-to-left".
Proof. reflexivity. Qed.

Example animation_top_center_visible :
  getAnimationClass false true (JStr "top-center") = Normal "animate-slide-in-from-top".
Proof. reflexivity. Qed.

Example animation_bottom_center_leaving :
  getAnimationClass true false (JStr "bottom-center") = Normal "animate-slide-out-to-bottom".
Proof. reflexivity. Qed.

Example animation_default_position :
  getAnimationClass false true JUndefined = Normal "animate-slide-in-from-right".
Proof. reflexivity. Qed.

Example animation_unknown_position :
  getAnimationClass true true (JStr "middle") = Normal "animate-slide-out-to-right".
Proof. reflexivity. Qed.

(** ** Variant fallback (C8) *)

Lemma array_includes_In (xs : list string) (s : string) :
  array_includes xs (JStr s) = true <-> In s xs.
Proof.
  simpl. rewrite existsb_exists. split.
  - intros (x & Hin & Heq). apply String.eqb_eq in Heq. congruence.
  - intros Hin. exists s. split; [exact Hin | apply String.eqb_refl].
Qed.

Lemma safeVariant_invalid (p : Props) :
  invalid_variant (variant p) -> safeVariant p = "info".
Proof.
  intros Hinv. unfold safeVariant.
  destruct (variant p) as [| | b | q | | s] eqn:Hv; try reflexivity.
  cbn [with_default].
  destruct (array_includes validVariants (JStr s)) eqn:Hex; [|reflexivity].
  exfalso. apply (Hinv s eq_refl).
  apply array_includes_In. exact Hex.
Qed.

Lemma getAnimationClass_string (l v : bool) (pos : jsval) (s : string) :
  with_default (JStr "top-right") pos = JStr s ->
  getAnimationClass l v pos = Normal (spec_animation (phase_of l v) s).
Proof.
  intros Hpos. unfold getAnimationClass. rewrite Hpos.
  unfold spec_animation, phase_of, slide_in_token, slide_out_token.
  destruct l, v, (includes s "right"), (includes s "left"),
    (includes s "top"), (includes s "bottom"); reflexivity.
Qed.

(** C8. A variant outside {success, error, warning, info}, or no variant at
    all, is coerced to info: the icon and the colour set are those of info,
    and the render output is the one of the same toast with variant info;
    with a string (or default) position the render returns normally. *)
Theorem C8_invalid_variant_renders_as_info :
  forall (p : Props) (w : World),
    invalid_variant (variant p) ->
    safeVariant p = "info"
    /\ Icon p = Info
    /\ variantStyles p = style_info
    /\ render p w = render (with_variant (JStr "info") p) w
    /\ (forall s, with_default (JStr "top-right") (position p) = JStr s ->
        exists r, render p w = Normal r
                  /\ r_icon r = Info
                  /\ r_container r = container style_info
                  /\ r_icon_class r = icon_class style_info
                  /\ r_icon_bg r = iconBg style_info
                  /\ r_aria_live r = "polite"
                  /\ (forall bar, r_progress_bar r = Some bar -> fst bar = "bg-blue-500")).
Proof.
  intros p w Hinv.
  pose proof (safeVariant_invalid p Hinv) as Hsv.
  assert (HI : Icon p = Info) by (unfold Icon; rewrite Hsv; reflexivity).
  assert (HS : variantStyles p = style_info)
    by (unfold variantStyles; rewrite Hsv; reflexivity).
  split; [exact Hsv|]. split; [exact HI|]. split; [exact HS|]. split.
  - unfold render, Icon, variantStyles. rewrite Hsv. reflexivity.
  - intros s Hpos. unfold render.
    rewrite (getAnimationClass_string _ _ _ s Hpos), HI, HS, Hsv.
    eexists. split; [reflexivity|]. cbn [r_icon r_container r_icon_class
      r_icon_bg r_aria_live r_progress_bar].
    repeat split.
    intros bar. destruct (showProgress p && Qltb 0 (safeDuration p));
      [intros [= <-]; reflexivity | discriminate].
Qed.

Lemma C8_witness_bogus_variant :
  invalid_variant (variant bogus_toast)
  /\ safeVariant bogus_toast = "info"
  /\ Icon bogus_toast = Info.
Proof.
  assert (Hinv : invalid_variant (variant bogus_toast)).
  { intros s [= <-]. vm_compute. intuition discriminate. }
  split; [exact Hinv|].
  pose proof (C8_invalid_variant_renders_as_info bogus_toast
                (mount bogus_toast 0) Hinv) as (H1 & H2 & _).
  split; assumption.
Defined.

(** ** The lifecycle: handlers, invariants, dismissal *)

Section Lifecycle.

Local Open Scope Q_scope.

Variable P : Props.
Variable development : bool.

Local Abbreviation step := (step P development).
Local Abbreviation run := (run P development).
Local Abbreviation sched_inv := (sched_inv P).

Lemma run_app (w : World) (es1 es2 : list event) :
  run w (es1 ++ es2) = run (run w es1) es2.
Proof. apply fold_left_app. Qed.

Lemma run_cons (w : World) (e : event) (es : list event) :
  run w (e :: es) = run (step w e) es.
Proof. reflexivity. Qed.

Lemma run_nil (w : World) : run w [] = w.
Proof. reflexivity. Qed.

Lemma run_snoc (w : World) (es : list event) (e : event) :
  run w (es ++ [e]) = step (run w es) e.
Proof. rewrite run_app. reflexivity. Qed.

(** An invariant of every step holds along every trace. *)
Lemma run_invariant (I : World -> Prop) :
  (forall w e, I w -> I (step w e)) ->
  forall es w, I w -> I (run w es).
Proof.
  intros Hstep es. induction es as [|e es IH]; intros w Hw; [exact Hw|].
  rewrite run_cons. apply IH, Hstep, Hw.
Qed.

Lemma safeDuration_nonneg : 0 <= safeDuration P.
Proof.
  unfold safeDuration.
  destruct (with_default (JNum 5000) (duration P)); try discriminate.
  destruct (Qle_bool 0 q) eqn:Hq; [apply Qle_bool_iff, Hq | discriminate].
Qed.

(** The commit does nothing when the event left [isLeaving] alone. *)
Lemma commit_same (w : World) : commit P (isLeaving w) w = w.
Proof.
  unfold commit. rewrite Bool.eqb_reflx, andb_false_r. reflexivity.
Qed.

Lemma handleClose_leaving (w : World) : handleClose true w = w.
Proof. reflexivity. Qed.

(** *** Resume (C2) *)

Lemma remaining_lt_full (p d : Q) : 0 < d -> p < 100 -> (p / 100) * d < d.
Proof.
  intros Hd Hp.
  assert (H : (p / 100) * d < 1 * d).
  { apply Qmult_lt_compat_r; [exact Hd |].
    apply Qlt_shift_div_r; [reflexivity | lra]. }
  lra.
Qed.

Lemma resume_progress_start (p r : Q) : 0 <= p -> resume_progress_at p r 0 == p.
Proof.
  intros Hp. unfold resume_progress_at.
  assert (Heq : p - inject_Z 0 / r * p == p)
    by (unfold Qdiv; change (inject_Z 0) with 0; ring).
  rewrite Heq. apply Q.max_r. exact Hp.
Qed.

Lemma resume_progress_end (p r : Q) (e : Z) :
  0 <= p -> 0 < r -> r <= inject_Z e -> resume_progress_at p r e == 0.
Proof.
  intros Hp Hr He. unfold resume_progress_at.
  apply Q.max_l.
  assert (H1 : 1 <= inject_Z e / r).
  { apply Qle_shift_div_l; [exact Hr|]. rewrite Qmult_1_l. exact He. }
  assert (H2 : 1 * p <= inject_Z e / r * p)
    by (apply Qmult_le_compat_r; assumption).
  lra.
Qed.

(** With [r = (p/100) * d] the resumed loop decays at the rate of the
    original one, 100/d percent per millisecond. *)
Lemma resume_progress_rate (p d : Q) (e : Z) :
  0 < p -> 0 < d ->
  resume_progress_at p ((p / 100) * d) e == Qmax 0 (p - inject_Z e * (100 / d)).
Proof.
  intros Hp Hd. unfold resume_progress_at.
  assert (Heq : p - inject_Z e / (p / 100 * d) * p == p - inject_Z e * (100 / d)).
  { field. split; lra. }
  rewrite Heq. reflexivity.
Qed.

(** What a pointer-enter followed by a pointer-leave schedules. *)
Lemma resume_after_hover :
  forall w : World,
    mounted w = true ->
    let p := progress w in
    let remainingMs := (p / 100) * safeDuration P in
    let w' := run w [MouseEnter; MouseLeave] in
    (0 < safeDuration P -> 0 < p ->
       timers w' !! next_timer w
         = Some {| t_cb := ExpiryCb (isLeaving w);
                   t_delay := remainingMs; t_set_at := clock w |}
       /\ timerRef w' = Some (next_timer w)
       /\ (p < 100 -> remainingMs < safeDuration P)
       /\ (showProgress P = true ->
           frames w' !! next_frame w
             = Some (ResumeProgressCb (clock w) p remainingMs)
           /\ progressRef w' = Some (next_frame w))
       /\ (showProgress P = false -> frames w' = frames (step w MouseEnter))
       /\ resume_progress_at p remainingMs 0 == p
       /\ (forall e, remainingMs <= inject_Z e ->
             resume_progress_at p remainingMs e == 0)
       /\ (forall e, resume_progress_at p remainingMs e
                      == Qmax 0 (p - inject_Z e * (100 / safeDuration P))))
    /\ (safeDuration P == 0 \/ p <= 0 -> w' = step w MouseEnter).
Proof.
  intros [clk mnt vis lv pr tr pf tms nt fms nf lg unc]. cbn [mounted progress
    next_timer next_frame isLeaving clock]. intros ->.
  unfold run, fold_left. unfold_step. unfold handleMouseEnter, handleMouseLeave.
  set (w1 := match progressRef _ with Some h => _ | None => _ end).
  assert (Hw1 : mounted w1 = true /\ progress w1 = pr /\ clock w1 = clk
                /\ isLeaving w1 = lv /\ next_timer w1 = nt /\ next_frame w1 = nf).
  { subst w1. destruct tr, pf; repeat split; reflexivity. }
  destruct Hw1 as (Hm & Hp & Hc & Hl & Hnt & Hnf).
  cbn [mounted]. rewrite Hm, Hp.
  split.
  - intros Hd Hpos.
    assert (Hrem : 0 < pr / 100 * safeDuration P).
    { apply Qmult_lt_0_compat; [|exact Hd].
      apply Qlt_shift_div_l; [reflexivity | lra]. }
    rewrite (proj2 (Qltb_lt 0 (safeDuration P)) Hd), (proj2 (Qltb_lt 0 pr) Hpos).
    cbn [andb].
    unfold setTimeout, requestAnimationFrame, set_progressRef, set_timerRef.
    split; [|split; [|split; [|split; [|split; [|split; [|split]]]]]].
    + destruct (showProgress P); proj_simpl; rewrite ?Hp, ?Hc, ?Hl, ?Hnt;
        apply lookup_insert_eq.
    + destruct (showProgress P); proj_simpl; rewrite ?Hnt; reflexivity.
    + intros Hlt. apply remaining_lt_full; assumption.
    + intros ->. proj_simpl. rewrite ?Hp, ?Hnf, ?Hc.
      split; [apply lookup_insert_eq | reflexivity].
    + intros ->. reflexivity.
    + apply resume_progress_start; lra.
    + intros e He. apply resume_progress_end; [lra | exact Hrem | exact He].
    + intros e. apply resume_progress_rate; assumption.
  - intros [Hd | Hpz].
    + assert (Qltb 0 (safeDuration P) = false) as -> by (apply Qltb_ge; lra).
      reflexivity.
    + assert (Qltb 0 pr = false) as -> by (apply Qltb_ge; exact Hpz).
      rewrite andb_false_r. reflexivity.
Qed.

Lemma hover_resume_frame (w : World) :
  mounted w = true ->
  mounted (run w [MouseEnter; MouseLeave]) = true
  /\ clock (run w [MouseEnter; MouseLeave]) = clock w.
Proof.
  destruct w as [clk mnt vis lv pr tr pf tms nt fms nf lg unc].
  proj_simpl. intros ->. rewrite !run_cons, run_nil.
  ev_dispatch. ev_handler. split_tests; split; reflexivity.
Qed.

(** One run of the [updateProgress] that [handleMouseLeave] starts. *)
Lemma resume_frame_fires (w : World) (h : positive) (startTime : Z)
    (initialProgress remainingTime : Q) :
  mounted w = true ->
  frames w !! h = Some (ResumeProgressCb startTime initialProgress remainingTime) ->
  let elapsed := (clock w - startTime)%Z in
  let again :=
    Qltb 0 (resume_progress_at initialProgress remainingTime elapsed)
    && Qltb (inject_Z elapsed) remainingTime in
  let w' := step w (FrameFires h) in
  progress w' = resume_progress_at initialProgress remainingTime elapsed
  /\ frames w'
     = (if again
        then <[next_frame w := ResumeProgressCb startTime initialProgress remainingTime]>
               (delete h (frames w))
        else delete h (frames w))
  /\ progressRef w' = (if again then Some (next_frame w) else progressRef w)
  /\ clock w' = clock w
  /\ mounted w' = true.
Proof.
  destruct w as [clk mnt vis lv pr tr pf tms nt fms nf lg unc].
  proj_simpl. intros -> Hh. cbn zeta.
  ev_dispatch. rewrite Hh. ev_handler. split_tests; ev_commit; split_tests;
    proj_simpl; repeat split; reflexivity.
Qed.

(** C2, as the code has it. Hovering a mounted toast and leaving it again,
    with a positive duration and a positive stored progress [p], schedules
    the expiry timeout for [(p/100) * safeDuration], which is less than the
    full duration exactly when [p] is below 100. When the bar is shown the
    progress loop is restarted from [p]: the callback that is requested,
    run [dt] ms later, stores [max(0, p - dt * (100/safeDuration))] and asks
    for another frame exactly when that value is positive and [dt] is less
    than the remaining time. Without the bar no frame is requested. Nothing
    is restarted when the duration is 0 or the progress is 0. *)
Theorem C2_resume_uses_remaining_time :
  forall w : World,
    mounted w = true ->
    let p := progress w in
    let remainingMs := (p / 100) * safeDuration P in
    let w' := run w [MouseEnter; MouseLeave] in
    (0 < safeDuration P -> 0 < p ->
       timers w' !! next_timer w
         = Some {| t_cb := ExpiryCb (isLeaving w);
                   t_delay := remainingMs; t_set_at := clock w |}
       /\ timerRef w' = Some (next_timer w)
       /\ (p < 100 -> remainingMs < safeDuration P)
       /\ (100 <= p -> safeDuration P <= remainingMs)
       /\ (showProgress P = true ->
           frames w' !! next_frame w
             = Some (ResumeProgressCb (clock w) p remainingMs)
           /\ progressRef w' = Some (next_frame w)
           /\ forall dt : N,
                let w'' := run w' [Tick dt; FrameFires (next_frame w)] in
                progress w'' = resume_progress_at p remainingMs (Z.of_N dt)
                /\ progress w''
                   == Qmax 0 (p - inject_Z (Z.of_N dt) * (100 / safeDuration P))
                /\ (0 < progress w'' /\ inject_Z (Z.of_N dt) < remainingMs ->
                    frames w'' !! next_frame w'
                      = Some (ResumeProgressCb (clock w) p remainingMs)
                    /\ progressRef w'' = Some (next_frame w'))
                /\ (progress w'' <= 0 \/ remainingMs <= inject_Z (Z.of_N dt) ->
                    frames w'' = delete (next_frame w) (frames w')
                    /\ progressRef w'' = progressRef w'))
       /\ (showProgress P = false -> frames w' = frames (step w MouseEnter))
       /\ resume_progress_at p remainingMs 0 == p
       /\ (forall e, remainingMs <= inject_Z e ->
             resume_progress_at p remainingMs e == 0)
       /\ (forall e, resume_progress_at p remainingMs e
                      == Qmax 0 (p - inject_Z e * (100 / safeDuration P))))
    /\ (safeDuration P == 0 \/ p <= 0 -> w' = step w MouseEnter).
Proof.
  intros w Hm. cbv zeta.
  pose proof (resume_after_hover w Hm) as H. cbv zeta in H.
  destruct H as [H1 H2]. split; [|exact H2].
  intros Hd Hp.
  destruct (H1 Hd Hp) as (A1 & A2 & A3 & A4 & A5 & A6 & A7 & A8).
  destruct (hover_resume_frame w Hm) as [Hm' Hc'].
  split; [exact A1|]. split; [exact A2|]. split; [exact A3|].
  split.
  { intros H100.
    assert (E : safeDuration P == 1 * safeDuration P) by ring.
    rewrite E at 1. apply Qmult_le_compat_r; [|lra].
    apply Qle_shift_div_l; [reflexivity | lra]. }
  split; [|split; [exact A5|split; [exact A6|split; [exact A7|exact A8]]]].
  intros Hsp. destruct (A4 Hsp) as [F1 F2].
  split; [exact F1|]. split; [exact F2|].
  intros dt. rewrite (run_cons _ (Tick dt)), (run_cons _ (FrameFires _)), run_nil.
  set (w' := run w [MouseEnter; MouseLeave]) in *.
  set (w1 := step w' (Tick dt)).
  assert (Hm1 : mounted w1 = true) by exact Hm'.
  assert (Hf1 : frames w1 !! next_frame w
                = Some (ResumeProgressCb (clock w) (progress w)
                          (progress w / 100 * safeDuration P))) by exact F1.
  destruct (resume_frame_fires w1 _ _ _ _ Hm1 Hf1) as (E1 & E2 & E3 & _ & _).
  change (clock w1) with (clock w' + Z.of_N dt)%Z in E1, E2, E3.
  rewrite Hc' in E1, E2, E3.
  replace (clock w + Z.of_N dt - clock w)%Z with (Z.of_N dt) in E1, E2, E3 by lia.
  change (next_frame w1) with (next_frame w') in E2, E3.
  change (frames w1) with (frames w') in E2.
  change (progressRef w1) with (progressRef w') in E3.
  split; [exact E1|]. split; [rewrite E1; apply A8|].
  destruct (Qltb 0 (resume_progress_at (progress w)
                      (progress w / 100 * safeDuration P) (Z.of_N dt))
            && Qltb (inject_Z (Z.of_N dt)) (progress w / 100 * safeDuration P))
    eqn:Hc.
  - split.
    + intros _. rewrite E2. split; [apply lookup_insert_eq | exact E3].
    + apply andb_true_iff in Hc as [Hc1 Hc2]. apply Qltb_lt in Hc1, Hc2.
      rewrite E1. intros [H|H]; lra.
  - split.
    + apply andb_false_iff in Hc. rewrite E1. intros [Ha Hb].
      destruct Hc as [Hc|Hc]; apply Qltb_ge in Hc; lra.
    + intros _. split; assumption.
Qed.

(** *** The progress loop of the effect *)

Lemma mount_progress_nonneg (e : Z) : 0 <= mount_progress_at P e.
Proof. apply Q.le_max_l. Qed.

Lemma mount_progress_mono (e1 e2 : Z) :
  0 < safeDuration P -> (e1 <= e2)%Z ->
  mount_progress_at P e2 <= mount_progress_at P e1.
Proof.
  intros Hd He. unfold mount_progress_at.
  apply Q.max_le_compat_l.
  assert (H1 : inject_Z e1 <= inject_Z e2) by (rewrite <- Zle_Qle; exact He).
  assert (H2 : inject_Z e1 / safeDuration P <= inject_Z e2 / safeDuration P).
  { unfold Qdiv. apply Qmult_le_compat_r; [exact H1|].
    apply Qlt_le_weak, Qinv_lt_0_compat, Hd. }
  lra.
Qed.

Lemma mount_progress_end (e : Z) :
  0 < safeDuration P -> safeDuration P <= inject_Z e ->
  mount_progress_at P e == 0.
Proof.
  intros Hd He. unfold mount_progress_at. apply Q.max_l.
  assert (H1 : 1 <= inject_Z e / safeDuration P).
  { apply Qle_shift_div_l; [exact Hd|]. rewrite Qmult_1_l. exact He. }
  lra.
Qed.

Lemma mount_progress_start : mount_progress_at P 0 == 100.
Proof.
  unfold mount_progress_at.
  assert (Heq : 100 - inject_Z 0 / safeDuration P * 100 == 100)
    by (unfold Qdiv; change (inject_Z 0) with 0; ring).
  rewrite Heq. reflexivity.
Qed.

Lemma mount_progress_le_100 (e : Z) :
  0 < safeDuration P -> (0 <= e)%Z -> mount_progress_at P e <= 100.
Proof.
  intros Hd He. rewrite <- mount_progress_start.
  apply mount_progress_mono; assumption.
Qed.

(** What one run of the effect's [updateProgress] leaves behind. *)
Lemma mount_frame_fires (w : World) (h : positive) (startTime : Z) :
  mounted w = true ->
  frames w !! h = Some (MountProgressCb startTime) ->
  let elapsed := (clock w - startTime)%Z in
  let again :=
    Qltb 0 (mount_progress_at P elapsed)
    && Qltb (inject_Z elapsed) (safeDuration P) in
  let w' := step w (FrameFires h) in
  progress w' = mount_progress_at P elapsed
  /\ frames w'
     = (if again
        then <[next_frame w := MountProgressCb startTime]> (delete h (frames w))
        else delete h (frames w))
  /\ progressRef w' = (if again then Some (next_frame w) else progressRef w)
  /\ clock w' = clock w
  /\ mounted w' = true.
Proof.
  destruct w as [clk mnt vis lv pr tr pf tms nt fms nf lg unc].
  proj_simpl. intros -> Hh. cbn zeta.
  ev_dispatch. rewrite Hh. ev_handler. split_tests; ev_commit; split_tests;
    proj_simpl; repeat split; reflexivity.
Qed.

(** A run of the effect's [updateProgress]: what it stores, when it asks
    for another frame, and how two consecutive samples compare. *)
Lemma mount_loop_step :
  0 < safeDuration P ->
  (forall (w : World) (h : positive) (startTime : Z),
      mounted w = true ->
      frames w !! h = Some (MountProgressCb startTime) ->
      let elapsed := (clock w - startTime)%Z in
      let w' := step w (FrameFires h) in
      progress w' = Qmax 0 (100 - (inject_Z elapsed / safeDuration P) * 100)
      /\ (0 < progress w' /\ inject_Z elapsed < safeDuration P ->
          frames w' = <[next_frame w := MountProgressCb startTime]> (delete h (frames w))
          /\ progressRef w' = Some (next_frame w))
      /\ (progress w' <= 0 \/ safeDuration P <= inject_Z elapsed ->
          frames w' = delete h (frames w) /\ progressRef w' = progressRef w)
      /\ (forall (dt : N) (h' : positive),
            frames w' !! h' = Some (MountProgressCb startTime) ->
            progress (run w' [Tick dt; FrameFires h']) <= progress w'))
  /\ (forall e1 e2 : Z, (e1 <= e2)%Z ->
        mount_progress_at P e2 <= mount_progress_at P e1)
  /\ (forall e : Z, safeDuration P <= inject_Z e -> mount_progress_at P e == 0)
  /\ (forall e : Z, 0 <= mount_progress_at P e)
  /\ mount_progress_at P 0 == 100.
Proof.
  intros Hd. split; [|split; [|split; [|split]]].
  - intros w h st Hm Hh elapsed w'.
    destruct (mount_frame_fires w h st Hm Hh) as (E1 & E2 & E3 & E4 & E5).
    fold elapsed in E1, E2, E3. fold w' in E1, E2, E3, E4, E5.
    split; [exact E1|].
    destruct (Qltb 0 (mount_progress_at P elapsed)
              && Qltb (inject_Z elapsed) (safeDuration P)) eqn:Hc.
    + split; [intros _; split; assumption|].
      apply andb_true_iff in Hc as [Hc1 Hc2]. apply Qltb_lt in Hc1, Hc2.
      split; [rewrite E1; intros [H|H]; lra|].
      intros dt h' Hh'. rewrite !run_cons, run_nil.
      destruct (mount_frame_fires (step w' (Tick dt)) h' st E5 Hh') as (F1 & _).
      rewrite F1, E1. change (clock (step w' (Tick dt))) with (clock w' + Z.of_N dt)%Z.
      rewrite E4. apply mount_progress_mono; [exact Hd | lia].
    + split.
      { apply andb_false_iff in Hc. rewrite E1. intros [H1 H2].
        destruct Hc as [Hc|Hc]; apply Qltb_ge in Hc; lra. }
      split; [intros _; split; assumption|].
      intros dt h' Hh'. rewrite !run_cons, run_nil.
      destruct (mount_frame_fires (step w' (Tick dt)) h' st E5 Hh') as (F1 & _).
      rewrite F1, E1. change (clock (step w' (Tick dt))) with (clock w' + Z.of_N dt)%Z.
      rewrite E4. apply mount_progress_mono; [exact Hd | lia].
  - intros e1 e2. apply mount_progress_mono, Hd.
  - intros e. apply mount_progress_end, Hd.
  - apply mount_progress_nonneg.
  - apply mount_progress_start.
Qed.

(** ** Lifecycle: invariants along traces *)

Lemma pointer_ok_cons (hovering : bool) (e : event) (es : list event) :
  pointer_ok hovering (e :: es)
  = leave_allowed hovering e && pointer_ok (hover_after hovering e) es.
Proof. destruct e; reflexivity. Qed.

(** An invariant indexed by the hover state holds along every trace the
    pointer assumption admits. *)
Lemma run_invariant_hover (I : bool -> World -> Prop) :
  (forall h w e, leave_allowed h e = true -> I h w ->
                 I (hover_after h e) (step w e)) ->
  forall es h w, pointer_ok h es = true -> I h w ->
                 I (hover_after_all h es) (run w es).
Proof.
  intros Hstep es. induction es as [|e es IH]; intros h w Hok Hw; [exact Hw|].
  rewrite pointer_ok_cons in Hok. apply andb_true_iff in Hok as [Ha Hok].
  rewrite run_cons. cbn [hover_after_all]. apply IH; [exact Hok|].
  apply Hstep; assumption.
Qed.

Lemma close_inv_step (h : bool) (w : World) (e : event) :
  leave_allowed h e = true -> close_inv h w ->
  close_inv (hover_after h e) (step w e).
Proof.
  intros Hal [I1 I2 I3 I4 I5].
  destruct w as [clk mnt vis lv pr tr pf tms nt fms nf lg unc].
  proj_simpl.
  destruct e as [dt | k | k | | | | key | | | ]; proj_simpl.
  all: step_cases.
  all: constructor; proj_simpl; intros; lookup_cases; proj_simpl;
    use_lookup_facts; simplify_eq; try done; try lia.
  all: repeat split; try done; try lia; intros; lookup_cases; proj_simpl;
    use_lookup_facts; simplify_eq; try done; eauto.
Qed.

Lemma close_inv_mount (now : Z) : close_inv false (mount P now).
Proof.
  unfold mount. ev_effect; split_tests; inv_auto.
Qed.

Lemma close_inv_run (now : Z) (es : list event) :
  pointer_ok false es = true ->
  close_inv (hover_after_all false es) (run (mount P now) es).
Proof.
  intros Hok. apply (run_invariant_hover close_inv); [|exact Hok|].
  - intros h w e Hal Hw. apply close_inv_step; assumption.
  - apply close_inv_mount.
Qed.

Lemma sched_inv_step (w : World) (e : event) :
  sched_inv w -> sched_inv (step w e).
Proof.
  intros [I1 I2 I3].
  destruct w as [clk mnt vis lv pr tr pf tms nt fms nf lg unc].
  proj_simpl.
  destruct e as [dt | k | k | | | | key | | | ]; proj_simpl.
  all: step_cases.
  all: constructor; proj_simpl; split_tests; destruct_and?.
  (* freshness of the pending handles *)
  all: try (intros; lookup_cases; use_lookup_facts; lia).
  (* what [timerRef] holds *)
  all: try (split; [lia | intros; lookup_cases; proj_simpl; try done; try lia; eauto]).
  all: try done.
  (* the dismissal is pending or done *)
  all: try (intros Hlv Hoc; try lia; try (left; lia);
            try (first [ destruct (I3 eq_refl Hoc) as [Hc|Hp]
                       | destruct (I3 Hlv Hoc) as [Hc|Hp] ]; [left; lia|]);
            right; solve_pending I1).
Qed.

Lemma sched_inv_mount (now : Z) : sched_inv (mount P now).
Proof.
  unfold mount. ev_effect; split_tests.
  all: constructor; proj_simpl; try done.
  all: try (intros; lookup_cases; lia).
  all: split; [lia | intros; lookup_cases; proj_simpl; done].
Qed.

Lemma sched_inv_run (now : Z) (es : list event) :
  sched_inv (run (mount P now) es).
Proof.
  apply (run_invariant sched_inv); [apply sched_inv_step | apply sched_inv_mount].
Qed.

Lemma tracked_inv_step (h : bool) (w : World) (e : event) :
  leave_allowed h e = true -> tracked_inv h w ->
  tracked_inv (hover_after h e) (step w e).
Proof.
  intros Hal [I1 I2].
  destruct w as [clk mnt vis lv pr tr pf tms nt fms nf lg unc].
  proj_simpl.
  destruct e as [dt | k | k | | | | key | | | ]; proj_simpl.
  all: step_cases.
  all: constructor; proj_simpl; try done.
  all: intros Hlv; try specialize (I1 eq_refl); try specialize (I2 eq_refl);
       try specialize (I1 Hlv); try specialize (I2 Hlv).
  all: intros; lookup_cases; proj_simpl; use_lookup_facts; simplify_eq; try done.
Qed.

Lemma tracked_inv_mount (now : Z) : tracked_inv false (mount P now).
Proof.
  unfold mount. ev_effect; split_tests.
  all: constructor; proj_simpl; intros _; intros; lookup_cases; proj_simpl; done.
Qed.

Lemma tracked_inv_run (now : Z) (es : list event) :
  pointer_ok false es = true ->
  tracked_inv (hover_after_all false es) (run (mount P now) es).
Proof.
  intros Hok. apply (run_invariant_hover tracked_inv); [|exact Hok|].
  - intros h w e Hal Hw. apply tracked_inv_step; assumption.
  - apply tracked_inv_mount.
Qed.

(** ** At-most-once dismissal *)

Lemma close_inv_no_pending (h : bool) (w : World) :
  close_inv h w -> isLeaving w = false -> ~ dismiss_pending (timers w).
Proof.
  intros Hci Hlv (k & t & Hl & Ht).
  destruct (ci_dismiss h w Hci k t Hl Ht) as (_ & Hlv' & _). congruence.
Qed.

Lemma close_inv_done_or_pending (h : bool) (w : World) :
  close_inv h w -> sched_inv w -> isLeaving w = true -> onClose P <> None ->
  (close_count (log w) = 1%nat /\ ~ dismiss_pending (timers w))
  \/ (close_count (log w) = 0%nat /\ dismiss_pending (timers w)).
Proof.
  intros Hci Hsi Hlv Hoc.
  pose proof (ci_count h w Hci) as Hle.
  destruct (si_once P w Hsi Hlv Hoc) as [Hc | Hp].
  - left. split; [lia|].
    intros (k & t & Hl & Ht).
    destruct (ci_dismiss h w Hci k t Hl Ht) as (H0 & _). lia.
  - right. split; [|exact Hp].
    destruct Hp as (k & t & Hl & Ht).
    destruct (ci_dismiss h w Hci k t Hl Ht) as (H0 & _). exact H0.
Qed.

(** A close request through the current handlers does nothing while the
    toast is leaving. *)
Lemma close_request_leaving (w : World) :
  isLeaving w = true ->
  step w CloseClick = w /\ step w (KeyDown "Escape") = w.
Proof.
  destruct w as [clk mnt vis lv pr tr pf tms nt fms nf lg unc].
  proj_simpl. intros ->. split; step_cases; reflexivity.
Qed.

Lemma unmount_log (w : World) : log (step w Unmount) = log w.
Proof.
  destruct w as [clk mnt vis lv pr tr pf tms nt fms nf lg unc].
  step_cases; reflexivity.
Qed.

(** An expiry callback that runs while the toast is leaving schedules
    nothing and calls nothing. *)
Lemma expiry_fires_leaving (h : bool) (w : World) (k : positive)
    (t : timer_entry) (c : bool) :
  close_inv h w -> isLeaving w = true ->
  timers w !! k = Some t -> t_cb t = ExpiryCb c ->
  step w (TimerFires k) = (if due t (clock w) then clearTimeout k w else w).
Proof.
  intros Hci Hlv Hl Ht.
  assert (c = true) as ->.
  { destruct c; [reflexivity|].
    destruct (ci_stale h w Hci k t Hl Ht) as (_ & Hlv' & _). congruence. }
  destruct w as [clk mnt vis lv pr tr pf tms nt fms nf lg unc].
  destruct t as [cb d s]. proj_simpl. subst lv cb.
  ev_dispatch. rewrite Hl. split_tests; [|reflexivity].
  ev_handler. ev_commit. split_tests; reflexivity.
Qed.

(** The dismissal callback, when it runs, calls [onClose] and leaves no
    dismissal behind. *)
Lemma dismiss_fires (h : bool) (w : World) (k : positive) (t : timer_entry) :
  close_inv h w ->
  timers w !! k = Some t -> t_cb t = DismissCb -> due t (clock w) = true ->
  onClose P <> None ->
  close_count (log (step w (TimerFires k))) = 1%nat
  /\ ~ dismiss_pending (timers (step w (TimerFires k))).
Proof.
  intros Hci Hl Ht Hdue Hoc.
  destruct (ci_dismiss h w Hci k t Hl Ht) as (H0 & Hlv & Huniq).
  destruct w as [clk mnt vis lv pr tr pf tms nt fms nf lg unc].
  destruct t as [cb d s]. proj_simpl. subst lv cb.
  ev_dispatch. rewrite Hl, Hdue.
  ev_handler. split_tests; try done.
  all: ev_commit; split_tests; proj_simpl; rewrite H0; split; try reflexivity.
  all: intros (k' & t' & Hl' & Ht'); apply lookup_delete_Some in Hl' as [Hne Hl'];
    apply Hne; symmetry; eapply Huniq; eassumption.
Qed.

(** A close request on a mounted toast that is not leaving starts the
    dismissal. *)
Lemma close_request_starts_dismissal (w : World) (e : event) :
  sched_inv w -> mounted w = true -> isLeaving w = false ->
  is_manual_close e = true ->
  isLeaving (step w e) = true
  /\ timers (step w e) !! next_timer w
     = Some {| t_cb := DismissCb; t_delay := 300; t_set_at := clock w |}
  /\ log (step w e) = log w.
Proof.
  intros [S1 S2 _] Hm Hlv He.
  assert (Hec : step w e = step w CloseClick).
  { destruct e; cbn [is_manual_close] in He; try discriminate He; [reflexivity|].
    apply String.eqb_eq in He. subst key. reflexivity. }
  rewrite Hec. clear e He Hec.
  destruct w as [clk mnt vis lv pr tr pf tms nt fms nf lg unc].
  proj_simpl. subst mnt lv.
  step_cases; proj_simpl; destruct_and?.
  all: split; [reflexivity|]; split; [|reflexivity].
  all: rewrite ?lookup_insert_ne by lia.
  all: rewrite ?lookup_delete_ne by lia.
  all: apply lookup_insert_eq.
Qed.

(** So does the expiry callback of a toast that is not leaving. *)
Lemma expiry_starts_dismissal (h : bool) (w : World) (k : positive)
    (t : timer_entry) :
  close_inv h w -> sched_inv w ->
  timers w !! k = Some t -> t_cb t = ExpiryCb false -> due t (clock w) = true ->
  isLeaving (step w (TimerFires k)) = true
  /\ timers (step w (TimerFires k)) !! next_timer w
     = Some {| t_cb := DismissCb; t_delay := 300; t_set_at := clock w |}
  /\ log (step w (TimerFires k)) = log w.
Proof.
  intros [C1 _ _ _ _] [S1 _ _] Hk Hcb Hdue.
  destruct (C1 _ _ Hk Hcb) as (Hm & Hlv & _ & Hr).
  pose proof (S1 _ _ Hk) as Hlt.
  destruct w as [clk mnt vis lv pr tr pf tms nt fms nf lg unc].
  destruct t as [cb d s0]. proj_simpl. subst mnt lv cb tr.
  ev_dispatch. rewrite Hk, Hdue.
  ev_handler; ev_commit; ev_cleanup; split_tests; ev_effect; split_tests;
    proj_simpl.
  all: split; [reflexivity|]; split; [|reflexivity].
  all: rewrite ?lookup_insert_ne by lia.
  all: rewrite ?lookup_delete_ne by lia.
  all: apply lookup_insert_eq.
Qed.

(** X24. While pointer-enter and pointer-leave alternate, [onClose] is
    invoked at most once along every trace (any number of clicks, Escape
    presses, timer and frame callbacks in any order, teardown). Before the
    toast is leaving it has not been invoked and no dismissal is scheduled.
    A click, an Escape press or a due expiry callback on a toast that is
    not leaving makes it leave and schedules the dismissal, 300 ms ahead.
    Once the toast is leaving, exactly one dismissal is either scheduled or
    done, a further close request (click, Escape, an expiry callback,
    teardown) neither invokes [onClose] nor schedules another dismissal,
    and the dismissal, when it runs, invokes [onClose] for the one and only
    time. *)
Theorem dismissal_at_most_once_when_pointer_alternates :
  forall (now : Z) (es : list event),
    pointer_ok false es = true ->
    let w := run (mount P now) es in
    (close_count (log w) <= 1)%nat
    /\ (isLeaving w = false ->
        close_count (log w) = 0%nat /\ ~ dismiss_pending (timers w))
    /\ (mounted w = true -> isLeaving w = false ->
        forall e, is_manual_close e = true ->
          isLeaving (step w e) = true
          /\ timers (step w e) !! next_timer w
             = Some {| t_cb := DismissCb; t_delay := 300; t_set_at := clock w |}
          /\ log (step w e) = log w)
    /\ (forall k t, timers w !! k = Some t -> t_cb t = ExpiryCb false ->
          due t (clock w) = true ->
          isLeaving (step w (TimerFires k)) = true
          /\ timers (step w (TimerFires k)) !! next_timer w
             = Some {| t_cb := DismissCb; t_delay := 300; t_set_at := clock w |}
          /\ log (step w (TimerFires k)) = log w)
    /\ (isLeaving w = true ->
        step w CloseClick = w
        /\ step w (KeyDown "Escape") = w
        /\ (forall k t c, timers w !! k = Some t -> t_cb t = ExpiryCb c ->
              step w (TimerFires k) = (if due t (clock w) then clearTimeout k w else w))
        /\ (onClose P <> None ->
              (close_count (log w) = 1%nat /\ ~ dismiss_pending (timers w))
              \/ (close_count (log w) = 0%nat /\ dismiss_pending (timers w))))
    /\ log (step w Unmount) = log w
    /\ (forall k t, timers w !! k = Some t -> t_cb t = DismissCb ->
          due t (clock w) = true -> onClose P <> None ->
          close_count (log (step w (TimerFires k))) = 1%nat
          /\ ~ dismiss_pending (timers (step w (TimerFires k)))).
Proof.
  intros now es Hok w.
  pose proof (close_inv_run now es Hok) as Hci. fold w in Hci.
  pose proof (sched_inv_run now es) as Hsi. fold w in Hsi.
  split; [exact (ci_count _ _ Hci)|].
  split.
  { intros Hlv. split; [exact (ci_visible _ _ Hci Hlv)|].
    eapply close_inv_no_pending; eassumption. }
  split.
  { intros Hm Hlv e He. apply close_request_starts_dismissal; assumption. }
  split.
  { intros k t Hl Ht Hdue. eapply expiry_starts_dismissal; eassumption. }
  split.
  { intros Hlv. destruct (close_request_leaving w Hlv) as [H1 H2].
    split; [exact H1|]. split; [exact H2|]. split.
    - intros k t c Hl Ht. eapply expiry_fires_leaving; eassumption.
    - intros Hoc. eapply close_inv_done_or_pending; eassumption. }
  split; [apply unmount_log|].
  intros k t Hl Ht Hdue Hoc. eapply dismiss_fires; eassumption.
Qed.

End Lifecycle.

(** ** Pause on hover (C4) and teardown (C6) *)

Section PauseAndTeardown.

Local Open Scope Q_scope.

Variable P : Props.
Variable development : bool.

Local Abbreviation step := (step P development).
Local Abbreviation run := (run P development).

Lemma frozen_step (p : Q) (w : World) (e : event) :
  is_quiet e = true -> frozen p w -> frozen p (step w e).
Proof.
  intros Hq [I1 I2 I3 I4].
  destruct w as [clk mnt vis lv pr tr pf tms nt fms nf lg unc].
  proj_simpl. subst tms pr lv.
  destruct e as [dt | k | k | | | | key | | | ];
    cbn [is_quiet is_manual_close negb] in Hq; try discriminate Hq;
    try apply negb_true_iff in Hq.
  all: ev_dispatch; rewrite ?lookup_empty; split_tests.
  all: try match goal with
         | H : _ !! _ = Some ?f |- _ => pose proof (I2 _ _ H); subst f
         end.
  all: ev_handler; rewrite ?Hq; split_tests; ev_commit; split_tests;
       ev_cleanup; split_tests; ev_effect; split_tests.
  all: constructor; proj_simpl; rewrite ?delete_empty; try done;
       intros; lookup_cases; eauto.
Qed.

Lemma frozen_run (p : Q) (es : list event) (w : World) :
  forallb is_quiet es = true -> frozen p w -> frozen p (run w es).
Proof.
  revert w. induction es as [|e es IH]; intros w Hq Hw; [exact Hw|].
  cbn [forallb] in Hq. apply andb_true_iff in Hq as [He Hq].
  rewrite run_cons. apply IH; [exact Hq|]. apply frozen_step; assumption.
Qed.

(** Hovering a toast that is not leaving leaves it frozen. *)
Lemma hover_freezes (h : bool) (w : World) :
  tracked_inv h w -> mounted w = true -> isLeaving w = false ->
  frozen (progress w) (step w MouseEnter).
Proof.
  intros [I1 I2].
  destruct w as [clk mnt vis lv pr tr pf tms nt fms nf lg unc].
  proj_simpl. intros -> ->.
  specialize (I1 eq_refl). specialize (I2 eq_refl).
  step_cases.
  all: constructor; proj_simpl; try done.
  all: try (apply map_empty; intros k';
            match goal with
            | |- ?m !! k' = None => destruct (m !! k') as [t|] eqn:Hl; [|reflexivity]
            end;
            lookup_cases; destruct (I1 _ _ Hl) as (_ & _ & ?); simplify_eq).
  all: intros k' cb Hl; lookup_cases; destruct cb; try reflexivity;
       destruct (I2 _ _ Hl eq_refl) as (_ & _ & ?); simplify_eq.
Qed.

(** After a pointer-enter the bar does not move while only quiet events
    happen. *)
Lemma hover_then_quiet (h : bool) (w : World) (es : list event) :
  tracked_inv h w -> mounted w = true -> isLeaving w = false ->
  forallb is_quiet es = true ->
  frozen (progress w) (run (step w MouseEnter) es).
Proof.
  intros Hti Hm Hlv Hq. apply frozen_run; [exact Hq|].
  eapply hover_freezes; eassumption.
Qed.

(** C4, as the code has it. Take a mounted toast that is not leaving and
    whose pointer events have alternated so far (no pointer-leave without
    a pointer-enter before it, so that the refs hold every pending expiry
    and progress callback). A pointer-enter cancels every pending timeout
    and every pending progress frame; from then on, as long as no
    pointer-leave and no close request arrives, nothing is scheduled again
    and the progress value keeps the value it had, whatever time passes.
    (Focus events have no handler and pause nothing.) *)
Theorem C4_pointer_enter_freezes_progress :
  forall (now : Z) (es : list event),
    pointer_ok false es = true ->
    let w := run (mount P now) es in
    mounted w = true -> isLeaving w = false ->
    let w' := step w MouseEnter in
    timers w' = ∅
    /\ (forall k cb, frames w' !! k = Some cb -> cb = EntranceCb)
    /\ progress w' = progress w
    /\ (forall es', forallb is_quiet es' = true ->
          progress (run w' es') = progress w
          /\ timers (run w' es') = ∅
          /\ (forall k cb, frames (run w' es') !! k = Some cb -> cb = EntranceCb)
          /\ isLeaving (run w' es') = false).
Proof.
  intros now es Hok w Hm Hlv w'.
  pose proof (tracked_inv_run P development now es Hok) as Hti. fold w in Hti.
  destruct (hover_freezes _ w Hti Hm Hlv) as [F1 F2 F3 F4]. fold w' in F1, F2, F3, F4.
  split; [exact F1|]. split; [exact F2|]. split; [exact F3|].
  intros es' Hq.
  destruct (hover_then_quiet _ w es' Hti Hm Hlv Hq) as [G1 G2 G3 G4].
  fold w' in G1, G2, G3, G4. auto.
Qed.

(** *** Teardown *)

Lemma torn_down_step (w0 w : World) (e : event) :
  torn_down w0 w -> torn_down w0 (step w e).
Proof.
  intros [I1 I2 I3 I4 I5 I6 I7 I8].
  destruct w as [clk mnt vis lv pr tr pf tms nt fms nf lg unc].
  proj_simpl. subst mnt tms.
  destruct e as [dt | k | k | | | | key | | | ].
  all: ev_dispatch; rewrite ?lookup_empty; split_tests.
  all: try match goal with
         | H : _ !! _ = Some ?f |- _ => pose proof (I3 _ _ H); subst f
         end.
  all: ev_handler; split_tests; ev_commit; split_tests.
  all: constructor; proj_simpl; try done; intros; lookup_cases; eauto.
Qed.

Lemma torn_down_run (w0 w : World) (es : list event) :
  torn_down w0 w -> torn_down w0 (run w es).
Proof.
  apply (run_invariant P development (torn_down w0)).
  intros w1 e. apply torn_down_step.
Qed.

Lemma unmount_eq (w : World) :
  mounted w = true ->
  mounted (step w Unmount) = false
  /\ timers (step w Unmount)
     = match timerRef w with Some h => delete h (timers w) | None => timers w end
  /\ frames (step w Unmount)
     = match progressRef w with Some h => delete h (frames w) | None => frames w end
  /\ log (step w Unmount) = log w
  /\ uncaught (step w Unmount) = uncaught w
  /\ isVisible (step w Unmount) = isVisible w
  /\ isLeaving (step w Unmount) = isLeaving w
  /\ progress (step w Unmount) = progress w
  /\ clock (step w Unmount) = clock w.
Proof.
  destruct w as [clk mnt vis lv pr tr pf tms nt fms nf lg unc].
  proj_simpl. intros ->. step_cases; repeat split; reflexivity.
Qed.

Lemma unmount_torn_down (h : bool) (w : World) :
  tracked_inv h w -> mounted w = true -> isLeaving w = false ->
  torn_down (step w Unmount) (step w Unmount).
Proof.
  intros [I1 I2] Hm Hlv.
  destruct (unmount_eq w Hm) as (E1 & E2 & E3 & _).
  specialize (I1 Hlv). specialize (I2 Hlv).
  constructor; try reflexivity; [exact E1 | |].
  - rewrite E2. apply map_empty. intros k.
    destruct (timerRef w) as [r|] eqn:Hr.
    + destruct (delete r (timers w) !! k) as [t|] eqn:Hl; [|reflexivity].
      apply lookup_delete_Some in Hl as [Hne Hl].
      destruct (I1 _ _ Hl) as (_ & _ & ?). congruence.
    + destruct (timers w !! k) as [t|] eqn:Hl; [|reflexivity].
      destruct (I1 _ _ Hl) as (_ & _ & ?). congruence.
  - rewrite E3. intros k cb Hl. destruct cb; try reflexivity.
    + destruct (progressRef w) as [r|] eqn:Hr.
      * apply lookup_delete_Some in Hl as [Hne Hl].
        destruct (I2 _ _ Hl eq_refl) as (_ & _ & ?). congruence.
      * destruct (I2 _ _ Hl eq_refl) as (_ & _ & ?). congruence.
    + destruct (progressRef w) as [r|] eqn:Hr.
      * apply lookup_delete_Some in Hl as [Hne Hl].
        destruct (I2 _ _ Hl eq_refl) as (_ & _ & ?). congruence.
      * destruct (I2 _ _ Hl eq_refl) as (_ & _ & ?). congruence.
Qed.

(** The dismissal timeout survives the cleanup and still calls [onClose]. *)
Lemma dismissal_survives_unmount (w : World) (k : positive) (t : timer_entry) :
  sched_inv P w -> mounted w = true ->
  timers w !! k = Some t -> t_cb t = DismissCb ->
  timers (step w Unmount) !! k = Some t.
Proof.
  intros [_ I2 _] Hm Hl Ht.
  destruct (unmount_eq w Hm) as (_ & E2 & _). rewrite E2.
  destruct (timerRef w) as [r|]; [|exact Hl].
  destruct I2 as [_ I2].
  rewrite lookup_delete_ne; [exact Hl|].
  intros ->. exact (I2 t Hl Ht).
Qed.

Lemma dismissal_after_unmount (w : World) (k : positive) (t : timer_entry)
    (f : string -> completion unit) :
  mounted w = false ->
  timers w !! k = Some t -> t_cb t = DismissCb -> due t (clock w) = true ->
  onClose P = Some f ->
  In (OnCloseCalled (id P) false) (log (step w (TimerFires k))).
Proof.
  destruct w as [clk mnt vis lv pr tr pf tms nt fms nf lg unc].
  destruct t as [cb d s]. proj_simpl. intros -> Hl -> Hdue Hf.
  ev_dispatch. rewrite Hl, Hdue. ev_handler. rewrite Hf.
  split_tests; ev_commit; proj_simpl; simpl; auto.
Qed.

(** C6, as the code has it. Take a mounted toast whose pointer events
    have alternated so far (no pointer-leave without a pointer-enter
    before it). Teardown runs the effect cleanup, which cancels the timeout
    [timerRef] holds and the animation frame [progressRef] holds. For a
    toast that is not leaving these are all its pending expiry and progress
    callbacks: afterwards no timeout is pending, only entrance frames are,
    and no later event changes the state or calls anything. A dismissal
    timeout scheduled by a close is in no ref: it stays pending through
    teardown and still calls [onClose] afterwards. *)
Theorem C6_teardown_cancels_ref_handles_only :
  forall (now : Z) (es : list event),
    pointer_ok false es = true ->
    let w := run (mount P now) es in
    mounted w = true ->
    let w' := step w Unmount in
    mounted w' = false
    /\ timers w'
       = match timerRef w with Some h => delete h (timers w) | None => timers w end
    /\ frames w'
       = match progressRef w with Some h => delete h (frames w) | None => frames w end
    /\ (isLeaving w = false ->
        forall es', torn_down w' (run w' es'))
    /\ (forall k t, timers w !! k = Some t -> t_cb t = DismissCb ->
        timers w' !! k = Some t
        /\ (forall f, onClose P = Some f -> due t (clock w') = true ->
              In (OnCloseCalled (id P) false) (log (step w' (TimerFires k))))).
Proof.
  intros now es Hok w Hm w'.
  pose proof (tracked_inv_run P development now es Hok) as Hti. fold w in Hti.
  pose proof (sched_inv_run P development now es) as Hsi. fold w in Hsi.
  destruct (unmount_eq w Hm) as (E1 & E2 & E3 & _).
  split; [exact E1|]. split; [exact E2|]. split; [exact E3|]. split.
  - intros Hlv es'. apply torn_down_run.
    eapply unmount_torn_down; eassumption.
  - intros k t Hl Ht.
    pose proof (dismissal_survives_unmount w k t Hsi Hm Hl Ht) as Hl'.
    split; [exact Hl'|].
    intros f Hf Hdue.
    eapply dismissal_after_unmount; eassumption.
Qed.

End PauseAndTeardown.

(** ** Zero duration (C5), hidden progress bar (C10), throwing callback (C9) *)

Section DurationAndProgress.

Local Open Scope Q_scope.

Variable P : Props.
Variable development : bool.

Local Abbreviation step := (step P development).
Local Abbreviation run := (run P development).

(** *** A toast without duration *)

Lemma persistent_step (w : World) (e : event) :
  Qltb 0 (safeDuration P) = false ->
  persistent w ->
  persistent (step w e)
  /\ (isLeaving (step w e) = true ->
      isLeaving w = true \/ is_manual_close e = true)
  /\ (mounted (step w e) = false -> mounted w = false \/ e = Unmount).
Proof.
  intros Hz [I1 I2 I3 I4 I5].
  destruct w as [clk mnt vis lv pr tr pf tms nt fms nf lg unc].
  proj_simpl. subst tr pf pr.
  destruct e as [dt | k | k | | | | key | | | ].
  all: ev_dispatch; split_tests.
  all: try match goal with
         | H : _ !! _ = Some ?f |- _ =>
             first [ pose proof (I2 _ _ H); subst f
                   | pose proof (I1 _ _ H) as Hcb; proj_simpl; subst ]
         end.
  all: ev_handler; rewrite ?Hz; split_tests; ev_commit; split_tests;
       ev_cleanup; split_tests; ev_effect; rewrite ?Hz; split_tests.
  all: split; [constructor; proj_simpl; try done; intros; lookup_cases; eauto|].
  all: proj_simpl; cbn [is_manual_close]; split; intros; try done; auto.
Qed.

Lemma persistent_mount (now : Z) :
  Qltb 0 (safeDuration P) = false ->
  persistent (mount P now)
  /\ isLeaving (mount P now) = false /\ mounted (mount P now) = true.
Proof.
  intros Hz. unfold mount. ev_effect. rewrite Hz.
  split; [|split; reflexivity].
  constructor; proj_simpl; try done; intros; lookup_cases; done.
Qed.

Lemma persistent_run (now : Z) (es : list event) :
  Qltb 0 (safeDuration P) = false ->
  let w := run (mount P now) es in
  persistent w
  /\ (isLeaving w = true -> existsb is_manual_close es = true)
  /\ (mounted w = false -> In Unmount es).
Proof.
  intros Hz. induction es as [|e es IH] using rev_ind.
  - destruct (persistent_mount now Hz) as (H1 & H2 & H3).
    cbn zeta. rewrite run_nil. split; [exact H1|]. split; congruence.
  - cbn zeta in *. rewrite run_snoc.
    destruct IH as (I1 & I2 & I3).
    destruct (persistent_step _ e Hz I1) as (J1 & J2 & J3).
    split; [exact J1|]. split.
    + intros Hlv. rewrite existsb_app. cbn [existsb]. rewrite orb_false_r.
      destruct (J2 Hlv) as [H|H]; [rewrite (I2 H) | rewrite H, orb_true_r]; reflexivity.
    + intros Hm. apply in_or_app. destruct (J3 Hm) as [H| ->];
        [left; exact (I3 H) | right; left; reflexivity].
Qed.

Lemma manual_close_leaves (w : World) (e : event) :
  is_manual_close e = true -> mounted w = true ->
  isLeaving (step w e) = true.
Proof.
  intros He.
  destruct w as [clk mnt vis lv pr tr pf tms nt fms nf lg unc].
  proj_simpl. intros ->.
  destruct e as [dt | k | k | | | | key | | | ]; try discriminate He;
    cbn [is_manual_close] in He.
  all: ev_dispatch; ev_handler; rewrite ?He; split_tests; ev_commit; split_tests;
       ev_cleanup; split_tests; ev_effect; split_tests; reflexivity.
Qed.

(** C5. With a duration of 0 no expiry timeout and no progress frame is ever
    pending, the refs stay empty, the progress stays 100 and no bar is
    rendered; the toast is leaving only if a click on the close button or an
    Escape key press was delivered (such an event does make a mounted toast
    leave), and it is gone only if the parent unmounted it. *)
Theorem C5_zero_duration_persists :
  safeDuration P == 0 ->
  forall (now : Z) (es : list event),
    let w := run (mount P now) es in
    (forall k t, timers w !! k = Some t -> t_cb t = DismissCb)
    /\ (forall k cb, frames w !! k = Some cb -> cb = EntranceCb)
    /\ timerRef w = None /\ progressRef w = None /\ progress w = 100
    /\ (forall r, render P w = Normal r -> r_progress_bar r = None)
    /\ (isLeaving w = true -> existsb is_manual_close es = true)
    /\ (mounted w = false -> In Unmount es)
    /\ (forall e, is_manual_close e = true -> mounted w = true ->
          isLeaving (step w e) = true).
Proof.
  intros Hz now es w.
  assert (Hz' : Qltb 0 (safeDuration P) = false) by (apply Qltb_ge; lra).
  destruct (persistent_run now es Hz') as ([I1 I2 I3 I4 I5] & J2 & J3).
  fold w in I1, I2, I3, I4, I5, J2, J3.
  repeat (split; [assumption|]). split; [|split; [exact J2|split; [exact J3|]]].
  - intros r. unfold render.
    destruct (getAnimationClass _ _ _); [|discriminate].
    intros [= <-]. cbn [r_progress_bar]. rewrite Hz', andb_false_r. reflexivity.
  - intros e He Hm. apply manual_close_leaves; assumption.
Qed.

(** *** The expiry timeout and the [showProgress] flag *)

Lemma mount_timers (now : Z) :
  Qltb 0 (safeDuration P) = true ->
  timers (mount P now)
    = {[ 1%positive := {| t_cb := ExpiryCb false; t_delay := safeDuration P;
                          t_set_at := now |} ]}
  /\ timerRef (mount P now) = Some 1%positive
  /\ clock (mount P now) = now
  /\ mounted (mount P now) = true
  /\ isLeaving (mount P now) = false.
Proof.
  intros Hd. unfold mount. ev_effect. rewrite Hd.
  split_tests; proj_simpl; rewrite insert_empty; repeat split; reflexivity.
Qed.

Lemma bar_hidden_step (w : World) (e : event) :
  showProgress P = false -> bar_hidden w -> bar_hidden (step w e).
Proof.
  intros Hsp [I1 I2].
  destruct w as [clk mnt vis lv pr tr pf tms nt fms nf lg unc].
  proj_simpl. subst pr.
  destruct e as [dt | k | k | | | | key | | | ].
  all: ev_dispatch; split_tests.
  all: try match goal with
         | H : _ !! _ = Some ?f |- _ => pose proof (I1 _ _ H); subst f
         end.
  all: ev_handler; rewrite ?Hsp; split_tests; ev_commit; split_tests;
       ev_cleanup; split_tests; ev_effect; rewrite ?Hsp; split_tests.
  all: constructor; proj_simpl; try done; intros; lookup_cases; eauto.
Qed.

Lemma bar_hidden_mount (now : Z) :
  showProgress P = false -> bar_hidden (mount P now).
Proof.
  intros Hsp. unfold mount. ev_effect. rewrite Hsp. split_tests.
  all: constructor; proj_simpl; try done; intros; lookup_cases; done.
Qed.

(** The expiry timeout set by the effect, fired [dt] ms after the mount. *)
Lemma expiry_after (now : Z) (dt : N) :
  Qltb 0 (safeDuration P) = true ->
  let w1 := step (mount P now) (Tick dt) in
  step w1 (TimerFires 1)
  = (if (Qfloor (safeDuration P) <=? Z.of_N dt)%Z
     then commit P false (handleClose false (clearTimeout 1 w1))
     else w1)
  /\ mounted (clearTimeout 1 w1) = true.
Proof.
  intros Hd. cbn zeta. unfold mount. ev_effect. rewrite Hd.
  assert (Hdue : forall c,
             due {| t_cb := c; t_delay := safeDuration P; t_set_at := now |}
                 (now + Z.of_N dt)
             = (Qfloor (safeDuration P) <=? Z.of_N dt)%Z).
  { intros c. unfold due. cbn [t_delay t_set_at]. f_equal. lia. }
  split_tests; ev_dispatch; ev_handler; rewrite lookup_insert_eq;
    rewrite Hdue; cbv [t_cb];
    (split; [destruct (Qfloor (safeDuration P) <=? Z.of_N dt)%Z|]; reflexivity).
Qed.

(** C10. With a positive duration the effect sets one expiry timeout, with
    delay [safeDuration], whatever [showProgress] is; the browser cannot run
    it before that delay has passed, and when it runs the toast starts
    leaving. With [showProgress] false no progress frame is ever requested
    and the progress stays at its initial 100. *)
Theorem C10_expiry_independent_of_showProgress :
  0 < safeDuration P ->
  forall now : Z,
    let w0 := mount P now in
    timers w0
      = {[ 1%positive := {| t_cb := ExpiryCb false; t_delay := safeDuration P;
                            t_set_at := now |} ]}
    /\ timerRef w0 = Some 1%positive
    /\ (forall dt : N, (Z.of_N dt < Qfloor (safeDuration P))%Z ->
          run w0 [Tick dt; TimerFires 1] = step w0 (Tick dt))
    /\ (forall dt : N, (Qfloor (safeDuration P) <= Z.of_N dt)%Z ->
          isLeaving (run w0 [Tick dt; TimerFires 1]) = true)
    /\ (showProgress P = false ->
        forall es : list event,
          progress (run w0 es) = 100
          /\ (forall k cb, frames (run w0 es) !! k = Some cb -> cb = EntranceCb)).
Proof.
  intros Hd now w0. subst w0.
  assert (Hd' : Qltb 0 (safeDuration P) = true) by (apply Qltb_lt; exact Hd).
  destruct (mount_timers now Hd') as (H1 & H2 & _).
  split; [exact H1|]. split; [exact H2|]. split; [|split].
  - intros dt Hdt. rewrite !run_cons, run_nil.
    destruct (expiry_after now dt Hd') as [-> _].
    apply Z.leb_gt in Hdt. rewrite Hdt. reflexivity.
  - intros dt Hdt. rewrite !run_cons, run_nil.
    destruct (expiry_after now dt Hd') as [-> Hm].
    apply Z.leb_le in Hdt. rewrite Hdt.
    set (w1 := clearTimeout 1 _) in *.
    destruct w1 as [clk mnt vis lv pr tr pf tms nt fms nf lg unc].
    proj_simpl. subst mnt.
    ev_handler. ev_commit. split_tests; ev_cleanup; split_tests; ev_effect;
      split_tests; reflexivity.
  - intros Hsp es.
    assert (Hbh : bar_hidden (run (mount P now) es)).
    { apply (run_invariant P development bar_hidden).
      - intros w e. apply bar_hidden_step, Hsp.
      - apply bar_hidden_mount, Hsp. }
    destruct Hbh as [B1 B2]. split; assumption.
Qed.

(** *** A throwing [onClose] *)

Lemma dismiss_callback_normal (w : World) :
  fst (dismiss_callback P development w) = Normal tt.
Proof.
  unfold dismiss_callback, call_onClose.
  destruct (onClose P) as [f|]; [|reflexivity].
  destruct (f (id P)); [reflexivity|].
  destruct development; reflexivity.
Qed.

(** C9, as the code has it. When [onClose] throws in the dismissal callback
    the exception is caught: nothing escapes the callback, the error is
    logged in development mode and dropped otherwise, and apart from the log
    and the consumed timeout the instance is as before: same state, same
    render output (opacity 0 for a leaving toast), and it can be torn down
    as before. *)
Theorem C9_throwing_onClose_is_caught :
  forall (f : string -> completion unit) (e : string) (w : World)
         (k : positive) (t : timer_entry),
    onClose P = Some f -> f (id P) = Throw e ->
    timers w !! k = Some t -> t_cb t = DismissCb -> due t (clock w) = true ->
    let w' := step w (TimerFires k) in
    fst (dismiss_callback P development (clearTimeout k w)) = Normal tt
    /\ uncaught w' = uncaught w
    /\ log w' = ((if development then [ErrorLogged e] else [])
                  ++ OnCloseCalled (id P) (mounted w) :: log w)%list
    /\ timers w' = delete k (timers w)
    /\ frames w' = frames w
    /\ mounted w' = mounted w
    /\ isLeaving w' = isLeaving w
    /\ isVisible w' = isVisible w
    /\ progress w' = progress w
    /\ render P w' = render P w
    /\ (isLeaving w = true ->
        forall r, render P w' = Normal r -> r_opacity r = 0%Z)
    /\ (mounted w = true -> mounted (step w' Unmount) = false).
Proof.
  intros f e w k t Hf He Hl Ht Hdue w'.
  split; [apply dismiss_callback_normal|].
  subst w'.
  destruct w as [clk mnt vis lv pr tr pf tms nt fms nf lg unc].
  destruct t as [cb d s]. proj_simpl. subst cb.
  ev_dispatch. rewrite Hl, Hdue. ev_handler. rewrite Hf, He.
  destruct development; ev_commit; split_tests; proj_simpl;
    (repeat split; try reflexivity);
    intros Hlv; try discriminate Hlv;
    try (ev_dispatch; ev_cleanup; split_tests; reflexivity);
    intros r; unfold render; proj_simpl;
    (destruct (getAnimationClass _ _ _); [|discriminate]);
    intros [= <-]; try subst lv; cbn [r_opacity andb negb];
    try destruct vis; reflexivity.
Qed.

End DurationAndProgress.

(** ** The progress value over a whole trace (C3) *)

Section Decay.

Local Open Scope Q_scope.

Variable P : Props.
Variable development : bool.

Local Abbreviation step := (step P development).
Local Abbreviation run := (run P development).

Lemma resume_progress_mono (p0 rem : Q) (e1 e2 : Z) :
  0 <= p0 -> 0 < rem -> (e1 <= e2)%Z ->
  resume_progress_at p0 rem e2 <= resume_progress_at p0 rem e1.
Proof.
  intros Hp Hr He. unfold resume_progress_at.
  apply Q.max_le_compat_l.
  assert (H1 : inject_Z e1 <= inject_Z e2) by (rewrite <- Zle_Qle; exact He).
  assert (H2 : inject_Z e1 / rem <= inject_Z e2 / rem).
  { unfold Qdiv. apply Qmult_le_compat_r; [exact H1|].
    apply Qlt_le_weak, Qinv_lt_0_compat, Hr. }
  assert (H3 : inject_Z e1 / rem * p0 <= inject_Z e2 / rem * p0)
    by (apply Qmult_le_compat_r; assumption).
  lra.
Qed.

Lemma mount_frame_decreasing (st : Z) :
  Qltb 0 (safeDuration P) = true -> frame_decreasing P (MountProgressCb st).
Proof.
  intros Hd n1 n2 Hn. cbn [frame_value].
  apply mount_progress_mono; [apply Qltb_lt, Hd | lia].
Qed.

Lemma resume_frame_decreasing (st : Z) (p : Q) :
  Qltb 0 (safeDuration P) = true -> Qltb 0 p = true ->
  frame_decreasing P (ResumeProgressCb st p ((p / 100) * safeDuration P)).
Proof.
  intros Hd Hp n1 n2 Hn. cbn [frame_value].
  apply Qltb_lt in Hd, Hp.
  apply resume_progress_mono; [lra | | lia].
  apply Qmult_lt_0_compat; [|exact Hd].
  apply Qlt_shift_div_l; [reflexivity | lra].
Qed.

Lemma decay_inv_step (h : bool) (w : World) (e : event) :
  leave_allowed h e = true -> tracked_inv h w -> decay_inv P w ->
  decay_inv P (step w e)
  /\ (isLeaving (step w e) = false -> progress (step w e) <= progress w).
Proof.
  intros Hal [T1 T2] [D1 D2].
  destruct w as [clk mnt vis lv pr tr pf tms nt fms nf lg unc].
  proj_simpl.
  destruct e as [dt | k | k | | | | key | | | ]; proj_simpl.
  all: step_cases.
  all: split.
  (* the progress after the step *)
  all: try (proj_simpl; intros Hlv; first
         [ discriminate Hlv
         | apply Qle_refl
         | specialize (D2 eq_refl);
           match goal with
           | H : _ !! _ = Some _ |- _ =>
               destruct (D2 _ _ H eq_refl) as [_ Hval]; apply Hval; lia
           end ]).
  all: try match goal with |- decay_inv _ _ => constructor; proj_simpl end.
  all: try assumption.
  all: try apply Q.le_max_l.
  (* the pending progress frames *)
  all: try (intros Hlv k0 cb Hl Hcb; try discriminate Hlv;
       first [specialize (D2 eq_refl) | specialize (D2 Hlv)];
       first [specialize (T2 eq_refl) | specialize (T2 Hlv)];
       lookup_cases; try discriminate Hcb).
  (* an old frame, progress untouched *)
  all: try (destruct (D2 _ _ Hl Hcb) as [Hdec Hval];
            split; [exact Hdec | intros now' Hn; apply Hval; lia]).
  (* the frame a progress callback asks for *)
  all: try (match goal with
            | Heq : _ !! _ = Some ?c |- frame_decreasing _ ?c /\ _ =>
                destruct (D2 _ _ Heq eq_refl) as [Hdec Hval];
                split; [exact Hdec |];
                intros now' Hn;
                first [apply (Hdec _ now'); lia | apply Hval; lia]
            end).
  (* another progress frame: there is none *)
  all: try (match goal with
            | Heq : _ !! _ = Some (MountProgressCb _) |- _ =>
                destruct (T2 _ _ Heq eq_refl) as (_ & _ & ?)
            | Heq : _ !! _ = Some (ResumeProgressCb _ _ _) |- _ =>
                destruct (T2 _ _ Heq eq_refl) as (_ & _ & ?)
            end;
            destruct (T2 _ _ Hl Hcb) as (_ & _ & ?); congruence).
  (* the loop started by a pointer-leave *)
  all: try (match goal with
            | Hd : Qltb 0 (safeDuration P) = true, Hp : Qltb 0 ?p = true
              |- frame_decreasing _ (ResumeProgressCb ?st ?p _) /\ _ =>
                pose proof (resume_frame_decreasing st p Hd Hp) as Hdec;
                split; [exact Hdec|];
                intros now' Hn; eapply Qle_trans; [apply (Hdec st now'); lia|];
                cbn [frame_value]; rewrite Z.sub_diag;
                apply Qle_lteq; right; apply resume_progress_start; exact D1
            end).
Qed.

Lemma decay_inv_mount (now : Z) : decay_inv P (mount P now).
Proof.
  unfold mount. ev_effect. split_tests.
  all: constructor; proj_simpl; try discriminate.
  all: intros _ k cb Hl Hcb; lookup_cases; try discriminate Hcb.
  pose proof (mount_frame_decreasing now Heqb) as Hdec.
  split; [exact Hdec|].
  intros now' Hn. eapply Qle_trans; [apply (Hdec now now'); lia|].
  cbn [frame_value]. rewrite Z.sub_diag.
  apply Qle_lteq. right. apply mount_progress_start.
Qed.

Lemma leaving_is_final (w : World) (e : event) :
  isLeaving w = true -> isLeaving (step w e) = true.
Proof.
  destruct w as [clk mnt vis lv pr tr pf tms nt fms nf lg unc].
  proj_simpl. intros ->.
  destruct e as [dt | k | k | | | | key | | | ]; step_cases; reflexivity.
Qed.

(** X20. Over a whole trace with alternating pointer events: until the
    toast starts leaving, no event (a progress sample of either loop, a
    pause, a resume, a timer, teardown) makes the progress value larger,
    and it is never negative. *)
Theorem progress_never_increases_before_leaving :
  forall (now : Z) (es : list event) (e : event),
    pointer_ok false (es ++ [e]) = true ->
    let w := run (mount P now) es in
    isLeaving (step w e) = false ->
    0 <= progress (step w e) /\ progress (step w e) <= progress w.
Proof.
  intros now es e Hok w Hlv.
  assert (Hinv : forall es' h0 w0, pointer_ok h0 (es' ++ [e]) = true ->
            tracked_inv h0 w0 -> decay_inv P w0 ->
            let h' := hover_after_all h0 es' in
            let w' := run w0 es' in
            tracked_inv h' w' /\ decay_inv P w' /\ leave_allowed h' e = true).
  { induction es' as [|e' es' IH]; intros h0 w0 Hok' Ht Hd.
    - cbn zeta. rewrite run_nil. cbn [hover_after_all].
      split; [exact Ht|]. split; [exact Hd|].
      cbn [app] in Hok'. rewrite pointer_ok_cons in Hok'.
      apply andb_true_iff in Hok' as [H _]. exact H.
    - cbn [app] in Hok'. rewrite pointer_ok_cons in Hok'.
      apply andb_true_iff in Hok' as [Ha Hok'].
      cbn zeta. rewrite run_cons. cbn [hover_after_all].
      apply IH; [exact Hok' | |].
      + apply tracked_inv_step; assumption.
      + apply (decay_inv_step h0); assumption. }
  destruct (Hinv es false (mount P now) Hok (tracked_inv_mount P now)
              (decay_inv_mount now)) as (Ht & Hd & Ha).
  fold w in Ht, Hd.
  destruct (decay_inv_step _ w e Ha Ht Hd) as [Hd' Hle].
  split; [exact (dc_nonneg _ _ Hd') | exact (Hle Hlv)].
Qed.

Lemma pointer_ok_snoc (h : bool) (es : list event) (e : event) :
  pointer_ok h (es ++ [e])
  = pointer_ok h es && leave_allowed (hover_after_all h es) e.
Proof.
  revert h. induction es as [|e' es IH]; intros h.
  - cbn [app hover_after_all]. rewrite pointer_ok_cons.
    cbn [pointer_ok]. rewrite andb_true_r. reflexivity.
  - cbn [app hover_after_all]. rewrite !pointer_ok_cons, IH.
    rewrite andb_assoc. reflexivity.
Qed.

Lemma decay_inv_run (now : Z) (es : list event) :
  pointer_ok false es = true ->
  tracked_inv (hover_after_all false es) (run (mount P now) es)
  /\ decay_inv P (run (mount P now) es).
Proof.
  intros Hok.
  assert (Hinv : forall es' h0 w0, pointer_ok h0 es' = true ->
            tracked_inv h0 w0 -> decay_inv P w0 ->
            tracked_inv (hover_after_all h0 es') (run w0 es')
            /\ decay_inv P (run w0 es')).
  { induction es' as [|e' es' IH]; intros h0 w0 Hok' Ht Hd.
    - split; assumption.
    - rewrite pointer_ok_cons in Hok'.
      apply andb_true_iff in Hok' as [Ha Hok'].
      rewrite (run_cons P development). cbn [hover_after_all].
      apply IH; [exact Hok' | |].
      + apply tracked_inv_step; assumption.
      + apply (decay_inv_step h0); assumption. }
  exact (Hinv es false (mount P now) Hok (tracked_inv_mount P now)
           (decay_inv_mount now)).
Qed.

(** C3, as the code has it. With a positive duration, a run of the
    effect's [updateProgress] on a mounted toast reads
    [elapsed = now - startTime], stores
    [max(0, 100 - (elapsed/duration)*100)] and asks for another frame
    exactly when that value is positive and [elapsed < duration]; a run at
    or after the duration stores 0 and ends the loop. The value is a
    non-increasing function of the elapsed time, 100 at the start, never
    negative and 0 from the duration on, so consecutive samples of one loop
    do not increase. Over the whole life of a toast whose pointer events
    alternate, no event makes the stored value larger, or negative, for as
    long as the toast is not leaving. *)
Theorem C3_progress_step_monotone :
  0 < safeDuration P ->
  (forall (w : World) (h : positive) (startTime : Z),
      mounted w = true ->
      frames w !! h = Some (MountProgressCb startTime) ->
      let elapsed := (clock w - startTime)%Z in
      let w' := step w (FrameFires h) in
      progress w' = Qmax 0 (100 - (inject_Z elapsed / safeDuration P) * 100)
      /\ (0 < progress w' /\ inject_Z elapsed < safeDuration P ->
          frames w' = <[next_frame w := MountProgressCb startTime]> (delete h (frames w))
          /\ progressRef w' = Some (next_frame w))
      /\ (progress w' <= 0 \/ safeDuration P <= inject_Z elapsed ->
          frames w' = delete h (frames w) /\ progressRef w' = progressRef w)
      /\ (safeDuration P <= inject_Z elapsed ->
          progress w' == 0 /\ frames w' = delete h (frames w))
      /\ (forall (dt : N) (h' : positive),
            frames w' !! h' = Some (MountProgressCb startTime) ->
            progress (run w' [Tick dt; FrameFires h']) <= progress w'))
  /\ (forall e1 e2 : Z, (e1 <= e2)%Z ->
        mount_progress_at P e2 <= mount_progress_at P e1)
  /\ (forall e : Z, safeDuration P <= inject_Z e -> mount_progress_at P e == 0)
  /\ (forall e : Z, 0 <= mount_progress_at P e)
  /\ mount_progress_at P 0 == 100
  /\ (forall (now : Z) (es : list event) (e : event),
        pointer_ok false (es ++ [e]) = true ->
        let w := run (mount P now) es in
        isLeaving (step w e) = false ->
        0 <= progress (step w e) /\ progress (step w e) <= progress w).
Proof.
  intros Hd.
  destruct (mount_loop_step P development Hd) as (L1 & L2 & L3 & L4 & L5).
  split; [|split; [exact L2|split; [exact L3|split; [exact L4|split; [exact L5|]]]]].
  - intros w h st Hm Hh. cbv zeta.
    pose proof (L1 w h st Hm Hh) as H. cbv zeta in H.
    destruct H as (A1 & A2 & A3 & A4).
    split; [exact A1|]. split; [exact A2|]. split; [exact A3|].
    split; [|exact A4].
    intros Hel. split; [|apply A3; right; exact Hel].
    rewrite A1. apply (L3 (clock w - st)%Z Hel).
  - intros now es e Hok w Hlv.
    rewrite pointer_ok_snoc in Hok. apply andb_true_iff in Hok as [Hok Ha].
    destruct (decay_inv_run now es Hok) as [Ht Hdc]. fold w in Ht, Hdc.
    destruct (decay_inv_step _ w e Ha Ht Hdc) as [Hd' Hle].
    split; [exact (dc_nonneg _ _ Hd') | exact (Hle Hlv)].
Qed.

End Decay.
(** ** Normalised props and render output *)

Lemma safeVariant_valid (p : Props) : In (safeVariant p) validVariants.
Proof.
  unfold safeVariant.
  destruct (with_default (JStr "info") (variant p)) as [| | | | |s];
    try (cbn; tauto).
  destruct (array_includes validVariants (JStr s)) eqn:H; [|cbn; tauto].
  cbn [array_includes] in H. apply existsb_exists in H as (x & Hin & Heq).
  apply String.eqb_eq in Heq. subst x. exact Hin.
Qed.

(** X1. Whatever the props, the normalised variant is one of the four
    variants, so both table lookups succeed (the [||] fallbacks of [Icon]
    and [variantStyles] are never taken) and exactly one of the four tints
    of the progress bar applies; the normalised duration is not negative;
    the message shown is never falsy. *)
Theorem normalised_props_are_valid :
  forall p : Props,
    In (safeVariant p) validVariants
    /\ obj_get toastIcons (safeVariant p) = Some (Icon p)
    /\ obj_get toastVariants (safeVariant p) = Some (variantStyles p)
    /\ In (progress_tint (safeVariant p))
          ["bg-green-500"; "bg-red-500"; "bg-yellow-500"; "bg-blue-500"]
    /\ (0 <= safeDuration p)%Q
    /\ truthy (safeMessage p) = true.
Proof.
  intros p. pose proof (safeVariant_valid p) as Hv.
  split; [exact Hv|].
  assert (Hcases : safeVariant p = "success" \/ safeVariant p = "error"
                   \/ safeVariant p = "warning" \/ safeVariant p = "info").
  { cbn in Hv. intuition auto. }
  unfold Icon, variantStyles.
  repeat split.
  - destruct Hcases as [H|[H|[H|H]]]; rewrite H; reflexivity.
  - destruct Hcases as [H|[H|[H|H]]]; rewrite H; reflexivity.
  - destruct Hcases as [H|[H|[H|H]]]; rewrite H; cbn; tauto.
  - unfold safeDuration.
    destruct (with_default (JNum 5000) (duration p)) as [| | |q| |];
      try discriminate.
    destruct (Qle_bool 0 q) eqn:Hq; [apply Qle_bool_iff, Hq | discriminate].
  - unfold safeMessage. destruct (truthy (message p)) eqn:H; [exact H|reflexivity].
Qed.

(** X2. The duration is taken from the prop exactly when the prop is a
    number that is not negative; every other value (a negative number,
    [NaN], [null], a boolean, a string such as ["3000"], a missing prop)
    gives 5000. So a toast is persistent only for a numeric zero. *)
Theorem safeDuration_cases :
  forall p : Props,
    (forall q, duration p = JNum q -> (0 <= q)%Q -> safeDuration p = q)
    /\ (forall q, duration p = JNum q -> (q < 0)%Q -> safeDuration p = 5000%Q)
    /\ ((forall q, duration p <> JNum q) -> safeDuration p = 5000%Q)
    /\ ((safeDuration p == 0)%Q <-> exists q, duration p = JNum q /\ (q == 0)%Q).
Proof.
  intros p. unfold safeDuration. repeat split.
  - intros q -> Hq. cbn [with_default].
    apply Qle_bool_iff in Hq. rewrite Hq. reflexivity.
  - intros q -> Hq. cbn [with_default].
    destruct (Qle_bool 0 q) eqn:H; [|reflexivity].
    apply Qle_bool_iff in H. lra.
  - intros Hn. destruct (duration p) as [| | |q| |]; try reflexivity.
    exfalso. exact (Hn q eq_refl).
  - destruct (duration p) as [| | |q| |]; cbn [with_default];
      try (intros H; exfalso; revert H; vm_compute; discriminate).
    destruct (Qle_bool 0 q) eqn:H.
    + intros H0. exists q. split; [reflexivity | exact H0].
    + intros H0. exfalso. revert H0. vm_compute. discriminate.
  - intros (q & Hq & H0). rewrite Hq. cbn [with_default].
    assert (Hle : Qle_bool 0 q = true) by (apply Qle_bool_iff; lra).
    rewrite Hle. exact H0.
Qed.

(** X3. [position] is used without a type check: [getAnimationClass]
    calls [position.includes] on whatever the prop holds. Among the
    primitive values, rendering succeeds exactly when the prop is missing
    (the default applies) or a string, and throws for [null], a boolean, a
    number and [NaN]. No state of the toast makes a difference to that. *)
Theorem render_throws_for_primitive_non_string_position :
  forall (p : Props) (w : World),
    ((exists r, render p w = Normal r)
       <-> (position p = JUndefined \/ exists s, position p = JStr s))
    /\ ((exists e, render p w = Throw e)
        <-> (position p = JNull \/ (exists b, position p = JBool b)
             \/ (exists q, position p = JNum q) \/ position p = JNaN)).
Proof.
  intros p w. unfold render, getAnimationClass.
  destruct (position p) as [| |b|q| |s]; cbn [with_default].
  all: split; split.
  all: try (intros _; solve [ left; reflexivity | right; eexists; reflexivity
                             | eexists; reflexivity
                             | right; left; eexists; reflexivity
                             | right; right; left; eexists; reflexivity
                             | right; right; right; reflexivity ]).
  all: try (intros (r & Hr); discriminate Hr).
  all: try (intros [H|[(? & H)|[(? & H)|H]]]; discriminate H).
  all: try (intros [H|(? & H)]; discriminate H).
  - intros _.
    destruct (isLeaving w), (isVisible w); cbn; eexists; reflexivity.
  - intros (e & He). revert He.
    destruct (isLeaving w), (isVisible w); cbn; discriminate.
  - intros _.
    destruct (isLeaving w), (isVisible w), (includes s "right"),
      (includes s "left"), (includes s "top"), (includes s "bottom");
      cbn; eexists; reflexivity.
  - intros (e & He). revert He.
    destruct (isLeaving w), (isVisible w), (includes s "right"),
      (includes s "left"), (includes s "top"), (includes s "bottom");
      cbn; discriminate.
Qed.

(** X4. The inline style and the animation class of a rendered toast
    agree: the element is opaque and untranslated exactly in the Visible
    phase, and exactly then its class is a slide-in class; in the Leaving
    phase the class is a slide-out class and before the entrance frame it
    is the hidden class, both with opacity 0. *)
Theorem render_style_agrees_with_class :
  forall (p : Props) (w : World) (r : Rendered),
    render p w = Normal r ->
    (r_opacity r = 1%Z <-> phase_of (isLeaving w) (isVisible w) = Visible)
    /\ (r_opacity r = 1%Z \/ r_opacity r = 0%Z)
    /\ (r_opacity r = 1%Z <-> r_transform r = "translateX(0)")
    /\ (r_opacity r = 0%Z <-> r_transform r = "translateX(100%)")
    /\ (r_opacity r = 1%Z
        <-> String.prefix "animate-slide-in-from-" (r_animation r) = true)
    /\ (phase_of (isLeaving w) (isVisible w) = Leaving
        <-> String.prefix "animate-slide-out-to-" (r_animation r) = true)
    /\ (phase_of (isLeaving w) (isVisible w) = Entering
        <-> r_animation r = "opacity-0 translate-x-full").
Proof.
  intros p w r. unfold render, getAnimationClass.
  destruct (with_default (JStr "top-right") (position p)) as [| | | | |s];
    try discriminate.
  destruct (isLeaving w), (isVisible w), (includes s "right"),
    (includes s "left"), (includes s "top"), (includes s "bottom");
    cbn [andb negb phase_of]; intros [= <-];
    cbn [r_opacity r_transform r_animation];
    repeat split; try discriminate; try reflexivity; auto; try tauto;
    try (intros H; vm_compute in H; discriminate H).
Qed.

(** X5. The ARIA reference never dangles: [aria-describedby] is set
    exactly when the title element is rendered, and then it is that
    element's [id]. A falsy title that is a number still leaves a bare text
    node, without an element to refer to. *)
Theorem aria_describedby_names_the_title :
  forall p : Props,
    (forall i, ariaDescribedby p = Some i
               <-> exists c, title_child p = Element i c)
    /\ (ariaDescribedby p = None
        <-> title_child p = Nothing \/ exists s, title_child p = Text s)
    /\ (forall i c, title_child p = Element i c ->
          i = "toast-title-" ++ id p /\ c = title p /\ truthy c = true).
Proof.
  intros p. unfold ariaDescribedby, title_child.
  destruct (truthy (title p)) eqn:Ht.
  - split; [|split].
    + intros i. split.
      * intros [= <-]. eexists. reflexivity.
      * intros (c & [= <- <-]). reflexivity.
    + split; [discriminate|]. intros [H|(s & H)]; discriminate H.
    + intros i c [= <- <-]. auto.
  - split; [|split].
    + intros i. split; [discriminate|].
      intros (c & H). destruct (title p); discriminate H.
    + split; [|reflexivity]. intros _.
      destruct (title p); eauto.
    + intros i c H. destruct (title p); discriminate H.
Qed.

Lemma safeVariant_keeps_valid (p : Props) (s : string) :
  In s validVariants -> variant p = JStr s -> safeVariant p = s.
Proof.
  intros Hin Hv. unfold safeVariant. rewrite Hv. cbn [with_default].
  assert (Hin' : array_includes validVariants (JStr s) = true).
  { cbn [array_includes]. apply existsb_exists. exists s.
    split; [exact Hin | apply String.eqb_refl]. }
  rewrite Hin'. reflexivity.
Qed.

(** X21. Normalising the variant keeps a valid variant as it is and is
    idempotent; the live region is assertive exactly when the [variant]
    prop is the string ["error"], and polite for everything else, invalid
    values included. *)
Theorem variant_normalisation_is_idempotent :
  forall p : Props,
    (forall s, In s validVariants -> variant p = JStr s -> safeVariant p = s)
    /\ safeVariant (with_variant (JStr (safeVariant p)) p) = safeVariant p
    /\ (safeVariant p = "error" <-> variant p = JStr "error")
    /\ (forall w r, render p w = Normal r ->
          (r_aria_live r = "assertive" <-> variant p = JStr "error")
          /\ (r_aria_live r = "polite" <-> variant p <> JStr "error")).
Proof.
  intros p.
  pose proof (safeVariant_keeps_valid p) as H1.
  assert (H3 : safeVariant p = "error" <-> variant p = JStr "error").
  { split.
    - unfold safeVariant.
      destruct (variant p) as [| | | | |s]; cbn [with_default];
        try discriminate.
      destruct (array_includes validVariants (JStr s)); [|discriminate].
      intros ->. reflexivity.
    - intros Hv. apply H1; [cbn; tauto | exact Hv]. }
  split; [exact H1|]. split; [|split; [exact H3|]].
  - apply safeVariant_keeps_valid; [apply safeVariant_valid | reflexivity].
  - intros w r. unfold render.
    destruct (getAnimationClass _ _ _); [|discriminate].
    intros [= <-]. cbn [r_aria_live].
    destruct (String.eqb (safeVariant p) "error") eqn:He.
    + apply String.eqb_eq in He. apply H3 in He.
      split; split; intros H; try reflexivity; try discriminate H; auto.
      exfalso. exact (H He).
    + apply String.eqb_neq in He.
      split; split; intros H; try reflexivity; try discriminate H.
      * exfalso. apply He, H3, H.
      * intros Hv. apply He, H3, Hv.
Qed.

(** ** Phases, close requests and pointer-enter *)

Section Irreversible.

Local Open Scope Q_scope.

Variable P : Props.
Variable development : bool.

Local Abbreviation step := (step P development).
Local Abbreviation run := (run P development).

Lemma visible_is_final (w : World) (e : event) :
  isVisible w = true -> isVisible (step w e) = true.
Proof.
  destruct w as [clk mnt vis lv pr tr pf tms nt fms nf lg unc].
  proj_simpl. intros ->.
  destruct e as [dt | k | k | | | | key | | | ]; step_cases; reflexivity.
Qed.

Lemma unmounted_is_final (w : World) (e : event) :
  mounted w = false -> mounted (step w e) = false.
Proof.
  destruct w as [clk mnt vis lv pr tr pf tms nt fms nf lg unc].
  proj_simpl. intros ->.
  destruct e as [dt | k | k | | | | key | | | ]; step_cases; reflexivity.
Qed.

Lemma leaving_run (w : World) (es : list event) :
  isLeaving w = true -> isLeaving (run w es) = true.
Proof.
  revert w. induction es as [|e es IH]; intros w H; [exact H|].
  apply IH. apply leaving_is_final. exact H.
Qed.

Lemma visible_run (w : World) (es : list event) :
  isVisible w = true -> isVisible (run w es) = true.
Proof.
  revert w. induction es as [|e es IH]; intros w H; [exact H|].
  apply IH. apply visible_is_final. exact H.
Qed.

Lemma unmounted_run (w : World) (es : list event) :
  mounted w = false -> mounted (run w es) = false.
Proof.
  revert w. induction es as [|e es IH]; intros w H; [exact H|].
  apply IH. apply unmounted_is_final. exact H.
Qed.

(** X6. No event takes a toast back: once it is leaving it stays leaving,
    once it has become visible [isVisible] stays set, and a torn-down
    instance stays torn down. A leaving toast is therefore rendered
    transparent, with a slide-out class, for the rest of its life. *)
Theorem phases_never_go_back :
  forall (w : World) (es : list event),
    (isLeaving w = true -> isLeaving (run w es) = true)
    /\ (isVisible w = true -> isVisible (run w es) = true)
    /\ (mounted w = false -> mounted (run w es) = false)
    /\ (isLeaving w = true ->
        forall r, render P (run w es) = Normal r ->
          r_opacity r = 0%Z
          /\ String.prefix "animate-slide-out-to-" (r_animation r) = true).
Proof.
  intros w es.
  assert (Hl : isLeaving w = true -> isLeaving (run w es) = true)
    by apply leaving_run.
  split; [exact Hl|]. split; [apply visible_run|]. split; [apply unmounted_run|].
  - intros H r. specialize (Hl H).
    unfold render, getAnimationClass.
    rewrite Hl.
    destruct (with_default (JStr "top-right") (position P)) as [| | | | |s];
      try discriminate.
    destruct (isVisible _), (includes s "right"), (includes s "left"),
      (includes s "top"), (includes s "bottom");
      cbn [andb negb]; intros [= <-]; split; reflexivity.
Qed.

(** *** Close requests *)

Lemma close_click_cases (w : World) :
  step w CloseClick = w \/ isLeaving (step w CloseClick) = true.
Proof.
  destruct (mounted w) eqn:Hm.
  - right. apply manual_close_leaves; [reflexivity | exact Hm].
  - left. destruct w as [clk mnt vis lv pr tr pf tms nt fms nf lg unc].
    proj_simpl. subst mnt. reflexivity.
Qed.

(** X7. The close button and the Escape key do the same thing, every
    other key does nothing, and a close request is idempotent: a second
    one (a double click, Escape after a click) changes nothing. *)
Theorem close_requests_agree_and_are_idempotent :
  forall w : World,
    step w (KeyDown "Escape") = step w CloseClick
    /\ step (step w CloseClick) CloseClick = step w CloseClick
    /\ step (step w CloseClick) (KeyDown "Escape") = step w CloseClick
    /\ (forall key, key <> "Escape" -> step w (KeyDown key) = w).
Proof.
  intros w. split; [reflexivity|].
  assert (H : step (step w CloseClick) CloseClick = step w CloseClick).
  { destruct (close_click_cases w) as [Hw|Hlv].
    - rewrite !Hw. reflexivity.
    - apply (close_request_leaving P development _ Hlv). }
  split; [exact H|]. split; [exact H|].
  intros key Hk.
  apply String.eqb_neq in Hk.
  destruct w as [clk mnt vis lv pr tr pf tms nt fms nf lg unc].
  ev_dispatch. destruct mnt; [|reflexivity].
  ev_handler. rewrite Hk. ev_commit.
  destruct lv; reflexivity.
Qed.

(** *** Pointer-enter *)

(** X8. A pointer-enter only cancels: it leaves the state, the refs, the
    clock and the log as they are, it schedules nothing (what is pending
    afterwards was pending before), and a second pointer-enter changes
    nothing more. *)
Theorem pointer_enter_only_cancels :
  forall w : World,
    let w' := step w MouseEnter in
    isVisible w' = isVisible w /\ isLeaving w' = isLeaving w
    /\ progress w' = progress w
    /\ timerRef w' = timerRef w /\ progressRef w' = progressRef w
    /\ clock w' = clock w /\ log w' = log w /\ mounted w' = mounted w
    /\ timers w' ⊆ timers w
    /\ frames w' ⊆ frames w
    /\ step w' MouseEnter = w'.
Proof.
  intros w.
  destruct w as [clk mnt vis lv pr tr pf tms nt fms nf lg unc].
  cbn zeta. ev_dispatch. destruct mnt.
  - ev_handler. destruct tr as [t|], pf as [f|]; proj_simpl.
    all: repeat (split; [first [reflexivity | apply delete_subseteq]|]).
    all: ev_dispatch; ev_handler; proj_simpl; rewrite ?delete_delete_eq;
      reflexivity.
  - proj_simpl. repeat (split; [reflexivity|]). reflexivity.
Qed.

End Irreversible.

(** ** Pending handles *)

Section Handles.

Local Open Scope Q_scope.

Variable P : Props.
Variable development : bool.

Local Abbreviation step := (step P development).
Local Abbreviation run := (run P development).

Lemma frames_inv_step (w : World) (e : event) :
  frames_inv w -> frames_inv (step w e).
Proof.
  intros [I1 I2].
  destruct w as [clk mnt vis lv pr tr pf tms nt fms nf lg unc].
  proj_simpl.
  destruct e as [dt | k | k | | | | key | | | ]; proj_simpl.
  all: step_cases.
  all: constructor; proj_simpl.
  all: try (intros k0 cb0 Hl0; lookup_cases; try lia;
            match goal with
            | H : _ !! _ = Some _ |- _ => pose proof (I1 _ _ H); lia
            end).
  all: intros k0 Hk0; try discriminate Hk0.
  all: first [ injection Hk0 as <- | idtac ].
  all: try (destruct (I2 _ eq_refl) as [Hlt Hne]).
  all: try (destruct (I2 _ Hk0) as [Hlt Hne]).
  all: split; [lia|].
  all: intros cb0 Hl0; lookup_cases; try discriminate; try lia; eauto.
  all: try match goal with
       | H : _ !! _ = Some _ |- _ => pose proof (I1 _ _ H); lia
       end.
Qed.

Lemma frames_inv_mount (now : Z) : frames_inv (mount P now).
Proof.
  unfold mount. ev_effect; split_tests.
  all: constructor; proj_simpl.
  all: try (intros k0 cb0 Hl0; lookup_cases; lia).
  all: intros k0 Hk0; try discriminate Hk0; injection Hk0 as <-.
  all: split; [lia|].
  all: intros cb0 Hl0; lookup_cases; try discriminate; lia.
Qed.

Lemma frames_inv_run (now : Z) (es : list event) :
  frames_inv (run (mount P now) es).
Proof.
  apply (run_invariant P development frames_inv);
    [apply frames_inv_step | apply frames_inv_mount].
Qed.

(** X9. The entrance frame is never cancelled. The effect discards the
    handle [requestAnimationFrame] returns for it, so neither a
    pointer-enter nor the cleanup (on a close request or on teardown) can
    remove it: on every trace an entrance frame stays pending until it
    runs, and when it runs on a mounted toast the toast becomes visible. *)
Theorem entrance_frame_is_never_cancelled :
  forall (now : Z) (es : list event),
    let w := run (mount P now) es in
    frames (mount P now) !! 1%positive = Some EntranceCb
    /\ (forall k, frames w !! k = Some EntranceCb ->
          (forall e, e <> FrameFires k ->
             frames (step w e) !! k = Some EntranceCb)
          /\ frames (step w (FrameFires k)) !! k = None
          /\ (mounted w = true -> isVisible (step w (FrameFires k)) = true)).
Proof.
  intros now es w. split.
  { unfold mount. ev_effect. split_tests; proj_simpl.
    all: rewrite ?lookup_insert_ne by lia; apply lookup_insert_eq. }
  pose proof (frames_inv_run now es) as [I1 I2]. fold w in I1, I2.
  clearbody w.
  destruct w as [clk mnt vis lv pr tr pf tms nt fms nf lg unc].
  proj_simpl. intros k Hk.
  pose proof (I1 _ _ Hk) as Hlt.
  assert (Href : pf <> Some k).
  { intros ->. destruct (I2 _ eq_refl) as [_ Hne]. exact (Hne _ Hk eq_refl). }
  split; [|split].
  - intros e He.
    destruct e as [dt | k' | k' | | | | key | | | ]; proj_simpl.
    all: step_cases; proj_simpl.
    all: rewrite ?lookup_insert_ne by lia.
    all: rewrite ?lookup_delete_ne by congruence.
    all: try exact Hk.
  - ev_dispatch. rewrite Hk.
    ev_handler; split_tests; ev_commit; split_tests; proj_simpl;
      apply lookup_delete_eq.
  - intros ->. ev_dispatch. rewrite Hk.
    ev_handler; ev_commit; split_tests; reflexivity.
Qed.

Lemma untracked_timer_survives (w : World) (h : positive) (t : timer_entry) :
  timers w !! h = Some t -> timerRef w <> Some h ->
  timers (step w MouseEnter) !! h = Some t
  /\ timers (step w Unmount) !! h = Some t.
Proof.
  destruct w as [clk mnt vis lv pr tr pf tms nt fms nf lg unc].
  proj_simpl. intros Hh Hne.
  split; step_cases; proj_simpl; rewrite ?lookup_delete_ne by congruence;
    exact Hh.
Qed.

(** X10. A pointer-leave never cancels anything. On every trace, a
    pointer-leave on a mounted toast with time left keeps every pending
    timeout and frame and adds a new expiry timeout, which [timerRef] then
    holds; a timeout the ref held before stays pending and is no longer
    tracked, so that no later pointer-enter or cleanup can cancel it. *)
Theorem pointer_leave_never_cancels :
  forall (now : Z) (es : list event),
    let w := run (mount P now) es in
    let w' := step w MouseLeave in
    timers w ⊆ timers w'
    /\ frames w ⊆ frames w'
    /\ (mounted w = true -> 0 < safeDuration P -> 0 < progress w ->
        timers w' !! next_timer w
          = Some {| t_cb := ExpiryCb (isLeaving w);
                    t_delay := (progress w / 100) * safeDuration P;
                    t_set_at := clock w |}
        /\ timerRef w' = Some (next_timer w)
        /\ (forall h t, timerRef w = Some h -> timers w !! h = Some t ->
              timers w' !! h = Some t
              /\ timerRef w' <> Some h
              /\ timers (step w' MouseEnter) !! h = Some t
              /\ timers (step w' Unmount) !! h = Some t)).
Proof.
  intros now es w w'.
  pose proof (sched_inv_run P development now es) as [S1 S2 _].
  pose proof (frames_inv_run now es) as [F1 F2].
  fold w in S1, S2, F1, F2.
  assert (Hnt : timers w !! next_timer w = None).
  { destruct (timers w !! next_timer w) as [t|] eqn:H; [|reflexivity].
    pose proof (S1 _ _ H). lia. }
  assert (Hnf : frames w !! next_frame w = None).
  { destruct (frames w !! next_frame w) as [t|] eqn:H; [|reflexivity].
    pose proof (F1 _ _ H). lia. }
  assert (Hsub : timers w ⊆ timers w').
  { subst w'. clearbody w.
    destruct w as [clk mnt vis lv pr tr pf tms nt fms nf lg unc].
    proj_simpl.
    step_cases; proj_simpl; first [reflexivity | apply insert_subseteq; exact Hnt]. }
  assert (Hnew : mounted w = true -> 0 < safeDuration P -> 0 < progress w ->
        timers w' !! next_timer w
          = Some {| t_cb := ExpiryCb (isLeaving w);
                    t_delay := (progress w / 100) * safeDuration P;
                    t_set_at := clock w |}
        /\ timerRef w' = Some (next_timer w)).
  { subst w'. clearbody w.
    destruct w as [clk mnt vis lv pr tr pf tms nt fms nf lg unc].
    proj_simpl. intros -> Hd Hp. apply Qltb_lt in Hd, Hp.
    ev_dispatch. ev_handler. rewrite Hd, Hp. cbn [andb].
    split_tests; proj_simpl; (split; [apply lookup_insert_eq | reflexivity]). }
  split; [exact Hsub|]. split.
  - subst w'. clearbody w.
    destruct w as [clk mnt vis lv pr tr pf tms nt fms nf lg unc].
    proj_simpl.
    step_cases; proj_simpl; first [reflexivity | apply insert_subseteq; exact Hnf].
  - intros Hm Hd Hp. destruct (Hnew Hm Hd Hp) as [H1 H2].
    split; [exact H1|]. split; [exact H2|].
    intros h t Hr Hh.
    assert (Hh' : timers w' !! h = Some t).
    { eapply lookup_weaken; [exact Hh | exact Hsub]. }
    assert (Hne : timerRef w' <> Some h).
    { rewrite H2. intros [= E]. rewrite E in Hnt. congruence. }
    split; [exact Hh'|]. split; [exact Hne|].
    apply untracked_timer_survives; assumption.
Qed.

(** X11. While pointer events alternate and the toast is not leaving, at
    most one timeout and at most one progress frame are pending, and they
    are the ones the refs hold; the timeout is an expiry callback. *)
Theorem at_most_one_timer_and_one_progress_frame :
  forall (now : Z) (es : list event),
    pointer_ok false es = true ->
    let w := run (mount P now) es in
    isLeaving w = false ->
    (forall k t, timers w !! k = Some t ->
       timerRef w = Some k /\ t_cb t = ExpiryCb false
       /\ forall k' t', timers w !! k' = Some t' -> k' = k)
    /\ (forall k cb, frames w !! k = Some cb -> is_progress_cb cb = true ->
          progressRef w = Some k
          /\ forall k' cb', frames w !! k' = Some cb' ->
               is_progress_cb cb' = true -> k' = k).
Proof.
  intros now es Hok w Hlv.
  pose proof (tracked_inv_run P development now es Hok) as [T1 T2].
  pose proof (close_inv_run P development now es Hok) as [C1 C2 C3 _ _].
  fold w in T1, T2, C1, C2, C3.
  specialize (T1 Hlv). specialize (T2 Hlv).
  split.
  - intros k t Hl. destruct (T1 _ _ Hl) as (_ & _ & Hr).
    split; [exact Hr|]. split.
    + destruct (t_cb t) as [[|]|] eqn:Hcb; [| reflexivity |].
      * pose proof (C2 _ _ Hl Hcb). congruence.
      * destruct (C3 _ _ Hl Hcb) as (_ & ? & _). congruence.
    + intros k' t' Hl'. destruct (T1 _ _ Hl') as (_ & _ & Hr'). congruence.
  - intros k cb Hl Hcb. destruct (T2 _ _ Hl Hcb) as (_ & _ & Hr).
    split; [exact Hr|].
    intros k' cb' Hl' Hcb'. destruct (T2 _ _ Hl' Hcb') as (_ & _ & Hr').
    congruence.
Qed.

(** X12. A toast without progress bar never updates [progress], so every
    pointer-leave re-arms the expiry timeout with the full duration. *)
Theorem resume_without_bar_restarts_full_duration :
  showProgress P = false -> 0 < safeDuration P ->
  forall (now : Z) (es : list event),
    let w := run (mount P now) es in
    mounted w = true ->
    let w' := step w MouseLeave in
    exists t,
      timers w' !! next_timer w = Some t
      /\ t_cb t = ExpiryCb (isLeaving w)
      /\ t_delay t == safeDuration P
      /\ t_set_at t = clock w
      /\ timerRef w' = Some (next_timer w)
      /\ frames w' = frames w.
Proof.
  intros Hsp Hd now es w Hm w'.
  assert (Hb : bar_hidden w).
  { apply (run_invariant P development bar_hidden).
    - intros w0 e. apply bar_hidden_step. exact Hsp.
    - apply bar_hidden_mount. exact Hsp. }
  destruct Hb as [_ Hp]. subst w'. clearbody w.
  destruct w as [clk mnt vis lv pr tr pf tms nt fms nf lg unc].
  proj_simpl. subst mnt pr.
  apply Qltb_lt in Hd.
  ev_dispatch. ev_handler. rewrite Hd, Hsp.
  assert (H100 : Qltb 0 100 = true) by reflexivity.
  rewrite H100. cbn [andb]. proj_simpl.
  eexists. split; [apply lookup_insert_eq|]. proj_simpl.
  repeat split. field.
Qed.

(** X13. A close request on a mounted toast that is not yet leaving
    schedules the dismissal 300 ms ahead and, since [handleClose] is a
    dependency of the effect and changes with [isLeaving], makes React run
    the cleanup and the effect again: the tracked expiry timeout and
    progress frame are cancelled, a second entrance frame is requested, a
    new expiry timeout over the full duration is set (its callback closes
    over [isLeaving = true] and does nothing), and the progress loop is
    started afresh. *)
Theorem close_request_reruns_the_effect :
  forall (now : Z) (es : list event),
    let w := run (mount P now) es in
    mounted w = true -> isLeaving w = false ->
    let w' := step w CloseClick in
    isLeaving w' = true
    /\ timers w' !! next_timer w
       = Some {| t_cb := DismissCb; t_delay := 300; t_set_at := clock w |}
    /\ (forall h, timerRef w = Some h -> timers w' !! h = None)
    /\ (forall h, progressRef w = Some h -> frames w' !! h = None)
    /\ frames w' !! next_frame w = Some EntranceCb
    /\ (0 < safeDuration P ->
        timers w' !! Pos.succ (next_timer w)
          = Some {| t_cb := ExpiryCb true; t_delay := safeDuration P;
                    t_set_at := clock w |}
        /\ timerRef w' = Some (Pos.succ (next_timer w))
        /\ (showProgress P = true ->
            frames w' !! Pos.succ (next_frame w)
              = Some (MountProgressCb (clock w))
            /\ progressRef w' = Some (Pos.succ (next_frame w))))
    /\ (safeDuration P == 0 ->
        timerRef w' = timerRef w /\ progressRef w' = progressRef w).
Proof.
  intros now es w Hm Hlv w'.
  pose proof (sched_inv_run P development now es) as [S1 S2 _].
  pose proof (frames_inv_run now es) as [F1 F2].
  fold w in S1, S2, F1, F2. subst w'. clearbody w.
  destruct w as [clk mnt vis lv pr tr pf tms nt fms nf lg unc].
  proj_simpl. subst mnt lv.
  assert (Htr : forall h, tr = Some h -> (h < nt)%positive).
  { intros h ->. apply S2. }
  assert (Hpf : forall h, pf = Some h -> (h < nf)%positive).
  { intros h Hh. apply (F2 _ Hh). }
  assert (Hdz : safeDuration P == 0 -> Qltb 0 (safeDuration P) = false).
  { intros H. apply Qltb_ge. lra. }
  assert (Hdp : 0 < safeDuration P -> Qltb 0 (safeDuration P) = true).
  { intros H. apply Qltb_lt. exact H. }
  split; [step_cases; reflexivity|].
  split.
  { step_cases; proj_simpl.
    all: rewrite ?lookup_insert_ne by lia.
    all: try (rewrite lookup_delete_ne by (pose proof (Htr _ eq_refl); lia)).
    all: apply lookup_insert_eq. }
  split.
  { intros h ->. pose proof (Htr _ eq_refl).
    step_cases; proj_simpl.
    all: rewrite ?lookup_insert_ne by lia.
    all: apply lookup_delete_eq. }
  split.
  { intros h ->. pose proof (Hpf _ eq_refl).
    step_cases; proj_simpl.
    all: rewrite ?lookup_insert_ne by lia.
    all: rewrite ?lookup_delete_eq; try reflexivity.
    all: destruct tr; rewrite ?lookup_delete_eq; reflexivity. }
  split.
  { step_cases; proj_simpl.
    all: rewrite ?lookup_insert_ne by lia.
    all: apply lookup_insert_eq. }
  split.
  - intros Hd. specialize (Hdp Hd).
    ev_dispatch. ev_handler. ev_commit. ev_cleanup. split_tests.
    all: ev_effect; rewrite Hdp; split_tests; proj_simpl.
    all: split; [apply lookup_insert_eq|].
    all: split; [reflexivity|].
    all: first [ discriminate
               | intros _; split; [apply lookup_insert_eq | reflexivity]].
  - intros Hd. specialize (Hdz Hd).
    ev_dispatch. ev_handler. ev_commit. ev_cleanup. split_tests.
    all: ev_effect; rewrite Hdz; split; reflexivity.
Qed.

End Handles.

(** ** The scheduled dismissal *)

Section Dismissal.

Local Open Scope Q_scope.

Variable P : Props.
Variable development : bool.

Local Abbreviation step := (step P development).
Local Abbreviation run := (run P development).

(** X23. A scheduled dismissal cannot be taken back. [handleClose]
    discards the handle of its timeout, so on every trace no event (a
    pointer-enter, a further close request, the cleanup, teardown) removes
    a pending dismissal: it stays pending, with its delay of 300 ms, until
    it runs; before it is due nothing happens, and when it runs [onClose],
    if there is one, is called with the toast's [id]. *)
Theorem dismissal_is_never_cancelled :
  forall (now : Z) (es : list event),
    let w := run (mount P now) es in
    forall k t,
      timers w !! k = Some t -> t_cb t = DismissCb ->
      t_delay t = 300
      /\ (forall e, e <> TimerFires k -> timers (step w e) !! k = Some t)
      /\ (due t (clock w) = false -> step w (TimerFires k) = w)
      /\ (due t (clock w) = true ->
          timers (step w (TimerFires k)) !! k = None
          /\ (forall f, onClose P = Some f ->
                exists l, log (step w (TimerFires k))
                          = (l ++ OnCloseCalled (id P) (mounted w) :: log w)%list)).
Proof.
  intros now es w k t Hk Hcb.
  pose proof (sched_inv_run P development now es) as [S1 S2 _].
  assert (Hdelay : forall k t, timers w !! k = Some t -> t_cb t = DismissCb ->
                               t_delay t = 300).
  { subst w.
    apply (run_invariant P development
             (fun w => forall k t, timers w !! k = Some t ->
                                   t_cb t = DismissCb -> t_delay t = 300)).
    - clear. intros w e I.
      destruct w as [clk mnt vis lv pr tr pf tms nt fms nf lg unc].
      proj_simpl.
      destruct e as [dt | k | k | | | | key | | | ]; step_cases; proj_simpl.
      all: intros k0 t0 Hl0 Hcb0; lookup_cases; proj_simpl;
        try discriminate Hcb0; try reflexivity; eauto.
    - clear. unfold mount. ev_effect; split_tests; proj_simpl.
      all: intros k0 t0 Hl0 Hcb0; lookup_cases; proj_simpl;
        try discriminate Hcb0.
      rewrite lookup_empty in Hl0. discriminate Hl0. }
  fold w in S1, S2. specialize (Hdelay _ _ Hk Hcb). clearbody w.
  destruct w as [clk mnt vis lv pr tr pf tms nt fms nf lg unc].
  destruct t as [cb d s]. proj_simpl. subst cb d.
  pose proof (S1 _ _ Hk) as Hlt.
  assert (Href : tr <> Some k).
  { intros ->. destruct S2 as [_ Hne]. exact (Hne _ Hk eq_refl). }
  split; [reflexivity|]. split; [|split].
  - intros e He.
    destruct e as [dt | k' | k' | | | | key | | | ]; proj_simpl.
    all: step_cases; proj_simpl.
    all: rewrite ?lookup_insert_ne by lia.
    all: rewrite ?lookup_delete_ne by congruence.
    all: rewrite ?lookup_insert_ne by lia.
    all: rewrite ?lookup_delete_ne by congruence.
    all: try exact Hk.
  - intros Hdue. ev_dispatch. rewrite Hk, Hdue. reflexivity.
  - intros Hdue. split.
    + ev_dispatch. rewrite Hk, Hdue.
      ev_handler; split_tests; ev_commit; split_tests; proj_simpl;
        apply lookup_delete_eq.
    + intros f Hf. ev_dispatch. rewrite Hk, Hdue.
      ev_handler. rewrite Hf.
      destruct (f (id P)); split_tests; ev_commit; split_tests; proj_simpl.
      all: first [ exists []; reflexivity
                 | eexists [_]; reflexivity ].
Qed.

End Dismissal.

(** ** A toast that is left alone *)

Section Untouched.

Local Open Scope Q_scope.

Variable P : Props.
Variable development : bool.

Local Abbreviation step := (step P development).
Local Abbreviation run := (run P development).

Lemma stays_mounted_step (w : World) (e : event) :
  e <> Unmount -> mounted w = true -> mounted (step w e) = true.
Proof.
  destruct w as [clk mnt vis lv pr tr pf tms nt fms nf lg unc].
  proj_simpl. intros He ->.
  destruct e as [dt | k | k | | | | key | | | ]; try congruence.
  all: step_cases; reflexivity.
Qed.

Lemma stays_mounted_run (w : World) (es : list event) :
  ~ In Unmount es -> mounted w = true -> mounted (run w es) = true.
Proof.
  revert w. induction es as [|e es IH]; intros w Hn Hm; [exact Hm|].
  rewrite (run_cons P development). apply IH.
  - intros H. apply Hn. right. exact H.
  - apply stays_mounted_step; [|exact Hm].
    intros ->. apply Hn. left. reflexivity.
Qed.

(** X22. A toast that is left alone is dismissed, once, and stays in the
    tree. For a positive duration: when the entrance frame and then the
    expiry timeout run, the timeout not before the duration (in whole
    milliseconds) is over, and the dismissal timeout runs 300 ms later,
    the toast has become visible and then leaving, and [onClose] has been
    called exactly once, with the toast still mounted. The component never
    removes itself: on every trace it stays mounted until the parent
    unmounts it. *)
Theorem untouched_toast_is_dismissed_once :
  forall now : Z,
    (forall es, ~ In Unmount es -> mounted (run (mount P now) es) = true)
    /\ (0 < safeDuration P ->
        forall (dt : N) (f : string -> completion unit),
          onClose P = Some f ->
          (Qfloor (safeDuration P) <= Z.of_N dt)%Z ->
          let w1 := run (mount P now) [FrameFires 1; Tick dt; TimerFires 1] in
          let w2 := run w1 [Tick 300; TimerFires 2] in
          isVisible w1 = true /\ isLeaving w1 = true /\ log w1 = []
          /\ timers w1 !! 2%positive
             = Some {| t_cb := DismissCb; t_delay := 300;
                       t_set_at := (now + Z.of_N dt)%Z |}
          /\ close_count (log w2) = 1%nat
          /\ In (OnCloseCalled (id P) true) (log w2)
          /\ clock w2 = (now + Z.of_N dt + 300)%Z
          /\ mounted w2 = true).
Proof.
  intros now. split.
  { intros es Hn. apply stays_mounted_run; [exact Hn|].
    unfold mount. ev_effect; split_tests; reflexivity. }
  intros Hd dt f Hf Hdue. apply Qltb_lt in Hd.
  cbn zeta.
  assert (Hdue1 : forall cb,
            due {| t_cb := cb; t_delay := safeDuration P; t_set_at := now |}
                (now + Z.of_N dt) = true).
  { intros cb. unfold due. proj_simpl. apply Z.leb_le. lia. }
  assert (Hdue2 : forall cb,
            due {| t_cb := cb; t_delay := 300; t_set_at := (now + Z.of_N dt)%Z |}
                (now + Z.of_N dt + Z.of_N 300) = true).
  { intros cb. unfold due. proj_simpl. apply Z.leb_le.
    change (Qfloor 300) with 300%Z. lia. }
  unfold mount. ev_effect. rewrite Hd.
  destruct (showProgress P) eqn:Hsp.
  (* the entrance frame *)
  all: rewrite (run_cons P development _ (FrameFires 1)).
  all: ev_dispatch; rewrite ?lookup_insert_ne by lia; rewrite lookup_insert_eq.
  all: ev_handler; ev_commit.
  (* the duration passes and the expiry timeout runs *)
  all: rewrite (run_cons P development _ (Tick dt)); ev_dispatch; ev_handler.
  all: rewrite (run_cons P development _ (TimerFires 1)), (run_nil P development).
  all: ev_dispatch; rewrite lookup_insert_eq, Hdue1.
  all: ev_handler; ev_commit; ev_cleanup; ev_effect; rewrite Hd, ?Hsp.
  (* 300 ms pass and the dismissal timeout runs *)
  all: rewrite (run_cons P development _ (Tick 300)); ev_dispatch; ev_handler.
  all: rewrite (run_cons P development _ (TimerFires 2)), (run_nil P development).
  all: ev_dispatch.
  all: rewrite lookup_insert_ne by lia; rewrite lookup_delete_ne by lia;
    rewrite lookup_insert_eq, Hdue2.
  all: ev_handler; rewrite Hf; destruct (f (id P)); split_tests; ev_commit;
    proj_simpl.
  all: repeat split; try reflexivity; try lia.
  all: cbn [In]; tauto.
Qed.

End Untouched.

(** ** Time bounds *)

Section Timing.

Local Open Scope Q_scope.

Variable P : Props.
Variable development : bool.

Local Abbreviation step := (step P development).
Local Abbreviation run := (run P development).

Lemma inject_Z_sub (a b : Z) : inject_Z (a - b) == inject_Z a - inject_Z b.
Proof.
  unfold Z.sub. rewrite inject_Z_plus, inject_Z_opp. reflexivity.
Qed.

(** A deadline in whole milliseconds: comparing [a + x] and [b + y] for
    integers [a], [b] carries over to the floors of [x] and [y]. *)
Lemma deadline_floor (a b : Z) (x y : Q) :
  inject_Z a + x <= inject_Z b + y -> (a + Qfloor x <= b + Qfloor y)%Z.
Proof.
  intros H.
  pose proof (Qfloor_le x) as Hx. pose proof (Qlt_floor y) as Hy.
  assert (Hlt : inject_Z (a + Qfloor x) < inject_Z (b + Qfloor y + 1)).
  { rewrite !inject_Z_plus in *. lra. }
  rewrite <- Zlt_Qlt in Hlt. lia.
Qed.

Lemma scale_le (x y d : Q) : 0 <= d -> x <= y -> x / 100 * d <= y / 100 * d.
Proof.
  intros Hd Hxy. apply Qmult_le_compat_r; [|exact Hd].
  unfold Qdiv. apply Qmult_le_compat_r; [exact Hxy | discriminate].
Qed.

Lemma mount_value_deadline (now st c : Z) :
  0 < safeDuration P -> (now <= st)%Z ->
  inject_Z now + safeDuration P
    <= inject_Z c + mount_progress_at P (c - st) / 100 * safeDuration P.
Proof.
  intros Hd Hst. unfold mount_progress_at.
  set (D := safeDuration P) in *.
  set (X := 100 - inject_Z (c - st) / D * 100).
  assert (HX : X / 100 * D <= Qmax 0 X / 100 * D).
  { apply scale_le; [lra | apply Q.le_max_r]. }
  assert (HXe : X / 100 * D == D - inject_Z (c - st)).
  { unfold X. field. lra. }
  rewrite inject_Z_sub in HXe.
  assert (Hn : inject_Z now <= inject_Z st) by (rewrite <- Zle_Qle; exact Hst).
  lra.
Qed.

Lemma resume_value_deadline (now st c : Z) (p0 rem : Q) :
  0 <= safeDuration P -> 0 < rem -> rem == p0 / 100 * safeDuration P ->
  inject_Z now + safeDuration P <= inject_Z st + rem ->
  inject_Z now + safeDuration P
    <= inject_Z c + resume_progress_at p0 rem (c - st) / 100 * safeDuration P.
Proof.
  intros Hd Hrem Heq Hdl. unfold resume_progress_at.
  set (D := safeDuration P) in *.
  set (X := p0 - inject_Z (c - st) / rem * p0).
  assert (HX : X / 100 * D <= Qmax 0 X / 100 * D).
  { apply scale_le; [lra | apply Q.le_max_r]. }
  assert (HXe : X / 100 * D == rem - inject_Z (c - st)).
  { unfold X.
    assert (E : (p0 - inject_Z (c - st) / rem * p0) / 100 * D
                == (p0 / 100 * D) - inject_Z (c - st) / rem * (p0 / 100 * D))
      by (field; lra).
    rewrite E, <- Heq. field. lra. }
  rewrite inject_Z_sub in HXe.
  lra.
Qed.

Lemma resume_progress_le (p0 rem : Q) (e : Z) :
  0 <= p0 -> 0 < rem -> (0 <= e)%Z -> resume_progress_at p0 rem e <= p0.
Proof.
  intros Hp Hr He. unfold resume_progress_at.
  apply Q.max_lub; [exact Hp|].
  assert (H0 : 0 <= inject_Z e) by (rewrite Zle_Qle in He; exact He).
  assert (H1 : 0 <= inject_Z e / rem).
  { unfold Qdiv. apply Qmult_le_0_compat; [exact H0|].
    apply Qlt_le_weak, Qinv_lt_0_compat, Hr. }
  assert (H2 : 0 <= inject_Z e / rem * p0) by (apply Qmult_le_0_compat; assumption).
  lra.
Qed.

Lemma remaining_pos (p : Q) :
  0 < safeDuration P -> 0 < p -> 0 < p / 100 * safeDuration P.
Proof.
  intros Hd Hp. apply Qmult_lt_0_compat; [|exact Hd].
  apply Qlt_shift_div_l; [reflexivity | lra].
Qed.

Lemma mount_value_pos_iff (st c : Z) :
  0 < safeDuration P ->
  0 < mount_progress_at P (c - st)
    <-> inject_Z c < inject_Z st + safeDuration P.
Proof.
  intros Hd. unfold mount_progress_at.
  set (D := safeDuration P) in *.
  set (X := 100 - inject_Z (c - st) / D * 100).
  assert (HXe : X == (100 / D) * (inject_Z st + D - inject_Z c)).
  { unfold X. rewrite inject_Z_sub. field. lra. }
  assert (Hk : 0 < 100 / D) by (apply Qlt_shift_div_l; lra).
  split.
  - intros H.
    destruct (Q.max_spec 0 X) as [[H1 H2]|[H1 H2]]; [|lra].
    rewrite HXe in H1.
    destruct (Qlt_le_dec (inject_Z c) (inject_Z st + D)) as [Hlt|Hge];
      [exact Hlt|].
    exfalso.
    assert (H3 : (100 / D) * (inject_Z st + D - inject_Z c) <= 0).
    { rewrite <- (Qmult_0_r (100 / D)).
      apply Qmult_le_l; [exact Hk | lra]. }
    lra.
  - intros H.
    assert (H3 : 0 < X).
    { rewrite HXe. apply Qmult_lt_0_compat; [exact Hk | lra]. }
    eapply Qlt_le_trans; [exact H3 | apply Q.le_max_r].
Qed.

Lemma resume_value_pos_iff (st c : Z) (p0 rem : Q) :
  0 < p0 -> 0 < rem ->
  0 < resume_progress_at p0 rem (c - st)
    <-> inject_Z c < inject_Z st + rem.
Proof.
  intros Hp Hr. unfold resume_progress_at.
  set (X := p0 - inject_Z (c - st) / rem * p0).
  assert (HXe : X == (p0 / rem) * (inject_Z st + rem - inject_Z c)).
  { unfold X. rewrite inject_Z_sub. field. lra. }
  assert (Hk : 0 < p0 / rem) by (apply Qlt_shift_div_l; lra).
  split.
  - intros H.
    destruct (Q.max_spec 0 X) as [[H1 H2]|[H1 H2]]; [|lra].
    rewrite HXe in H1.
    destruct (Qlt_le_dec (inject_Z c) (inject_Z st + rem)) as [Hlt|Hge];
      [exact Hlt|].
    exfalso.
    assert (H3 : (p0 / rem) * (inject_Z st + rem - inject_Z c) <= 0).
    { rewrite <- (Qmult_0_r (p0 / rem)).
      apply Qmult_le_l; [exact Hk | lra]. }
    lra.
  - intros H.
    assert (H3 : 0 < X).
    { rewrite HXe. apply Qmult_lt_0_compat; [exact Hk | lra]. }
    eapply Qlt_le_trans; [exact H3 | apply Q.le_max_r].
Qed.



Lemma frame_bounded_later (now now' : Z) (cb : frame_cb) :
  (now <= now')%Z -> frame_bounded P now cb -> frame_bounded P now' cb.
Proof.
  intros Hn. destruct cb; cbn [frame_bounded]; intuition lia.
Qed.

Lemma bounded_inv_step (w : World) (e : event) :
  bounded_inv P w -> bounded_inv P (step w e).
Proof.
  intros [B1 B2 B3].
  destruct w as [clk mnt vis lv pr tr pf tms nt fms nf lg unc].
  proj_simpl.
  destruct e as [dt | k | k | | | | key | | | ]; proj_simpl.
  all: step_cases.
  all: constructor; proj_simpl; try assumption.
  all: try apply Q.le_max_l.
  (* the value a progress callback stores *)
  all: try match goal with
       | H : _ !! _ = Some (MountProgressCb _) |- mount_progress_at _ _ <= 100 =>
           destruct (B3 _ _ H) as [? ?];
           apply mount_progress_le_100; [assumption | lia]
       | H : _ !! _ = Some (ResumeProgressCb _ _ _)
         |- resume_progress_at _ _ _ <= 100 =>
           destruct (B3 _ _ H) as (? & ? & ? & ?);
           eapply Qle_trans; [apply resume_progress_le; [assumption | assumption | lia]
                             | assumption]
       end.
  (* the pending frames *)
  all: intros k0 cb0 Hl0; lookup_cases; cbn [frame_bounded].
  all: try exact I.
  all: try (split; [lia | apply Qltb_lt; assumption]).
  all: try match goal with
       | H : _ !! _ = Some ?c |- _ => exact (B3 _ _ H)
       end.
  all: try (eapply frame_bounded_later; [|exact (B3 _ _ Hl0)]; lia).
  all: repeat split; try lia; try assumption.
  all: apply remaining_pos; apply Qltb_lt; assumption.
Qed.

Lemma bounded_inv_mount (now : Z) : bounded_inv P (mount P now).
Proof.
  unfold mount. ev_effect; split_tests.
  all: constructor; proj_simpl; try discriminate.
  all: intros k0 cb0 Hl0; lookup_cases; cbn [frame_bounded]; try exact I.
  all: split; [lia | apply Qltb_lt; assumption].
Qed.

(** X14. On every trace the progress value stays between 0 and 100: the
    [aria-valuenow] of the progress bar always lies between its
    [aria-valuemin] and [aria-valuemax], and the width of the bar is a
    percentage. *)
Theorem progress_stays_within_bounds :
  forall (now : Z) (es : list event),
    let w := run (mount P now) es in
    0 <= progress w /\ progress w <= 100
    /\ (forall r tint width,
          render P w = Normal r -> r_progress_bar r = Some (tint, width) ->
          0 <= width /\ width <= 100).
Proof.
  intros now es w.
  assert (Hb : bounded_inv P w).
  { apply (run_invariant P development (bounded_inv P));
      [apply bounded_inv_step | apply bounded_inv_mount]. }
  destruct Hb as [B1 B2 _].
  split; [exact B1|]. split; [exact B2|].
  intros r tint width. unfold render.
  destruct (getAnimationClass _ _ _); [|discriminate].
  intros [= <-]. cbn [r_progress_bar].
  destruct (showProgress P && Qltb 0 (safeDuration P))%bool; [|discriminate].
  intros [= _ <-]. split; assumption.
Qed.

Lemma tick_nonneg (dt : N) : 0 <= inject_Z (Z.of_N dt).
Proof. change 0 with (inject_Z 0). rewrite <- Zle_Qle. lia. Qed.

Lemma deadline_inv_step (t0 : Z) (w : World) (e : event) :
  is_manual_close e = false ->
  deadline_inv P t0 w -> deadline_inv P t0 (step w e).
Proof.
  intros Hmc [D1 D2 D3 D4 D5 D6 D7].
  pose proof safeDuration_nonneg P as Hd0.
  destruct w as [clk mnt vis lv pr tr pf tms nt fms nf lg unc].
  proj_simpl.
  destruct e as [dt | k | k | | | | key | | | ];
    cbn [is_manual_close] in Hmc; try discriminate Hmc.
  all: ev_dispatch; split_tests; ev_handler; rewrite ?Hmc; split_tests;
    ev_commit; split_tests; ev_cleanup; split_tests; ev_effect; split_tests.
  (* what a due callback tells about the time *)
  all: try match goal with
       | H : _ !! _ = Some {| t_cb := ExpiryCb false; t_delay := _; t_set_at := _ |},
         Hdue : due _ _ = true |- _ =>
           pose proof (D2 _ _ H eq_refl) as Hexp; proj_simpl;
           apply deadline_floor in Hexp;
           unfold due in Hdue; proj_simpl; apply Z.leb_le in Hdue
       | H : _ !! _ = Some {| t_cb := DismissCb; t_delay := _; t_set_at := _ |},
         Hdue : due _ _ = true |- _ =>
           destruct (D3 _ _ H eq_refl) as [Hs Hdl]; proj_simpl;
           unfold due in Hdue; proj_simpl; apply Z.leb_le in Hdue
       end.
  all: constructor; proj_simpl; try assumption; try lia.
  (* the pending timeouts *)
  all: try (intros k0 t1 Hl1 Hcb1; lookup_cases; proj_simpl;
            try discriminate Hcb1;
            first [ exact (D2 _ _ Hl1 Hcb1)
                  | exact (D3 _ _ Hl1 Hcb1)
                  | exact D5
                  | split; [lia | vm_compute; discriminate] ]).
  (* the pending frames *)
  all: try (intros k0 cb0 Hl0; lookup_cases; cbn [frame_on_time];
            first [ exact I
                  | exact (D4 _ _ Hl0)
                  | split; [lia | apply Qltb_lt; assumption]
                  | match goal with
                    | H : _ !! _ = Some _ |- _ => exact (D4 _ _ H)
                    end
                  | split; [apply remaining_pos; apply Qltb_lt; assumption|];
                    split; [reflexivity | exact D5] ]).
  (* the progress value *)
  all: try (rewrite inject_Z_plus; pose proof (tick_nonneg dt); lra).
  all: try match goal with
       | H : _ !! _ = Some (MountProgressCb _) |- _ =>
           destruct (D4 _ _ H) as [? ?]; apply mount_value_deadline; assumption
       | H : _ !! _ = Some (ResumeProgressCb _ _ _) |- _ =>
           destruct (D4 _ _ H) as (? & ? & ?);
           apply resume_value_deadline; assumption
       end.
  all: intros Hlv; specialize (D6 Hlv); lia.
Qed.

Lemma deadline_inv_mount (now : Z) : deadline_inv P now (mount P now).
Proof.
  unfold mount. ev_effect; split_tests.
  all: constructor; proj_simpl; try discriminate; try lia.
  all: try (intros k0 t1 Hl1 Hcb1; lookup_cases; proj_simpl;
            try discriminate Hcb1; apply Qle_refl).
  all: try (intros k0 cb0 Hl0; lookup_cases; cbn [frame_on_time];
            first [exact I | split; [lia | apply Qltb_lt; assumption]]).
  all: match goal with
       | |- _ <= _ + ?x =>
           assert (E : x == safeDuration P) by field; rewrite E; apply Qle_refl
       end.
Qed.

Lemma full_delay_step (w : World) (e : event) :
  is_pointer_leave e = false \/ progress w = 100 ->
  full_delay P w -> full_delay P (step w e).
Proof.
  intros Hpl I1.
  destruct w as [clk mnt vis lv pr tr pf tms nt fms nf lg unc].
  unfold full_delay in *. proj_simpl.
  destruct e as [dt | k | k | | | | key | | | ];
    cbn [is_pointer_leave] in Hpl;
    try (destruct Hpl as [Hpl|Hpl]; [discriminate Hpl | subst pr]).
  all: step_cases.
  all: intros k0 t1 Hl1 Hcb1; lookup_cases; proj_simpl;
    try discriminate Hcb1;
    first [ exact (I1 _ _ Hl1 Hcb1) | apply Qeq_refl | field ].
Qed.

Lemma full_delay_mount (now : Z) : full_delay P (mount P now).
Proof.
  unfold mount, full_delay. ev_effect; split_tests; proj_simpl.
  all: intros k0 t1 Hl1 Hcb1; lookup_cases; proj_simpl;
    try discriminate Hcb1; try apply Qeq_refl.
  all: rewrite lookup_empty in Hl1; discriminate Hl1.
Qed.

(** X15. Without a close request, nothing closes a toast early, in
    whatever order timers and frames run, as long as no resume computes
    its remaining time from a sampled progress value: the toast has no
    progress bar, or the pointer never leaves it. Then every expiry
    timeout that can still close the toast runs over the full duration and
    was set at or after the mount, the toast does not start leaving before
    the duration (in whole milliseconds) has passed since the mount, and
    [onClose] is not called before another 300 ms have passed. *)
Theorem no_early_dismissal :
  forall (now : Z) (es : list event),
    forallb (fun e => negb (is_manual_close e)) es = true ->
    showProgress P = false
    \/ forallb (fun e => negb (is_pointer_leave e)) es = true ->
    let w := run (mount P now) es in
    (forall k t, timers w !! k = Some t -> t_cb t = ExpiryCb false ->
       t_delay t == safeDuration P /\ (now <= t_set_at t)%Z)
    /\ (isLeaving w = true -> (now + Qfloor (safeDuration P) <= clock w)%Z)
    /\ ((1 <= close_count (log w))%nat ->
        (now + Qfloor (safeDuration P) + 300 <= clock w)%Z).
Proof.
  intros now es Hes Hex w.
  assert (Hinv : deadline_inv P now w).
  { subst w. clear Hex. induction es as [|e es IH] using rev_ind.
    - apply deadline_inv_mount.
    - rewrite forallb_app in Hes. apply andb_true_iff in Hes as [Hes He].
      cbn [forallb] in He. rewrite andb_true_r in He.
      apply negb_true_iff in He.
      rewrite (run_snoc P development).
      apply deadline_inv_step; [exact He | apply IH; exact Hes]. }
  assert (Hfull : full_delay P w).
  { subst w. clear Hinv Hes. destruct Hex as [Hsp|Hnl].
    - induction es as [|e es IH] using rev_ind.
      + apply full_delay_mount.
      + rewrite (run_snoc P development).
        apply full_delay_step; [right | exact IH].
        apply (bh_progress (run (mount P now) es)).
        apply (run_invariant P development bar_hidden).
        * intros w0 e0. apply bar_hidden_step. exact Hsp.
        * apply bar_hidden_mount. exact Hsp.
    - induction es as [|e es IH] using rev_ind.
      + apply full_delay_mount.
      + rewrite forallb_app in Hnl. apply andb_true_iff in Hnl as [Hnl He].
        cbn [forallb] in He. rewrite andb_true_r in He.
        apply negb_true_iff in He.
        rewrite (run_snoc P development).
        apply full_delay_step; [left; exact He | apply IH; exact Hnl]. }
  destruct Hinv as [D1 D2 D3 D4 D5 D6 D7].
  split; [|split; [exact D6 | exact D7]].
  intros k t Hk Hcb.
  pose proof (Hfull k t Hk Hcb) as Hfd. split; [exact Hfd|].
  pose proof (D2 k t Hk Hcb) as Hle. rewrite Hfd in Hle.
  rewrite Zle_Qle. lra.
Qed.


Lemma window_inv_step (c0 : Z) (w : World) (e : event) :
  window_inv c0 w -> window_inv c0 (step w e).
Proof.
  intros [W1 W2 W3].
  destruct w as [clk mnt vis lv pr tr pf tms nt fms nf lg unc].
  proj_simpl.
  destruct e as [dt | k | k | | | | key | | | ].
  all: step_cases.
  all: try match goal with
       | H : _ !! _ = Some {| t_cb := DismissCb; t_delay := _; t_set_at := _ |},
         Hdue : due _ _ = true |- _ =>
           destruct (W2 _ _ H eq_refl) as [Hs Hdl]; proj_simpl;
           unfold due in Hdue; proj_simpl; apply Z.leb_le in Hdue
       end.
  all: constructor; proj_simpl; try assumption; try lia.
  all: intros k0 t1 Hl1 Hcb1; lookup_cases; proj_simpl;
       try discriminate Hcb1;
       first [ exact (W2 _ _ Hl1 Hcb1)
             | split; [lia | vm_compute; discriminate] ].
Qed.

Lemma window_inv_run (c0 : Z) (w : World) (es : list event) :
  window_inv c0 w -> window_inv c0 (run w es).
Proof.
  apply (run_invariant P development (window_inv c0)).
  intros w0 e. apply window_inv_step.
Qed.

Lemma showing_inv_step (w : World) (e : event) :
  showing_inv w -> showing_inv (step w e).
Proof.
  intros [S1 S2].
  destruct w as [clk mnt vis lv pr tr pf tms nt fms nf lg unc].
  proj_simpl.
  destruct e as [dt | k | k | | | | key | | | ].
  all: step_cases.
  all: constructor; proj_simpl; try assumption; try discriminate.
  all: try (intros _ _; specialize (S1 eq_refl eq_refl);
            specialize (S2 eq_refl eq_refl)).
  all: try (intros Hm Hlv; specialize (S1 Hm Hlv); specialize (S2 Hm Hlv)).
  all: try assumption.
  all: try (intros k0 t1 Hl1 Hcb1; lookup_cases; proj_simpl;
            try discriminate Hcb1;
            try (exact (S1 _ _ Hl1 Hcb1))).
  all: try match goal with
       | H : _ !! _ = Some {| t_cb := DismissCb; t_delay := _; t_set_at := _ |}
         |- _ => exfalso; exact (S1 _ _ H eq_refl)
       end.
Qed.

Lemma showing_inv_mount (now : Z) : showing_inv (mount P now).
Proof.
  unfold mount. ev_effect; split_tests.
  all: constructor; proj_simpl; try reflexivity.
  all: intros _ _ k0 t1 Hl1 Hcb1; lookup_cases; proj_simpl;
    first [discriminate Hcb1 | rewrite lookup_empty in Hl1; discriminate Hl1].
Qed.

(** X16. The exit animation always gets its 300 ms: from a moment at
    which the toast is mounted and not leaving, whatever happens next
    (clicks, keys, expiry, pointer events, teardown), [onClose] is not
    called until 300 ms later. *)
Theorem onClose_waits_for_the_exit_animation :
  forall (now : Z) (es es' : list event),
    let w := run (mount P now) es in
    mounted w = true -> isLeaving w = false ->
    let w' := run w es' in
    close_count (log w) = 0%nat
    /\ ((1 <= close_count (log w'))%nat -> (clock w + 300 <= clock w')%Z).
Proof.
  intros now es es' w Hm Hlv w'.
  assert (Hs : showing_inv w).
  { apply (run_invariant P development showing_inv);
      [apply showing_inv_step | apply showing_inv_mount]. }
  destruct Hs as [S1 S2].
  specialize (S1 Hm Hlv). specialize (S2 Hm Hlv).
  split; [exact S2|].
  assert (Hw : window_inv (clock w) w).
  { constructor; [lia | | lia].
    intros k t Hl Hcb. exfalso. exact (S1 _ _ Hl Hcb). }
  apply (window_inv_run _ _ es') in Hw.
  exact (wi_closed _ _ Hw).
Qed.

Lemma sync_inv_step (h : bool) (w : World) (e : event) :
  leave_allowed h e = true -> tracked_inv h w -> close_inv h w ->
  sync_inv P w -> sync_inv P (step w e).
Proof.
  intros Hal [T1 T2] [C1 C2 C3 _ _] Hs. unfold sync_inv in *.
  destruct w as [clk mnt vis lv pr tr pf tms nt fms nf lg unc].
  proj_simpl.
  destruct e as [dt | k | k | | | | key | | | ]; proj_simpl.
  all: step_cases; proj_simpl.
  all: intros Hlv; try discriminate Hlv.
  all: first [specialize (Hs eq_refl) | specialize (Hs Hlv)].
  all: first [specialize (T1 eq_refl) | specialize (T1 Hlv)].
  all: first [specialize (T2 eq_refl) | specialize (T2 Hlv)].
  all: try assumption.
  all: intros k0 t1 f0 cb0 Hl1 Hl0; lookup_cases; cbn [in_step]; proj_simpl.
  all: try exact I.
  all: try (exact (Hs _ _ _ _ Hl1 Hl0)).
  (* a stale expiry callback: there is none *)
  all: try match goal with
       | H : _ !! _ = Some {| t_cb := ExpiryCb false; t_delay := _; t_set_at := _ |}
         |- _ => destruct (C1 _ _ H eq_refl) as (? & ? & ? & ?); discriminate
       end.
  (* the frame a progress callback asks for *)
  all: try match goal with
       | H : _ !! _ = Some (MountProgressCb _) |- _ => exact (Hs _ _ _ _ Hl1 H)
       | H : _ !! _ = Some (ResumeProgressCb _ _ _) |- _ => exact (Hs _ _ _ _ Hl1 H)
       end.
  (* a pointer-leave: nothing was pending *)
  all: try (destruct (T1 _ _ Hl1) as (_ & ? & _); congruence).
  all: try (destruct cb0; cbn [in_step]; [exact I | |];
            destruct (T2 _ _ Hl0 eq_refl) as (_ & ? & _); congruence).
  all: repeat split; try (apply Qltb_lt; assumption).
  all: try (apply remaining_pos; apply Qltb_lt; assumption).
  all: apply Qeq_refl.
Qed.

Lemma sync_inv_mount (now : Z) : sync_inv P (mount P now).
Proof.
  unfold mount, sync_inv. ev_effect; split_tests; proj_simpl.
  all: intros _ k0 t1 f0 cb0 Hl1 Hl0; lookup_cases; cbn [in_step]; proj_simpl.
  all: try exact I.
  all: try (rewrite lookup_empty in Hl1; discriminate Hl1).
  all: repeat split; apply Qltb_lt; assumption.
Qed.

Lemma sync_inv_run (now : Z) (es : list event) :
  pointer_ok false es = true -> sync_inv P (run (mount P now) es).
Proof.
  intros Hok.
  assert (Hinv : forall es' h0 w0, pointer_ok h0 es' = true ->
            tracked_inv h0 w0 -> close_inv h0 w0 -> sync_inv P w0 ->
            sync_inv P (run w0 es')).
  { induction es' as [|e' es' IH]; intros h0 w0 Hok' Ht Hc Hs; [exact Hs|].
    rewrite pointer_ok_cons in Hok'.
    apply andb_true_iff in Hok' as [Ha Hok'].
    rewrite (run_cons P development).
    apply (IH (hover_after h0 e')); [exact Hok' | | |].
    - apply tracked_inv_step; assumption.
    - apply close_inv_step; assumption.
    - apply (sync_inv_step h0); assumption. }
  exact (Hinv es false (mount P now) Hok (tracked_inv_mount P now)
           (close_inv_mount P now) (sync_inv_mount now)).
Qed.

(** X17. The progress bar and the expiry timeout run in step. While
    pointer events alternate and the toast is not leaving, a pending
    progress loop and the pending expiry timeout were started together and
    run over the same time: at any time, the value the loop computes is
    above 0 exactly as long as the timeout's delay has not passed. *)
Theorem bar_reaches_zero_when_the_timer_is_due :
  forall (now : Z) (es : list event),
    pointer_ok false es = true ->
    let w := run (mount P now) es in
    isLeaving w = false ->
    forall k t f cb,
      timers w !! k = Some t -> frames w !! f = Some cb ->
      is_progress_cb cb = true ->
      forall c : Z,
        0 < frame_value P cb c
          <-> inject_Z c < inject_Z (t_set_at t) + t_delay t.
Proof.
  intros now es Hok w Hlv k t f cb Hk Hf Hcb c.
  pose proof (sync_inv_run now es Hok) as Hinv.
  fold w in Hinv. specialize (Hinv Hlv _ _ _ _ Hk Hf).
  destruct cb as [|st|st p0 rem]; [discriminate Hcb | |];
    cbn [in_step frame_value] in *.
  - destruct Hinv as (-> & -> & Hd). apply mount_value_pos_iff. exact Hd.
  - destruct Hinv as (-> & -> & Hp & Hr & _).
    apply resume_value_pos_iff; assumption.
Qed.

(** *** What the instance tells the outside world *)

Lemma log_inv_step (w : World) (e : event) :
  log_inv P development w -> log_inv P development (step w e).
Proof.
  intros [L1 L2].
  destruct w as [clk mnt vis lv pr tr pf tms nt fms nf lg unc].
  proj_simpl. subst unc.
  destruct e as [dt | k | k | | | | key | | | ].
  all: step_cases.
  all: constructor; proj_simpl; try reflexivity; try assumption.
  all: repeat (apply Forall_cons; split); try assumption; cbn [log_entry_ok].
  all: try (split; [reflexivity | congruence]).
  all: split; [reflexivity|]; eexists; split; eassumption.
Qed.

Lemma log_inv_mount (now : Z) : log_inv P development (mount P now).
Proof.
  unfold mount. ev_effect; split_tests.
  all: constructor; proj_simpl; [reflexivity | apply Forall_nil_2].
Qed.

(** X19. No exception ever leaves a handler or a callback of the toast,
    whatever [onClose] does. [onClose] is only ever called with the toast's
    own [id]; an error is logged only in development mode and only for an
    exception that [onClose] threw; without an [onClose] prop the toast
    tells the outside world nothing at all. *)
Theorem no_exception_escapes :
  forall (now : Z) (es : list event),
    let w := run (mount P now) es in
    uncaught w = []
    /\ (forall i m, In (OnCloseCalled i m) (log w) ->
          i = id P /\ onClose P <> None)
    /\ (forall e, In (ErrorLogged e) (log w) ->
          development = true
          /\ exists f, onClose P = Some f /\ f (id P) = Throw e)
    /\ (onClose P = None -> log w = []).
Proof.
  intros now es w.
  assert (Hinv : log_inv P development w).
  { apply (run_invariant P development (log_inv P development));
      [apply log_inv_step | apply log_inv_mount]. }
  destruct Hinv as [L1 L2].
  pose proof (proj1 (List.Forall_forall _ _) L2) as L3.
  split; [exact L1|]. split; [|split].
  - intros i m Hin. exact (L3 _ Hin).
  - intros e Hin. exact (L3 _ Hin).
  - intros Hnone. clear L3. destruct (log w) as [|l ls]; [reflexivity|].
    exfalso. apply Forall_cons in L2 as [L2 _].
    destruct l as [i m|e]; cbn [log_entry_ok] in L2.
    + destruct L2 as [_ H]. exact (H Hnone).
    + destruct L2 as (_ & f & Hf & _). congruence.
Qed.

End Timing.


(** ** Concrete runs *)

Local Open Scope Q_scope.

(** The scenario of the specification: progress 100 at the start, expiry
    at 5000 ms, dismissal 300 ms later. *)
Example scenario_saved :
  let w := run saved_toast false (mount saved_toast 0)
               [FrameFires 1; Tick 5000; TimerFires 1; Tick 300; TimerFires 2] in
  clock w = 5300%Z /\ isLeaving w = true
  /\ log w = [OnCloseCalled "t1" true]
  /\ render saved_toast (mount saved_toast 0)
     = Normal {| r_container := container style_success;
                 r_animation := "opacity-0 translate-x-full";
                 r_icon := CheckCircle;
                 r_icon_class := icon_class style_success;
                 r_icon_bg := iconBg style_success;
                 r_aria_live := "polite";
                 r_opacity := 0; r_transform := "translateX(100%)";
                 r_animationDelay_ms := 0;
                 r_message := JStr "Saved";
                 r_progress_bar := Some ("bg-green-500", 100%Q) |}.
Proof. vm_compute. repeat split. Qed.

(** *** C1 *)

(** C1. Pointer-leaves that no pointer-enter precedes are enough to get
    two [onClose] calls. [handleMouseLeave] sets a new expiry timeout and
    overwrites [timerRef] without clearing the timeout it held, so after
    two such pointer-leaves three expiry timeouts are pending and the ref
    holds the last. When the first of them runs, the toast starts leaving
    and the cleanup clears the one in the ref. The one in between runs
    later, while the toast is leaving: its callback calls the
    [handleClose] of the first render, which still closes over
    [isLeaving = false], passes the guard and schedules a second
    dismissal. A single pointer-leave does the same when its timeout runs
    before the timeout set at mount, both being due in the same
    millisecond. *)
Theorem C1_stray_pointer_leave_closes_twice :
  (let w1 := run plain_toast false (mount plain_toast 0)
                 [FrameFires 1; Tick 1000; MouseLeave; Tick 1000; MouseLeave;
                  Tick 1000; TimerFires 1] in
   let w2 := run plain_toast false w1 [Tick 300; TimerFires 4; Tick 700] in
   let w3 := step plain_toast false w2 (TimerFires 2) in
   let w4 := run plain_toast false w3 [Tick 300; TimerFires 6] in
   isLeaving w1 = true
   /\ timers w1 !! 3%positive = None
   /\ (exists t, timers w1 !! 2%positive = Some t
                 /\ t_cb t = ExpiryCb false /\ t_set_at t = 1000%Z
                 /\ t_delay t == 3000)
   /\ timers w1 !! 4%positive
      = Some {| t_cb := DismissCb; t_delay := 300; t_set_at := 3000 |}
   /\ isLeaving w2 = true
   /\ log w2 = [OnCloseCalled "t4" true]
   /\ timers w3 !! 6%positive
      = Some {| t_cb := DismissCb; t_delay := 300; t_set_at := 4000 |}
   /\ log w4 = [OnCloseCalled "t4" true; OnCloseCalled "t4" true]
   /\ close_count (log w4) = 2%nat)
  /\ (let w1 := run saved_toast false (mount saved_toast 0)
                    [Tick 1000; FrameFires 2; MouseLeave; Tick 4000;
                     TimerFires 2] in
      let w2 := step saved_toast false w1 (TimerFires 1) in
      let w3 := run saved_toast false w2 [Tick 300; TimerFires 3; TimerFires 5] in
      isLeaving w1 = true
      /\ timers w1 !! 1%positive
         = Some {| t_cb := ExpiryCb false; t_delay := 5000; t_set_at := 0 |}
      /\ timers w1 !! 3%positive
         = Some {| t_cb := DismissCb; t_delay := 300; t_set_at := 5000 |}
      /\ timers w2 !! 5%positive
         = Some {| t_cb := DismissCb; t_delay := 300; t_set_at := 5000 |}
      /\ log w3 = [OnCloseCalled "t1" true; OnCloseCalled "t1" true]
      /\ close_count (log w3) = 2%nat).
Proof.
  cbv zeta. split.
  - split; [vm_compute; reflexivity|]. split; [vm_compute; reflexivity|].
    split.
    { eexists. split; [vm_compute; reflexivity|].
      split; [reflexivity|]. split; [reflexivity|]. vm_compute. reflexivity. }
    repeat split; vm_compute; reflexivity.
  - repeat split; vm_compute; reflexivity.
Qed.

(** With alternating pointer events the same race is harmless. *)
Lemma dismissal_at_most_once_witness :
  pointer_ok false racing_closes = true
  /\ (close_count (log (run saved_toast false (mount saved_toast 0) racing_closes))
      <= 1)%nat.
Proof.
  split; [reflexivity|].
  exact (proj1 (dismissal_at_most_once_when_pointer_alternates
                  saved_toast false 0 racing_closes eq_refl)).
Defined.

Example racing_closes_log :
  log (run saved_toast false (mount saved_toast 0) racing_closes)
  = [OnCloseCalled "t1" true].
Proof. vm_compute. reflexivity. Qed.

(** Two pointer-leaves in a row leave two expiry callbacks behind that
    still close over [isLeaving = false]. *)
Example stale_expiry_closes_twice :
  close_count
    (log (run saved_toast false (mount saved_toast 0)
            [MouseLeave; MouseLeave; Tick 5000; TimerFires 1; TimerFires 2;
             Tick 300; TimerFires 4; TimerFires 6]))
  = 2%nat.
Proof. vm_compute. reflexivity. Qed.

(** *** C2 *)

Local Abbreviation hovered_at_80 :=
  (run saved_toast false (mount saved_toast 0) [Tick 1000; FrameFires 2]).

Lemma C2_witness_resume_at_80 :
  mounted hovered_at_80 = true
  /\ timers (run saved_toast false hovered_at_80 [MouseEnter; MouseLeave])
       !! next_timer hovered_at_80
     = Some {| t_cb := ExpiryCb (isLeaving hovered_at_80);
               t_delay := (progress hovered_at_80 / 100) * safeDuration saved_toast;
               t_set_at := clock hovered_at_80 |}
  /\ progress (run saved_toast false
                 (run saved_toast false hovered_at_80 [MouseEnter; MouseLeave])
                 [Tick 2000; FrameFires (next_frame hovered_at_80)])
     == Qmax 0 (progress hovered_at_80
                - inject_Z (Z.of_N 2000) * (100 / safeDuration saved_toast)).
Proof.
  assert (Hm : mounted hovered_at_80 = true) by (vm_compute; reflexivity).
  split; [exact Hm|].
  pose proof (C2_resume_uses_remaining_time saved_toast false hovered_at_80 Hm)
    as H.
  cbv zeta in H. destruct H as [H _].
  destruct H as (H1 & _ & _ & _ & H5 & _); [vm_compute; reflexivity ..|].
  split; [exact H1|].
  destruct (H5 eq_refl) as (_ & _ & H6).
  destruct (H6 2000%N) as (_ & H7 & _). exact H7.
Defined.

(** The resumed loop, 2000 ms after a resume at 80: 40. *)
Example resumed_loop_sample :
  progress (run saved_toast false hovered_at_80
              [MouseEnter; Tick 700; MouseLeave; Tick 2000; FrameFires 4])
  == 40.
Proof. vm_compute. reflexivity. Qed.

(** The stored progress is what counts, not the time that has passed. A
    toast without progress bar never stores a sample: paused after 2000 of
    its 3000 ms and resumed, it gets the full 3000 ms again and no progress
    loop. A toast with a bar that is paused before the first sample gets
    the full duration as well. *)
Lemma C2_counterexample_resume_at_full_duration :
  (let w := run plain_toast false (mount plain_toast 0)
                [Tick 2000; MouseEnter; MouseLeave] in
   0 < safeDuration plain_toast
   /\ clock w = 2000%Z
   /\ (exists t, timers w !! 2%positive = Some t
                 /\ t_cb t = ExpiryCb false /\ t_set_at t = 2000%Z
                 /\ t_delay t == safeDuration plain_toast)
   /\ frames w = {[ 1%positive := EntranceCb ]})
  /\ (let w := run saved_toast false (mount saved_toast 0)
                   [Tick 2000; MouseEnter; MouseLeave] in
      exists t, timers w !! 2%positive = Some t
                /\ t_set_at t = 2000%Z
                /\ t_delay t == safeDuration saved_toast).
Proof.
  cbv zeta. split; [split; [reflexivity|split; [reflexivity|split]]|].
  - eexists. split; [vm_compute; reflexivity|].
    split; [reflexivity|]. split; [reflexivity|]. vm_compute. reflexivity.
  - vm_compute. reflexivity.
  - eexists. split; [vm_compute; reflexivity|].
    split; [reflexivity|]. vm_compute. reflexivity.
Qed.

Example resume_at_80_is_4000ms :
  progress hovered_at_80 == 80
  /\ (progress hovered_at_80 / 100) * safeDuration saved_toast == 4000.
Proof. split; vm_compute; reflexivity. Qed.

(** *** C3 *)

Lemma C3_witness_progress_samples :
  0 < safeDuration saved_toast
  /\ mount_progress_at saved_toast 2500 <= mount_progress_at saved_toast 1000
  /\ mount_progress_at saved_toast 5000 == 0
  /\ progress (step saved_toast false
                 (run saved_toast false (mount saved_toast 0) [Tick 1000])
                 (FrameFires 2))
     <= progress (run saved_toast false (mount saved_toast 0) [Tick 1000]).
Proof.
  assert (Hd : 0 < safeDuration saved_toast) by reflexivity.
  destruct (C3_progress_step_monotone saved_toast false Hd)
    as (_ & H2 & H3 & _ & _ & H6).
  split; [exact Hd|]. split; [|split].
  - apply H2. lia.
  - apply H3. vm_compute. discriminate.
  - pose proof (H6 0%Z [Tick 1000] (FrameFires 2)) as H. cbv zeta in H.
    destruct H as [_ H]; [vm_compute; reflexivity ..|].
    exact H.
Defined.

Example progress_samples :
  mount_progress_at saved_toast 0 == 100
  /\ mount_progress_at saved_toast 1000 == 80
  /\ mount_progress_at saved_toast 2500 == 50
  /\ mount_progress_at saved_toast 5000 == 0
  /\ mount_progress_at saved_toast 6000 == 0.
Proof. repeat split; vm_compute; reflexivity. Qed.

(** The sampled values of a whole life are not non-increasing, and 0 need
    not be reached. When the expiry timeout runs, the toast starts leaving
    and the effect runs again: it cancels the pending sample and starts a
    new loop with a new start time. Here the samples are 50 at 2500 ms and
    99.68 at 5016 ms; at 5000 ms, when the duration is over, the stored
    value is 50, and the 0 of the first loop is never stored. A toast
    without progress bar takes no sample at all: its value stays 100. *)
Lemma C3_counterexample_progress_restarts_when_leaving :
  (let w1 := run saved_toast false (mount saved_toast 0)
                 [Tick 2500; FrameFires 2] in
   let w2 := run saved_toast false w1 [Tick 2500; TimerFires 1] in
   let w3 := run saved_toast false w2 [Tick 16; FrameFires 5] in
   progress w1 == 50
   /\ clock w2 = 5000%Z /\ isLeaving w2 = true /\ progress w2 == 50
   /\ frames w2 !! 3%positive = None
   /\ frames w2 !! 5%positive = Some (MountProgressCb 5000)
   /\ progress w3 == 2492 # 25
   /\ ~ progress w3 <= progress w1
   /\ ~ progress w2 == 0)
  /\ (let w := run plain_toast false (mount plain_toast 0)
                   [Tick 3000; TimerFires 1; Tick 300; TimerFires 2] in
      close_count (log w) = 1%nat /\ progress w == 100).
Proof. vm_compute. repeat split; try discriminate; intros H; apply H; reflexivity. Qed.

(** *** C4 *)

Lemma C4_witness_hover_at_80 :
  pointer_ok false [Tick 1000; FrameFires 2] = true
  /\ mounted hovered_at_80 = true /\ isLeaving hovered_at_80 = false
  /\ progress (run saved_toast false (step saved_toast false hovered_at_80 MouseEnter)
                 [Tick 4000; FrameFires 3; TimerFires 1; Focus; Tick 60000])
     = progress hovered_at_80.
Proof.
  assert (Hm : mounted hovered_at_80 = true) by (vm_compute; reflexivity).
  assert (Hl : isLeaving hovered_at_80 = false) by (vm_compute; reflexivity).
  split; [reflexivity|]. split; [exact Hm|]. split; [exact Hl|].
  destruct (C4_pointer_enter_freezes_progress saved_toast false 0
              [Tick 1000; FrameFires 2] eq_refl Hm Hl) as (_ & _ & _ & H).
  exact (proj1 (H [Tick 4000; FrameFires 3; TimerFires 1; Focus; Tick 60000] eq_refl)).
Defined.

(** Three ways in which C4 as the specification states it fails. Focus has
    no handler:
    after it the expiry timeout is still pending and the next frame moves
    the bar. A close request on a paused toast makes the commit start a new
    loop, and the bar moves although no resume happened. And a
    pointer-enter on a leaving toast cancels only what the refs hold: after
    enter, click, leave, enter, the loop started by the commit is still
    running. *)
Lemma C4_counterexample_focus_and_leaving :
  (let w := step saved_toast false (mount saved_toast 0) Focus in
   timers w !! 1%positive
     = Some {| t_cb := ExpiryCb false; t_delay := 5000; t_set_at := 0 |}
   /\ progress w == 100
   /\ progress (run saved_toast false w [Tick 1000; FrameFires 2]) == 80)
  /\ (let w := step saved_toast false hovered_at_80 MouseEnter in
      timers w = ∅
      /\ progress w == 80
      /\ progress (run saved_toast false w [CloseClick; Tick 100; FrameFires 5])
         == 98)
  /\ (let w := run saved_toast false hovered_at_80
                   [MouseEnter; CloseClick; MouseLeave; MouseEnter] in
      isLeaving w = true
      /\ frames w !! 5%positive = Some (MountProgressCb 1000)
      /\ progress w == 80
      /\ progress (run saved_toast false w [Tick 100; FrameFires 5]) == 98).
Proof. vm_compute. repeat split. Qed.

(** *** C5 *)

Lemma C5_witness_sticky :
  safeDuration sticky_toast == 0
  /\ isLeaving (run sticky_toast false (mount sticky_toast 0)
                  [FrameFires 1; Tick 600000; MouseEnter; MouseLeave; Tick 600000])
     = false.
Proof.
  assert (Hz : safeDuration sticky_toast == 0) by reflexivity.
  split; [exact Hz|].
  destruct (C5_zero_duration_persists sticky_toast false Hz 0
              [FrameFires 1; Tick 600000; MouseEnter; MouseLeave; Tick 600000])
    as (_ & _ & _ & _ & _ & _ & H & _).
  destruct (isLeaving _); [|reflexivity].
  specialize (H eq_refl). discriminate H.
Defined.

Example sticky_closed_by_escape :
  let w := run sticky_toast false (mount sticky_toast 0)
               [Tick 600000; KeyDown "Escape"; Tick 300; TimerFires 1] in
  isLeaving w = true /\ log w = [OnCloseCalled "t3" true].
Proof. vm_compute. repeat split. Qed.

(** *** C6 *)

Lemma C6_witness_unmount_at_80 :
  pointer_ok false [Tick 1000; FrameFires 2] = true
  /\ mounted hovered_at_80 = true
  /\ log (run saved_toast false (step saved_toast false hovered_at_80 Unmount)
            [Tick 5000; TimerFires 1; FrameFires 3])
     = log (step saved_toast false hovered_at_80 Unmount).
Proof.
  assert (Hm : mounted hovered_at_80 = true) by (vm_compute; reflexivity).
  split; [reflexivity|]. split; [exact Hm|].
  destruct (C6_teardown_cancels_ref_handles_only saved_toast false 0
              [Tick 1000; FrameFires 2] eq_refl Hm) as (_ & _ & _ & H & _).
  assert (Hl : isLeaving hovered_at_80 = false) by (vm_compute; reflexivity).
  exact (td_log _ _ (H Hl [Tick 5000; TimerFires 1; FrameFires 3])).
Defined.

(** A toast closed by a click and unmounted before the 300 ms are over:
    the dismissal timeout is still pending after teardown and [onClose]
    runs on the unmounted instance. *)
Lemma C6_counterexample_dismissal_after_unmount :
  let w := run saved_toast false (mount saved_toast 0) [CloseClick; Unmount] in
  mounted w = false
  /\ timers w !! 2%positive
     = Some {| t_cb := DismissCb; t_delay := 300; t_set_at := 0 |}
  /\ log w = []
  /\ log (run saved_toast false w [Tick 300; TimerFires 2])
     = [OnCloseCalled "t1" false].
Proof. vm_compute. repeat split. Qed.

(** *** C9 *)

Local Abbreviation throwing_leaving :=
  (run throwing_toast true (mount throwing_toast 0) [CloseClick; Tick 300]).

Lemma C9_witness_throwing_in_development :
  onClose throwing_toast = Some (fun _ => Throw "boom")
  /\ timers throwing_leaving !! 2%positive
     = Some {| t_cb := DismissCb; t_delay := 300; t_set_at := 0 |}
  /\ uncaught (step throwing_toast true throwing_leaving (TimerFires 2)) = []
  /\ log (step throwing_toast true throwing_leaving (TimerFires 2))
     = [ErrorLogged "boom"; OnCloseCalled "t2" true].
Proof.
  assert (Hl : timers throwing_leaving !! 2%positive
               = Some {| t_cb := DismissCb; t_delay := 300; t_set_at := 0 |})
    by (vm_compute; reflexivity).
  split; [reflexivity|]. split; [exact Hl|].
  destruct (C9_throwing_onClose_is_caught throwing_toast true
              (fun _ => Throw "boom") "boom" throwing_leaving 2%positive _
              eq_refl eq_refl Hl eq_refl eq_refl) as (_ & H1 & H2 & _).
  split; [exact H1 | exact H2].
Defined.

(** Outside development mode the exception is swallowed: [onClose] threw and
    the log holds no error. *)
Lemma C9_counterexample_not_logged_in_production :
  let w := run throwing_toast false (mount throwing_toast 0)
               [CloseClick; Tick 300; TimerFires 2] in
  (exists f, onClose throwing_toast = Some f /\ f (id throwing_toast) = Throw "boom")
  /\ log w = [OnCloseCalled "t2" true]
  /\ (forall e, ~ In (ErrorLogged e) (log w)).
Proof.
  cbn zeta. split; [eexists; split; reflexivity|].
  assert (H : log (run throwing_toast false (mount throwing_toast 0)
                     [CloseClick; Tick 300; TimerFires 2])
              = [OnCloseCalled "t2" true]) by (vm_compute; reflexivity).
  rewrite H. split; [reflexivity|].
  intros e [He|[]]. discriminate He.
Qed.

(** *** C10 *)

Lemma C10_witness_expiry_at_5000 :
  0 < safeDuration saved_toast
  /\ isLeaving (run saved_toast false (mount saved_toast 0)
                  [Tick 5000; TimerFires 1]) = true
  /\ run saved_toast false (mount saved_toast 0) [Tick 4999; TimerFires 1]
     = step saved_toast false (mount saved_toast 0) (Tick 4999).
Proof.
  assert (Hd : 0 < safeDuration saved_toast) by reflexivity.
  destruct (C10_expiry_independent_of_showProgress saved_toast false Hd 0)
    as (_ & _ & H3 & H4 & _).
  split; [exact Hd|]. split.
  - apply H4. vm_compute. discriminate.
  - apply H3. vm_compute. reflexivity.
Defined.

(** *** Further runs *)

(** A negative number, a string and a small number as [duration]. *)
Lemma safeDuration_cases_witness :
  safeDuration (with_duration (JNum (-3)) saved_toast) = 5000
  /\ safeDuration (with_duration (JStr "3000") saved_toast) = 5000
  /\ safeDuration (with_duration (JNum 250) saved_toast) = 250.
Proof.
  split; [|split].
  - apply (proj1 (proj2 (safeDuration_cases _)) (-3)); [reflexivity|].
    vm_compute. reflexivity.
  - apply (proj1 (proj2 (proj2 (safeDuration_cases _)))).
    intros q. discriminate.
  - apply (proj1 (safeDuration_cases _) 250); [reflexivity|].
    vm_compute. discriminate.
Defined.

(** A title of [0] leaves a stray text node and no ARIA reference. *)
Example title_zero :
  let p := {| id := "t5"; title := JNum 0; message := JStr "Saved";
              variant := JStr "success"; duration := JNum 5000;
              onClose := None; showProgress := true;
              position := JStr "top-right"; stackIndex := 0 |} in
  title_child p = Text "0" /\ ariaDescribedby p = None.
Proof. vm_compute. split; reflexivity. Qed.

(** Before the entrance frame the toast is rendered hidden. *)
Lemma render_style_agrees_with_class_witness :
  exists r, render saved_toast (mount saved_toast 0) = Normal r
            /\ r_opacity r = 0%Z /\ r_transform r = "translateX(100%)".
Proof.
  eexists. split; [vm_compute; reflexivity|].
  split; [reflexivity|].
  apply (proj1 (proj1 (proj2 (proj2 (proj2
    (render_style_agrees_with_class saved_toast (mount saved_toast 0) _
       eq_refl)))))).
  reflexivity.
Defined.

(** A leaving toast stays leaving under pointer events and callbacks. *)
Lemma phases_never_go_back_witness :
  isLeaving (run saved_toast false
               (step saved_toast false (mount saved_toast 0) CloseClick)
               [MouseEnter; MouseLeave; Tick 100; FrameFires 5])
  = true.
Proof.
  apply (proj1 (phases_never_go_back saved_toast false _ _)).
  vm_compute. reflexivity.
Defined.

(** The Enter key does nothing. *)
Lemma close_requests_witness :
  step saved_toast false (mount saved_toast 0) (KeyDown "Enter")
  = mount saved_toast 0.
Proof.
  apply (proj2 (proj2 (proj2
    (close_requests_agree_and_are_idempotent saved_toast false
       (mount saved_toast 0))))).
  discriminate.
Defined.

(** The entrance frame survives a pointer-enter and the teardown. *)
Lemma entrance_frame_witness :
  frames (step saved_toast false
            (run saved_toast false (mount saved_toast 0) [Tick 100; MouseEnter])
            Unmount)
    !! 1%positive
  = Some EntranceCb.
Proof.
  pose proof (entrance_frame_is_never_cancelled saved_toast false 0
                [Tick 100; MouseEnter]) as H.
  cbv zeta in H. destruct H as [_ H].
  assert (H1 : frames (run saved_toast false (mount saved_toast 0)
                         [Tick 100; MouseEnter]) !! 1%positive
               = Some EntranceCb) by (vm_compute; reflexivity).
  destruct (H _ H1) as (H2 & _).
  apply H2. discriminate.
Defined.

(** A pointer-leave without a pointer-enter before it: the first expiry
    timeout can no longer be cancelled. *)
Lemma pointer_leave_never_cancels_witness :
  timers (step saved_toast false
            (step saved_toast false
               (run saved_toast false (mount saved_toast 0) []) MouseLeave)
            MouseEnter)
    !! 1%positive
  = Some {| t_cb := ExpiryCb false; t_delay := 5000; t_set_at := 0 |}.
Proof.
  pose proof (pointer_leave_never_cancels saved_toast false 0 []) as H.
  cbv zeta in H. destruct H as (_ & _ & H).
  destruct H as (_ & _ & H); [vm_compute; reflexivity ..|].
  assert (H1 : timerRef (run saved_toast false (mount saved_toast 0) [])
               = Some 1%positive) by (vm_compute; reflexivity).
  assert (H2 : timers (run saved_toast false (mount saved_toast 0) []) !! 1%positive
               = Some {| t_cb := ExpiryCb false; t_delay := 5000; t_set_at := 0 |})
    by (vm_compute; reflexivity).
  destruct (H _ _ H1 H2) as (_ & _ & H3 & _). exact H3.
Defined.

(** After a pause and a resume the one pending timeout is the tracked
    one. *)
Lemma at_most_one_timer_witness :
  timerRef (run saved_toast false (mount saved_toast 0)
              [Tick 1000; FrameFires 2; MouseEnter; Tick 700; MouseLeave])
  = Some 2%positive.
Proof.
  pose proof (at_most_one_timer_and_one_progress_frame saved_toast false 0
                [Tick 1000; FrameFires 2; MouseEnter; Tick 700; MouseLeave]) as H.
  cbv zeta in H.
  destruct H as [H _]; [vm_compute; reflexivity ..|].
  assert (H1 : exists t,
             timers (run saved_toast false (mount saved_toast 0)
                       [Tick 1000; FrameFires 2; MouseEnter; Tick 700; MouseLeave])
               !! 2%positive = Some t) by (vm_compute; eexists; reflexivity).
  destruct H1 as [t H1].
  destruct (H _ _ H1) as [H2 _]. exact H2.
Defined.

(** Without progress bar a resume after 2000 of 3000 ms starts over. *)
Lemma resume_without_bar_witness :
  exists t,
    timers (step plain_toast false
              (run plain_toast false (mount plain_toast 0) [Tick 2000; MouseEnter])
              MouseLeave)
      !! next_timer (run plain_toast false (mount plain_toast 0)
                       [Tick 2000; MouseEnter])
    = Some t
    /\ t_delay t == 3000.
Proof.
  pose proof (resume_without_bar_restarts_full_duration plain_toast false) as H.
  specialize (H eq_refl). specialize (H eq_refl).
  specialize (H 0%Z [Tick 2000; MouseEnter]).
  cbv zeta in H. specialize (H eq_refl).
  destruct H as (t & H1 & _ & H2 & _).
  exists t. split; [exact H1 | exact H2].
Defined.

(** A click one second after the mount. *)
Lemma close_request_reruns_witness :
  isLeaving (step saved_toast false
               (run saved_toast false (mount saved_toast 0) [Tick 1000])
               CloseClick)
  = true
  /\ timers (step saved_toast false
               (run saved_toast false (mount saved_toast 0) [Tick 1000])
               CloseClick)
       !! next_timer (run saved_toast false (mount saved_toast 0) [Tick 1000])
     = Some {| t_cb := DismissCb; t_delay := 300;
               t_set_at := clock (run saved_toast false (mount saved_toast 0)
                                    [Tick 1000]) |}.
Proof.
  pose proof (close_request_reruns_the_effect saved_toast false 0 [Tick 1000]) as H.
  cbv zeta in H.
  destruct H as (H1 & H2 & _); [vm_compute; reflexivity ..|].
  split; [exact H1 | exact H2].
Defined.

(** A toast without bar, hovered for 700 ms: it starts leaving at
    3700 ms, not before 3000 ms. *)
Lemma no_early_dismissal_witness :
  (0 + Qfloor (safeDuration plain_toast)
   <= clock (run plain_toast false (mount plain_toast 0)
               [MouseEnter; Tick 700; MouseLeave; Tick 3000; TimerFires 2]))%Z.
Proof.
  pose proof (no_early_dismissal plain_toast false 0
                [MouseEnter; Tick 700; MouseLeave; Tick 3000; TimerFires 2]) as H.
  cbv zeta in H.
  destruct H as (_ & H1 & _); [vm_compute; reflexivity | left; reflexivity |].
  apply H1. vm_compute. reflexivity.
Defined.

Example no_early_dismissal_leaving :
  isLeaving (run plain_toast false (mount plain_toast 0)
               [MouseEnter; Tick 700; MouseLeave; Tick 3000; TimerFires 2])
  = true.
Proof. vm_compute. reflexivity. Qed.

(** A click at 1000 ms: [onClose] runs at 1300 ms. *)
Lemma onClose_waits_witness :
  (clock (run saved_toast false (mount saved_toast 0) [Tick 1000]) + 300
   <= clock (run saved_toast false
               (run saved_toast false (mount saved_toast 0) [Tick 1000])
               [CloseClick; Tick 300; TimerFires 2]))%Z.
Proof.
  pose proof (onClose_waits_for_the_exit_animation saved_toast false 0
                [Tick 1000] [CloseClick; Tick 300; TimerFires 2]) as H.
  cbv zeta in H.
  destruct H as (_ & H1); [vm_compute; reflexivity ..|].
  apply H1. vm_compute. constructor.
Defined.

(** One millisecond before the expiry the bar still shows something. *)
Lemma bar_reaches_zero_witness :
  0 < frame_value saved_toast (MountProgressCb 0) 4999.
Proof.
  pose proof (bar_reaches_zero_when_the_timer_is_due saved_toast false 0
                [Tick 1000; FrameFires 2]) as H.
  cbv zeta in H. specialize (H eq_refl). specialize (H eq_refl).
  assert (H1 : timers hovered_at_80 !! 1%positive
               = Some {| t_cb := ExpiryCb false; t_delay := 5000; t_set_at := 0 |})
    by (vm_compute; reflexivity).
  assert (H2 : frames hovered_at_80 !! 3%positive = Some (MountProgressCb 0))
    by (vm_compute; reflexivity).
  apply (proj2 (H _ _ _ _ H1 H2 eq_refl 4999%Z)).
  vm_compute. reflexivity.
Defined.

(** The sample at 1000 ms does not raise the progress value. *)
Lemma progress_never_increases_witness :
  progress (step saved_toast false
              (run saved_toast false (mount saved_toast 0) [Tick 1000])
              (FrameFires 2))
  <= progress (run saved_toast false (mount saved_toast 0) [Tick 1000]).
Proof.
  pose proof (progress_never_increases_before_leaving saved_toast false 0
                [Tick 1000] (FrameFires 2)) as H.
  cbv zeta in H.
  destruct H as [_ H]; [vm_compute; reflexivity ..|].
  exact H.
Defined.

(** A valid variant is kept. *)
Lemma variant_normalisation_witness : safeVariant saved_toast = "success".
Proof.
  apply (proj1 (variant_normalisation_is_idempotent saved_toast) "success");
    [cbn; tauto | reflexivity].
Defined.

(** The scenario of the specification once more: one [onClose] call. *)
Lemma untouched_toast_witness :
  close_count
    (log (run saved_toast false
            (run saved_toast false (mount saved_toast 0)
               [FrameFires 1; Tick 5000; TimerFires 1])
            [Tick 300; TimerFires 2]))
  = 1%nat.
Proof.
  pose proof (untouched_toast_is_dismissed_once saved_toast false 0) as [_ H].
  specialize (H eq_refl 5000%N (fun _ => Normal tt) eq_refl).
  cbv zeta in H.
  destruct H as (_ & _ & _ & _ & H & _); [vm_compute; discriminate|].
  exact H.
Defined.

(** Neither a pointer-enter nor the teardown removes the dismissal. *)
Lemma dismissal_is_never_cancelled_witness :
  timers (step saved_toast false
            (run saved_toast false (mount saved_toast 0) [CloseClick; MouseEnter])
            Unmount)
    !! 2%positive
  = Some {| t_cb := DismissCb; t_delay := 300; t_set_at := 0 |}.
Proof.
  pose proof (dismissal_is_never_cancelled saved_toast false 0
                [CloseClick; MouseEnter]) as H.
  cbv zeta in H.
  assert (H1 : timers (run saved_toast false (mount saved_toast 0)
                         [CloseClick; MouseEnter]) !! 2%positive
               = Some {| t_cb := DismissCb; t_delay := 300; t_set_at := 0 |})
    by (vm_compute; reflexivity).
  destruct (H _ _ H1 eq_refl) as (_ & H2 & _).
  apply H2. discriminate.
Defined.
